(** * Synectic version-control core: a shallow embedding

    The development follows the TypeScript sources of the repository:

    - [GitStatusTs]   : the porcelain status module (processStatusCode,
                        worktreeStatus, fileStatus);
    - [Porcelain]     : containers/git-porcelain.ts (checkout, clone, merge,
                        getStatus, getConfig, setConfig);
    - [OldGit]        : containers/old-git/git-porcelain.ts, the deprecated
                        variants of the same operations;
    - [Worktree]      : the linked-worktree removal exercised by
                        __test__/git-worktree.spec.ts.

    JavaScript strings are modelled by [string] (porcelain codes, branch names
    and paths of the fixtures are ASCII), [undefined]/[null] by [None], an
    asynchronous function by the function of what it awaits, and the calls into
    isomorphic-git or the file system by the list of calls that are issued. *)

From Stdlib Require Import Bool List Ascii String Arith ZArith Lia Permutation.
Import ListNotations.
Open Scope string_scope.
Open Scope list_scope.


(* ------------------------------------------------------------------ *)
(** ** JavaScript values and string primitives *)

Module JS.

(** [!s] on a string: only the empty string is falsy. *)
Definition truthy_string (s : string) : bool :=
  negb (String.eqb s "").

(** [!v] on a value that is a string or [undefined]. *)
Definition truthy (v : option string) : bool :=
  match v with
  | None => false
  | Some s => truthy_string s
  end.

(** [s.startsWith(p)]. *)
Fixpoint starts_with (p s : string) : bool :=
  match p, s with
  | EmptyString, _ => true
  | String a p', String b s' => Ascii.eqb a b && starts_with p' s'
  | String _ _, EmptyString => false
  end.

(** [s.indexOf(p) > -1]. *)
Fixpoint includes (p s : string) : bool :=
  starts_with p s ||
  match s with
  | EmptyString => false
  | String _ s' => includes p s'
  end.

(** The characters of the class [\w]: letters, digits and the underscore. *)
Definition is_word (c : ascii) : bool :=
  let n := nat_of_ascii c in
  (Nat.leb 48 n && Nat.leb n 57) || (Nat.leb 65 n && Nat.leb n 90) ||
  (Nat.leb 97 n && Nat.leb n 122) || Nat.eqb n 95.

(** [xs.includes(x)] on an array of strings. *)
Definition array_includes (xs : list string) (x : string) : bool :=
  existsb (String.eqb x) xs.

(** [xs.find(p)]. *)
Definition array_find {A : Type} (p : A -> bool) (xs : list A) : option A :=
  List.find p xs.

(** Values a JavaScript binding of a string parameter can hold. *)
Inductive value : Type :=
| Undefined : value
| Str : string -> value.

(** [v === undefined]. *)
Definition is_undefined (v : value) : bool :=
  match v with
  | Undefined => true
  | Str _ => false
  end.

(** A destructured parameter [x = d]: the default is taken exactly when the
    property is missing or [undefined]. *)
Definition with_default {A : Type} (d : A) (x : option A) : A :=
  match x with
  | None => d
  | Some a => a
  end.

End JS.

(* ------------------------------------------------------------------ *)
(** ** The fragment of ECMAScript regular expressions the sources use *)

Module Regex.

Inductive regex : Type :=
| Chr (c : ascii)                  (* a literal character *)
| Any                              (* [.]: anything but a line terminator *)
| Class (cs : list ascii)          (* [[...]] *)
| Seq (r1 r2 : regex)
| Alt (r1 r2 : regex)              (* [r1|r2] *)
| Lookahead (r : regex).           (* [(?=r)], zero width *)

Definition mem (c : ascii) (cs : list ascii) : bool :=
  existsb (Ascii.eqb c) cs.

Definition line_terminator (c : ascii) : bool :=
  mem c ["010"%char; "013"%char].

(** All the ways [r] can match a prefix of [s]: the list of what is left of
    [s] after each of them, in the order a backtracking matcher tries. *)
Fixpoint match_at (r : regex) (s : list ascii) : list (list ascii) :=
  match r with
  | Chr c =>
      match s with
      | x :: t => if Ascii.eqb x c then [t] else []
      | [] => []
      end
  | Any =>
      match s with
      | x :: t => if line_terminator x then [] else [t]
      | [] => []
      end
  | Class cs =>
      match s with
      | x :: t => if mem x cs then [t] else []
      | [] => []
      end
  | Seq r1 r2 => flat_map (match_at r2) (match_at r1 s)
  | Alt r1 r2 => match_at r1 s ++ match_at r2 s
  | Lookahead r1 =>
      match match_at r1 s with
      | [] => []
      | _ :: _ => [s]
      end
  end.

Definition matches_here (r : regex) (s : list ascii) : bool :=
  match match_at r s with
  | [] => false
  | _ :: _ => true
  end.

(** [r.test(s)] for a pattern without anchors: some position of [s],
    the end included, starts a match. *)
Fixpoint test_from (r : regex) (s : list ascii) : bool :=
  matches_here r s ||
  match s with
  | [] => false
  | _ :: t => test_from r t
  end.

Definition test (r : regex) (s : string) : bool :=
  test_from r (list_ascii_of_string s).

End Regex.

(* ------------------------------------------------------------------ *)
(** ** The closed enumerations of store/types *)

Inductive GitStatus : Type :=
| ignored | unmodified | star_modified | star_deleted | star_added
| absent | modified | deleted | added | unmerged.

Inductive BranchStatus : Type :=
| clean | uncommitted | bs_unmerged.

Definition GitStatus_eqb (a b : GitStatus) : bool :=
  match a, b with
  | ignored, ignored | unmodified, unmodified | star_modified, star_modified
  | star_deleted, star_deleted | star_added, star_added | absent, absent
  | modified, modified | deleted, deleted | added, added
  | unmerged, unmerged => true
  | _, _ => false
  end.

(* ------------------------------------------------------------------ *)
(** ** Parsed git-config files and dot-prop *)

Module Config.

(** A value of the object that [ini] builds from a config file. *)
#[warnings="-register-all"]
Inductive cfgval : Type :=
| VStr (s : string)
| VBool (b : bool)
| VNum (n : Z)
| VNull
| VObj (fields : list (string * cfgval)).

(** A JavaScript object, properties in insertion order. *)
Definition cfg : Type := list (string * cfgval).

(** [!!v]. *)
Definition truthy_val (v : cfgval) : bool :=
  match v with
  | VStr s => JS.truthy_string s
  | VBool b => b
  | VNum n => negb (Z.eqb n 0)
  | VNull => false
  | VObj _ => true
  end.

(** [!!v] where [None] is [null]. *)
Definition truthy_opt (v : option cfgval) : bool :=
  match v with
  | None => false
  | Some x => truthy_val x
  end.

(** [o[k]], [None] when [k] is not a property of [o]. *)
Fixpoint lookup (k : string) (o : cfg) : option cfgval :=
  match o with
  | [] => None
  | (k', v) :: rest => if String.eqb k k' then Some v else lookup k rest
  end.

(** [o[k] = v]: an existing property keeps its place, a new one goes last. *)
Fixpoint assign (k : string) (v : cfgval) (o : cfg) : cfg :=
  match o with
  | [] => [(k, v)]
  | (k', v') :: rest =>
      if String.eqb k k' then (k', v) :: rest else (k', v') :: assign k v rest
  end.

(** [delete o[k]]. *)
Definition remove (k : string) (o : cfg) : cfg :=
  filter (fun kv => negb (String.eqb k (fst kv))) o.

(** Splitting on a separator character, as [s.split(c)]. *)
Fixpoint split_on (c : ascii) (s : string) : list string :=
  match s with
  | EmptyString => [EmptyString]
  | String a rest =>
      if Ascii.eqb a c then EmptyString :: split_on c rest
      else match split_on c rest with
           | [] => [String a EmptyString]
           | seg :: segs => String a seg :: segs
           end
  end.

(** dot-prop's path segments of a key path in plain form ([plain_key]
    below): the parts between its dots. *)
Definition getPathSegments (path : string) : list string :=
  split_on "." path.

(** The property names that every object inherits from [Object.prototype],
    which count as present for dot-prop's [in] test, and the segments that
    dot-prop refuses. *)
Definition reserved_names : list string :=
  ["__proto__"; "prototype"; "constructor"; "toString"; "toLocaleString";
   "valueOf"; "hasOwnProperty"; "isPrototypeOf"; "propertyIsEnumerable";
   "__defineGetter__"; "__defineSetter__"; "__lookupGetter__";
   "__lookupSetter__"].

(** A key path in the plain form of git-config keys: letters, digits,
    underscores and hyphens between dots (so no escape and no index), and no
    segment that is a reserved name. On such a key path the segments are the
    parts between the dots and a property is present exactly when the object
    has it as its own. *)
Definition plain_key (keyPath : string) : bool :=
  forallb (fun c => JS.is_word c || Ascii.eqb c "-" || Ascii.eqb c ".")
    (list_ascii_of_string keyPath) &&
  forallb (fun seg => negb (JS.array_includes reserved_names seg))
    (getPathSegments keyPath).

Fixpoint has_path (segs : list string) (v : cfgval) : bool :=
  match segs with
  | [] => true
  | k :: rest =>
      match v with
      | VObj o =>
          match lookup k o with
          | Some v' => has_path rest v'
          | None => false
          end
      | _ => false
      end
  end.

(** [dotProp.has(o, path)] for a key path in plain form, where a property is
    present exactly when the object has it as its own. *)
Definition has (o : cfg) (path : string) : bool :=
  has_path (getPathSegments path) (VObj o).

Fixpoint get_path (segs : list string) (v : cfgval) : option cfgval :=
  match segs with
  | [] => Some v
  | k :: rest =>
      match v with
      | VObj o =>
          match lookup k o with
          | Some v' => get_path rest v'
          | None => None
          end
      | _ => None
      end
  end.

(** [dotProp.get(o, path)], [None] for [undefined]. *)
Definition get (o : cfg) (path : string) : option cfgval :=
  get_path (getPathSegments path) (VObj o).

Definition child (k : string) (o : cfg) : cfg :=
  match lookup k o with
  | Some (VObj c) => c
  | _ => []
  end.

Fixpoint set_path (segs : list string) (value : cfgval) (o : cfg) : cfg :=
  match segs with
  | [] => o
  | k :: rest =>
      match rest with
      | [] => assign k value o
      | _ :: _ => assign k (VObj (set_path rest value (child k o))) o
      end
  end.

(** [dotProp.set(o, path, value)]: intermediate properties that are not
    objects are replaced by fresh ones. *)
Definition set (o : cfg) (path : string) (value : cfgval) : cfg :=
  set_path (getPathSegments path) value o.

Fixpoint delete_path (segs : list string) (o : cfg) : cfg :=
  match segs with
  | [] => o
  | k :: rest =>
      match rest with
      | [] => remove k o
      | _ :: _ =>
          match lookup k o with
          | Some (VObj c) => assign k (VObj (delete_path rest c)) o
          | _ => o
          end
      end
  end.

(** [dotProp.delete(o, path)]. *)
Definition delete (o : cfg) (path : string) : cfg :=
  delete_path (getPathSegments path) o.

Inductive Scope : Type := local | global.

(** [GitConfig]: [{ scope: 'none' }] or a scope with the value found there. *)
Inductive GitConfig : Type :=
| ScopeNone
| Found (scope : Scope) (value : cfgval) (origin : option string).

End Config.

(* ------------------------------------------------------------------ *)
(** ** What the operations read from their collaborators

    The file system, the git client and the helper modules that are consumed
    through an interface (io, git-path, git-plumbing, git-worktree, git-ignore,
    parse-git-config, ini, git-config-path) are the fields of a [World]: each
    field is the value the corresponding call resolves to. *)

(** One row of isomorphic-git's status matrix,
    [[filepath, HEAD, WORKDIR, STAGE]]. *)
Record matrix_row : Type := Row {
  row_filepath : string;   (* row[0] *)
  row_head : nat;          (* row[1] *)
  row_workdir : nat;       (* row[2] *)
  row_stage : nat          (* row[3] *)
}.

(** The bundle that getWorktreePaths resolves to. *)
Record WorktreePaths : Type := {
  wp_dir : option string;
  wp_gitdir : option string;
  wp_worktrees : option string;
  wp_worktreeDir : option string;
  wp_worktreeGitdir : option string;
  wp_worktreeLink : option string
}.

(** What [git status --porcelain --branch] printed, as the two patterns of
    worktreeStatus see it; [status_run] below computes it from the output. *)
Record StatusRun : Type := {
  run_ref : option string;                  (* [match(branchesPattern)?.[1]] *)
  run_entries : list (string * string);     (* [(e[1], e[2])] of each match *)
  run_stderr : string
}.

(** isomorphic-git's [MergeResult]. *)
Record MergeResult : Type := {
  mr_oid : option string;
  mr_alreadyMerged : option bool;
  mr_fastForward : option bool;
  mr_mergeCommit : option bool;
  mr_tree : option string
}.

(** The author handed to isomorphic-git's merge. *)
Record Author : Type := {
  au_name : string;
  au_email : string
}.

(** The arguments of a call of [isogit.merge]. *)
Record MergeCall : Type := {
  mg_dir : string;
  mg_ours : string;
  mg_theirs : string;
  mg_dryRun : bool;
  mg_author : Author
}.

(** How an awaited call ends: with a value, or rejected. *)
Inductive result (A : Type) : Type :=
| Ok (a : A)
| Throws.
Arguments Ok {A} a.
Arguments Throws {A}.

Record World : Type := {
  (* io and path *)
  isDirectory : string -> bool;
  isEqualPaths : string -> string -> bool;
  relative : string -> string -> string;
  path_join : string -> string -> string;
  path_resolve : list string -> string;
  path_normalize : string -> string;
  extractFilename : string -> string;
  (* git-path, git-worktree, git-ignore *)
  getRoot : string -> option string;
  getWorktreePaths : string -> WorktreePaths;
  isLinkedWorktree : string -> bool;
  resolveLinkToRoot : string -> option string;
  isGitRepo : string -> bool;
  worktree_list_refs : string -> option (list string); (* the [ref]s of [list(dir)] *)
  ignores : string -> string -> bool;       (* [(await getIgnore(root)).ignores(p)] *)
  (* the git client *)
  git_status : string -> option string -> bool -> StatusRun;
  currentBranchOf : string -> option string; (* [currentBranch({dir, fullname: false})] *)
  listLocalBranches : string -> list string;
  listRemoteBranches : string -> list string;
  resolveRef : string -> string -> string;
  listServerRefs_first_oid : string -> string -> option string;
  isogit_branch : string -> string -> bool;
    (* does [isogit.branch({ dir, ref, checkout: false })] resolve? It is
       rejected for a [ref] that [dir] already has. *)
  isogit_getConfig : string -> string -> option string;
  isogit_merge : MergeCall -> MergeResult;
  statusMatrix : string -> option (list matrix_row);
  shimStatusMatrix : string -> option (list (string * GitStatus));
  matrixEntry : string -> option GitStatus;
  (* git-config files *)
  getGitConfigPath_global : option string;
  parse : string -> option Config.cfg;
  expandKeys : Config.cfg -> Config.cfg;
  ini_stringify : Config.cfg -> string
}.

(* ------------------------------------------------------------------ *)
(** ** The porcelain status module *)

Module GitStatusTs.
Import Regex.

Definition MTD_class : list ascii := [" "; "M"; "T"; "D"]%char.

(** [/(DD|AA|.U|U.)/] *)
Definition re_unmerged : regex :=
  Alt (Seq (Chr "D") (Chr "D"))
    (Alt (Seq (Chr "A") (Chr "A"))
       (Alt (Seq Any (Chr "U")) (Seq (Chr "U") Any))).

(** [/c(?=[ MTD])/] *)
Definition re_then_MTD (c : ascii) : regex :=
  Seq (Chr c) (Lookahead (Class MTD_class)).

(** [/(?=[ MTD])c/] *)
Definition re_MTD_ahead (c : ascii) : regex :=
  Seq (Lookahead (Class MTD_class)) (Chr c).

(** What [console.error] receives. *)
Definition unable_to_convert (statusCode : string) : string :=
  "Unable to convert '" ++ statusCode ++ "' status code".

(** processStatusCode, with the lines written to [console.error]. *)
Definition processStatusCode (statusCode : option string)
  : GitStatus * list string :=
  match statusCode with
  | None => (unmodified, [])
  | Some code =>
      if negb (JS.truthy_string code) then (unmodified, [])
      else if String.eqb code "!!" then (ignored, [])
      else if String.eqb code "??" then (absent, [])
      else if test re_unmerged code then (unmerged, [])
      else if test (re_then_MTD "M") code then (modified, [])
      else if test (re_MTD_ahead "M") code then (star_modified, [])
      else if test (re_then_MTD "A") code then (added, [])
      else if test (re_MTD_ahead "A") code then (star_added, [])
      else if test (re_then_MTD "D") code then (deleted, [])
      else if test (re_MTD_ahead "D") code then (star_deleted, [])
      else (unmodified, [unable_to_convert code])
  end.

(** A two-character code [XY]. *)
Definition code (x y : ascii) : string :=
  String x (String y EmptyString).

(** The precedence table of the specification (section 4.3), read row by
    row; [None] stands for the last row, "unrecognized". *)
Definition spec_table (x y : ascii) : option GitStatus :=
  (let in_MTD c := mem c MTD_class in
   let ch := Ascii.eqb in
   if ch x "!" && ch y "!" then Some ignored
   else if ch x "?" && ch y "?" then Some absent
   else if (ch x "D" && ch y "D") || (ch x "A" && ch y "A")
           || ch x "U" || ch y "U" then Some unmerged
   else if ch x "M" && in_MTD y then Some modified
   else if ch y "M" && in_MTD x then Some star_modified
   else if ch x "A" then Some added
   else if ch y "A" then Some star_added
   else if ch x "D" then Some deleted
   else if ch y "D" then Some star_deleted
   else None)%char.

(** What the table asks of processStatusCode on [XY]. *)
Definition spec_processStatusCode (x y : ascii) : GitStatus * list string :=
  match spec_table x y with
  | Some st => (st, [])
  | None => (unmodified, [unable_to_convert (code x y)])
  end.

(** What processStatusCode computes on [XY], case by case. *)
Definition code_table (x y : ascii) : option GitStatus :=
  (let in_MTD c := mem c MTD_class in
   let ch := Ascii.eqb in
   if ch x "!" && ch y "!" then Some ignored
   else if ch x "?" && ch y "?" then Some absent
   else if (ch x "D" && ch y "D") || (ch x "A" && ch y "A")
           || (ch y "U" && negb (line_terminator x))
           || (ch x "U" && negb (line_terminator y)) then Some unmerged
   else if ch x "M" && in_MTD y then Some modified
   else if ch x "M" || ch y "M" then Some star_modified
   else if ch x "A" && in_MTD y then Some added
   else if ch x "D" && in_MTD y then Some deleted
   else if ch x "D" || ch y "D" then Some star_deleted
   else None)%char.

Record StatusOutput : Type := {
  so_ref : string;
  so_root : string;
  so_status : BranchStatus;
  so_bare : bool;
  so_entries : list (string * GitStatus)
}.

(** The entry built from one match of [entriesPattern]. *)
Definition entry_of (w : World) (root : string) (e : string * string)
  : (string * GitStatus) * list string :=
  let filepath := snd e in
  if ignores w root filepath then ((filepath, ignored), [])
  else let (st, log) := processStatusCode (Some (fst e)) in
       ((filepath, st), log).

Definition is_unmerged (e : string * GitStatus) : bool :=
  GitStatus_eqb (snd e) unmerged.

(** The aggregate branch status of a list of entries. *)
Definition aggregate (entries : list (string * GitStatus)) : BranchStatus :=
  match entries with
  | [] => clean
  | _ :: _ =>
      match JS.array_find is_unmerged entries with
      | Some _ => bs_unmerged
      | None => uncommitted
      end
  end.

(** worktreeStatus, with the lines written to [console.error]. *)
Definition worktreeStatus (w : World) (dir : string)
  (pathspec : option string) (ignored_flag : bool)
  : option StatusOutput * list string :=
  match getRoot w dir with
  | None => (None, [])
  | Some root =>
      let output := git_status w dir pathspec ignored_flag in
      let results := map (entry_of w root) (run_entries output) in
      let entries := map fst results in
      let log := flat_map snd results in
      let status := aggregate entries in
      let log' :=
        if Nat.ltb 0 (String.length (run_stderr output))
        then log ++ [run_stderr output] else log in
      (Some {| so_ref := if JS.truthy (run_ref output)
                         then JS.with_default "" (run_ref output) else "";
               so_root := dir;
               so_status := status;
               so_bare := negb (JS.truthy (run_ref output));
               so_entries := entries |}, log')
  end.

Definition no_git_error : string :=
  "git-status error: no .git exists within parent directories".

Definition not_tracked_error : string :=
  "git-status error: path not contained in a directory tracked by version control".

(** fileStatus, with the lines written to [console.error]. *)
Definition fileStatus (w : World) (filepath : string)
  : option GitStatus * list string :=
  match getRoot w filepath with
  | None => (None, [no_git_error])
  | Some root =>
      match worktreeStatus w root (Some filepath) false with
      | (None, log) => (None, log ++ [not_tracked_error])
      | (Some branchStatus, log) =>
          if isDirectory w filepath then
            let isIgnored :=
              if isEqualPaths w root filepath then false
              else ignores w root (relative w root filepath) in
            if isIgnored then (Some ignored, log)
            else match so_status branchStatus with
                 | clean => (Some unmodified, log)
                 | uncommitted => (Some modified, log)
                 | bs_unmerged => (Some unmerged, log)
                 end
          else
            match JS.array_find
                    (fun e => isEqualPaths w (fst e) (relative w root filepath))
                    (so_entries branchStatus) with
            | Some e => (Some (snd e), log)
            | None => (Some unmodified, log)
            end
      end
  end.

End GitStatusTs.

(* ------------------------------------------------------------------ *)
(** ** Calls issued to the git client and the file system *)

(** The arguments of a call of [isogit.checkout]. *)
Record CheckoutCall : Type := {
  cc_dir : string;
  cc_gitdir : string;
  cc_ref : string;
  cc_remote : string;
  cc_noCheckout : bool;
  cc_noUpdateHead : bool;
  cc_dryRun : bool;
  cc_force : bool;
  cc_track : option bool;
  cc_filepaths : option (list string)
}.

(** The arguments of a call of [isogit.clone]. *)
Record CloneCall : Type := {
  cn_dir : string;
  cn_url : string;
  cn_singleBranch : bool;
  cn_noCheckout : bool;
  cn_noTags : bool;
  cn_ref : option string;
  cn_depth : option nat;
  cn_exclude : option (list string)
}.

Inductive call : Type :=
| FsCopy (src dest : string) (filter : string -> bool)
| IsogitCheckout (c : CheckoutCall)
| IsogitClone (c : CloneCall)
| IsogitBranch (dir ref : string) (checkout : bool)
| IsogitDeleteBranch (dir ref : string)
| IsogitMerge (c : MergeCall)
| WorktreeAdd (dir linkedRoot ref : string)
| WriteFile (path contents : string).

(** The [Repository] descriptor of the store, as far as clone reads it. *)
Record Repository : Type := {
  repo_root : string;
  repo_url : string;
  repo_local : list string;
  repo_remote : list string
}.

(** [a === b] on values that are a string or [undefined]. *)
Definition option_string_eqb (a b : option string) : bool :=
  match a, b with
  | None, None => true
  | Some x, Some y => String.eqb x y
  | _, _ => false
  end.

(** The filter handed to [fs.copy]:
    [path => !(path.indexOf('node_modules') > -1)]. *)
Definition copy_filter (path : string) : bool :=
  negb (JS.includes "node_modules" path).

(** What merge resolves to: the merge result spread with the optional
    [missingConfigs]. *)
Record MergeOutput : Type := {
  mo_result : MergeResult;
  mo_missingConfigs : option (list string)
}.

(** [config => !config.value || config.value.length <= 0]. *)
Definition config_missing (c : string * option string) : bool :=
  negb (JS.truthy (snd c)) ||
  match snd c with
  | Some v => Nat.leb (String.length v) 0
  | None => false
  end.

(** [value ? value : placeholder]. *)
Definition or_placeholder (value : option string) (placeholder : string) : string :=
  if JS.truthy value then JS.with_default placeholder value else placeholder.

(** The value setConfig receives: [string | boolean | number]. *)
Inductive setvalue : Type :=
| SetStr (s : string)
| SetBool (b : bool)
| SetNum (n : Z).

Definition cfgval_of (v : setvalue) : Config.cfgval :=
  match v with
  | SetStr s => Config.VStr s
  | SetBool b => Config.VBool b
  | SetNum n => Config.VNum n
  end.

(** [readConfigValue] of getConfig; [None] is [null]. *)
Definition readConfigValue (w : World) (configPath : option string)
  (key : string) : option Config.cfgval :=
  match configPath with
  | None => None
  | Some p =>
      if negb (JS.truthy_string p) then None
      else match parse w p with
           | None => None
           | Some configFile =>
               let config := expandKeys w configFile in
               if Config.has config key then Config.get config key else None
           end
  end.

(** [includeOrigin] of getConfig. *)
Definition includeOrigin (showOrigin : bool) (configPath : option string)
  : option string :=
  if showOrigin then configPath else None.

(** The tail shared by both getConfig: the two scopes are read, then the
    local value is preferred. *)
Definition getConfig_from (w : World) (localConfigPath globalConfigPath : option string)
  (keyPath : string) (local global showOrigin : bool) : Config.GitConfig :=
  let localValue :=
    if local then readConfigValue w localConfigPath keyPath else None in
  let globalValue :=
    if global then readConfigValue w globalConfigPath keyPath else None in
  let from_global :=
    match globalValue with
    | Some gv =>
        if Config.truthy_val gv
        then Config.Found Config.global gv (includeOrigin showOrigin globalConfigPath)
        else Config.ScopeNone
    | None => Config.ScopeNone
    end in
  match localValue with
  | Some lv =>
      if Config.truthy_val lv
      then Config.Found Config.local lv (includeOrigin showOrigin localConfigPath)
      else from_global
  | None => from_global
  end.

(** The tail shared by both setConfig, from the resolved [configPath] on. *)
Definition setConfig_at (w : World) (configPath : option string)
  (keyPath : string) (value : option setvalue) : option string * list call :=
  if negb (JS.truthy configPath) then (None, [])
  else match configPath with
       | None => (None, [])
       | Some p =>
           match parse w p with
           | None => (None, [])
           | Some configFile =>
               let updated :=
                 match value with
                 | None => Config.delete configFile keyPath
                 | Some v => Config.set configFile keyPath (cfgval_of v)
                 end in
               let updatedConfig := ini_stringify w updated in
               (Some updatedConfig, [WriteFile p updatedConfig])
           end
       end.

(* ------------------------------------------------------------------ *)
(** ** containers/git-porcelain.ts *)

Module Porcelain.

(** The named parameters of checkout; [None] is a property that the caller
    left out (or passed as [undefined]). *)
Record checkout_args : Type := {
  co_dir : string;
  co_gitdir : option string;
  co_ref : option string;
  co_filepaths : option (list string);
  co_remote : option string;
  co_noCheckout : option bool;
  co_noUpdateHead : option bool;
  co_dryRun : option bool;
  co_force : option bool
}.

(** The binding [ref] after its initialiser [ref = 'HEAD'] has run. *)
Definition bound_ref (ref : option string) : JS.value :=
  JS.Str (JS.with_default "HEAD" ref).

Definition string_of_value (v : JS.value) : string :=
  match v with
  | JS.Str s => s
  | JS.Undefined => "undefined"
  end.

(** checkout: the initialisers of the destructuring pattern run left to right,
    so [noUpdateHead = ref === undefined] reads the binding [ref] that
    [ref = 'HEAD'] has already initialised. *)
Definition checkout (w : World) (a : checkout_args) : CheckoutCall :=
  let dir := co_dir a in
  let gitdir := JS.with_default (path_join w dir ".git") (co_gitdir a) in
  let ref := bound_ref (co_ref a) in
  let remote := JS.with_default "origin" (co_remote a) in
  let noCheckout := JS.with_default false (co_noCheckout a) in
  let noUpdateHead := JS.with_default (JS.is_undefined ref) (co_noUpdateHead a) in
  let dryRun := JS.with_default false (co_dryRun a) in
  let force := JS.with_default false (co_force a) in
  {| cc_dir := dir; cc_gitdir := gitdir; cc_ref := string_of_value ref;
     cc_remote := remote; cc_noCheckout := noCheckout;
     cc_noUpdateHead := noUpdateHead; cc_dryRun := dryRun; cc_force := force;
     cc_track := None; cc_filepaths := co_filepaths a |}.

(** The named parameters of clone (the progress callback is left out). *)
Record clone_args : Type := {
  cl_repo : Repository;
  cl_dir : string;
  cl_ref : option string;
  cl_singleBranch : option bool;
  cl_noCheckout : option bool;
  cl_noTags : option bool;
  cl_depth : option nat;
  cl_exclude : option (list string)
}.

Definition existingBranch (w : World) (a : clone_args) : option string :=
  if isGitRepo w (repo_root (cl_repo a))
  then currentBranchOf w (repo_root (cl_repo a)) else None.

(** [ref ? ref : existingBranch] *)
Definition targetBranch (w : World) (a : clone_args) : option string :=
  if JS.truthy (cl_ref a) then cl_ref a else existingBranch w a.

(** clone, as the calls it awaits in order. *)
Definition clone (w : World) (a : clone_args) : list call :=
  let repo := cl_repo a in
  let singleBranch := JS.with_default false (cl_singleBranch a) in
  let noCheckout := JS.with_default false (cl_noCheckout a) in
  let noTags := JS.with_default false (cl_noTags a) in
  match targetBranch w a with
  | Some target =>
      if JS.truthy_string target && negb (JS.array_includes (repo_remote repo) target)
      then
        FsCopy (repo_root repo) (cl_dir a) copy_filter ::
        (if negb (option_string_eqb (Some target) (existingBranch w a))
         then [IsogitCheckout
                 (checkout w {| co_dir := cl_dir a; co_gitdir := None;
                                co_ref := Some target; co_filepaths := None;
                                co_remote := None; co_noCheckout := Some noCheckout;
                                co_noUpdateHead := None; co_dryRun := None;
                                co_force := None |})]
         else [])
      else
        [IsogitClone {| cn_dir := cl_dir a; cn_url := repo_url repo;
                        cn_singleBranch := singleBranch; cn_noCheckout := noCheckout;
                        cn_noTags := noTags; cn_ref := None;
                        cn_depth := cl_depth a; cn_exclude := cl_exclude a |}]
  | None =>
      [IsogitClone {| cn_dir := cl_dir a; cn_url := repo_url repo;
                      cn_singleBranch := singleBranch; cn_noCheckout := noCheckout;
                      cn_noTags := noTags; cn_ref := None;
                      cn_depth := cl_depth a; cn_exclude := cl_exclude a |}]
  end.

(** The call of [isogit.merge] that merge issues. *)
Definition merge_call (w : World) (dir base compare : string)
  (dryRun : option bool) : MergeCall :=
  let name := isogit_getConfig w dir "user.name" in
  let email := isogit_getConfig w dir "user.email" in
  {| mg_dir := dir; mg_ours := base; mg_theirs := compare;
     mg_dryRun := JS.with_default false dryRun;
     mg_author := {| au_name := or_placeholder name "Mr. Test";
                     au_email := or_placeholder email "mrtest@example.com" |} |}.

(** The [missing] array of merge. *)
Definition merge_missing (w : World) (dir : string) : list string :=
  let name := ("user.name", isogit_getConfig w dir "user.name") in
  let email := ("user.email", isogit_getConfig w dir "user.email") in
  map fst (filter config_missing [name; email]).

(** merge: what it resolves to and the call it issued. *)
Definition merge (w : World) (dir base compare : string)
  (dryRun : option bool) : MergeOutput * list call :=
  let missing := merge_missing w dir in
  let c := merge_call w dir base compare dryRun in
  let mergeResult := isogit_merge w c in
  ({| mo_result := mergeResult;
      mo_missingConfigs :=
        if Nat.ltb 0 (List.length missing) then Some missing else None |},
   [IsogitMerge c]).

(** [row => row[1] !== row[2]] *)
Definition row_changed (row : matrix_row) : bool :=
  negb (Nat.eqb (row_head row) (row_workdir row)).

(** The [changed] file names of a status matrix. *)
Definition changed_of (statuses : option (list matrix_row)) : list string :=
  match statuses with
  | Some rows => map row_filepath (filter row_changed rows)
  | None => []
  end.

Definition getStatus (w : World) (filepath : string) : option GitStatus :=
  if isDirectory w filepath then
    let changed := changed_of (statusMatrix w filepath) in
    if Nat.ltb 0 (List.length changed) then Some modified else Some unmodified
  else matrixEntry w filepath.

(** The named parameters of getConfig. *)
Record getConfig_args : Type := {
  gc_dir : string;
  gc_gitdir : option string;
  gc_keyPath : string;
  gc_local : option bool;
  gc_global : option bool;
  gc_showOrigin : option bool
}.

(** [root] of getConfig and setConfig. *)
Definition config_root (w : World) (dir : string) (gitdir : option string)
  : option string :=
  let gitdir := JS.with_default (path_join w dir ".git") gitdir in
  if isLinkedWorktree w gitdir then resolveLinkToRoot w dir else Some dir.

Definition localConfigPath (w : World) (a : getConfig_args) : option string :=
  let local := JS.with_default true (gc_local a) in
  match config_root w (gc_dir a) (gc_gitdir a) with
  | Some root =>
      if local && JS.truthy_string root
      then Some (path_resolve w [root; ".git/config"]) else None
  | None => None
  end.

Definition globalConfigPath (w : World) (a : getConfig_args) : option string :=
  if JS.with_default true (gc_global a) then getGitConfigPath_global w else None.

Definition getConfig (w : World) (a : getConfig_args) : Config.GitConfig :=
  getConfig_from w (localConfigPath w a) (globalConfigPath w a) (gc_keyPath a)
    (JS.with_default true (gc_local a)) (JS.with_default true (gc_global a))
    (JS.with_default false (gc_showOrigin a)).

(** The named parameters of setConfig. *)
Record setConfig_args : Type := {
  sc_dir : string;
  sc_gitdir : option string;
  sc_scope : Config.Scope;
  sc_keyPath : string;
  sc_value : option setvalue
}.

(** [configPath] of setConfig. *)
Definition configPath (w : World) (a : setConfig_args) : option string :=
  match sc_scope a, config_root w (sc_dir a) (sc_gitdir a) with
  | Config.local, Some root =>
      if JS.truthy_string root
      then Some (path_resolve w [root; ".git/config"])
      else getGitConfigPath_global w
  | _, _ => getGitConfigPath_global w
  end.

Definition setConfig (w : World) (a : setConfig_args) : option string * list call :=
  setConfig_at w (configPath w a) (sc_keyPath a) (sc_value a).

End Porcelain.

(* ------------------------------------------------------------------ *)
(** ** containers/old-git/git-porcelain.ts *)

Module OldGit.

(** The named parameters of checkout (the progress callback is left out). *)
Record checkout_args : Type := {
  co_dir : string;
  co_gitdir : option string;
  co_ref : option string;
  co_overwrite : option bool;
  co_url : option string;
  co_filepaths : option (list string);
  co_remote : option string;
  co_noCheckout : option bool;
  co_noUpdateHead : option bool;
  co_dryRun : option bool;
  co_force : option bool;
  co_track : option bool
}.

(** The call of [isogit.checkout] on the [overwrite] path; the initialisers
    run left to right as in [Porcelain.checkout]. *)
Definition checkout_call (w : World) (a : checkout_args) : CheckoutCall :=
  let dir := co_dir a in
  let gitdir := JS.with_default (path_join w dir ".git") (co_gitdir a) in
  let ref := Porcelain.bound_ref (co_ref a) in
  let remote := JS.with_default "origin" (co_remote a) in
  let noCheckout := JS.with_default false (co_noCheckout a) in
  let noUpdateHead := JS.with_default (JS.is_undefined ref) (co_noUpdateHead a) in
  let dryRun := JS.with_default false (co_dryRun a) in
  let force := JS.with_default false (co_force a) in
  let track := JS.with_default true (co_track a) in
  {| cc_dir := dir; cc_gitdir := gitdir; cc_ref := Porcelain.string_of_value ref;
     cc_remote := remote; cc_noCheckout := noCheckout;
     cc_noUpdateHead := noUpdateHead; cc_dryRun := dryRun; cc_force := force;
     cc_track := Some track; cc_filepaths := co_filepaths a |}.

(** [`${dir}/../.syn/${repo}/${ref}`], normalised. *)
Definition linkedRoot (w : World) (dir ref : string) : string :=
  path_normalize w (dir ++ "/../.syn/" ++ extractFilename w dir ++ "/" ++ ref).

(** checkout, as the calls it issues in order. *)
Definition checkout (w : World) (a : checkout_args) : list call :=
  let dir := co_dir a in
  let ref := JS.with_default "HEAD" (co_ref a) in
  let url := JS.with_default "" (co_url a) in
  if JS.with_default false (co_overwrite a) then
    [IsogitCheckout (checkout_call w a)]
  else
    let add := [WorktreeAdd dir (linkedRoot w dir ref) ref] in
    if JS.array_includes (listLocalBranches w dir) ref then
      let existing :=
        match worktree_list_refs w dir with
        | Some refs => JS.array_includes refs ref
        | None => false
        end in
      if existing then []
      else
        let currentCommit := resolveRef w dir ref in
        match listServerRefs_first_oid w url ("refs/heads/" ++ ref) with
        | Some oid =>
            if negb (String.eqb currentCommit oid) then []
            else IsogitDeleteBranch dir ref :: add
        | None => IsogitDeleteBranch dir ref :: add
        end
    else add.

(** The named parameters of clone (the progress callback is left out). *)
Record clone_args : Type := {
  cl_dir : string;
  cl_url : option string;
  cl_repo : option (string * string);      (* [{ root, url }] *)
  cl_ref : option string;
  cl_singleBranch : option bool;
  cl_noCheckout : option bool;
  cl_noTags : option bool;
  cl_depth : option nat;
  cl_exclude : option (list string)
}.

Definition network_clone (a : clone_args) (url : string) : call :=
  IsogitClone {| cn_dir := cl_dir a; cn_url := url;
                 cn_singleBranch := JS.with_default false (cl_singleBranch a);
                 cn_noCheckout := JS.with_default false (cl_noCheckout a);
                 cn_noTags := JS.with_default false (cl_noTags a);
                 cn_ref := cl_ref a;
                 cn_depth := cl_depth a; cn_exclude := cl_exclude a |}.

Definition existingBranch (w : World) (root : string) : option string :=
  match wp_dir (getWorktreePaths w root) with
  | Some d => if JS.truthy_string d then currentBranchOf w d else None
  | None => None
  end.

Definition remoteBranches (w : World) (root : string) : list string :=
  match wp_dir (getWorktreePaths w root) with
  | Some d => if JS.truthy_string d then listRemoteBranches w d else []
  | None => []
  end.

(** [ref ? ref : existingBranch] *)
Definition targetBranch (w : World) (a : clone_args) (root : string)
  : option string :=
  if JS.truthy (cl_ref a) then cl_ref a else existingBranch w root.

(** clone: the boolean it resolves to, or its rejection when [isogit.branch]
    is rejected, and the calls it awaits in order. *)
Definition clone (w : World) (a : clone_args) : result bool * list call :=
  let noCheckout := JS.with_default false (cl_noCheckout a) in
  if Nat.eqb (String.length (cl_dir a)) 0 then (Ok false, [])
  else match cl_url a with
  | Some url => (Ok true, [network_clone a url])
  | None =>
      match cl_repo a with
      | Some (root, repo_url) =>
          let local_only :=
            match targetBranch w a root with
            | Some target =>
                JS.truthy_string target &&
                negb (JS.array_includes (remoteBranches w root) target)
            | None => false
            end in
          if local_only then
            let target := JS.with_default "" (targetBranch w a root) in
            let copy :=
              [FsCopy root (cl_dir a) copy_filter;
               IsogitBranch (cl_dir a) target false] in
            if isogit_branch w (cl_dir a) target then
              (Ok true,
               copy ++
               (if negb noCheckout
                then checkout w {| co_dir := cl_dir a; co_gitdir := None;
                                   co_ref := Some target; co_overwrite := None;
                                   co_url := None; co_filepaths := None;
                                   co_remote := None; co_noCheckout := None;
                                   co_noUpdateHead := None; co_dryRun := None;
                                   co_force := None; co_track := Some false |}
                else []))
            else (Throws, copy)
          else (Ok true, [network_clone a repo_url])
      | None => (Ok false, [])
      end
  end.

(** merge is the same function as in containers/git-porcelain.ts. *)
Definition merge := Porcelain.merge.

(** [row => row.status !== 'unmodified'] *)
Definition shim_changed (row : string * GitStatus) : bool :=
  negb (GitStatus_eqb (snd row) unmodified).

Definition getStatus (w : World) (filepath : string) : option GitStatus :=
  if isDirectory w filepath then
    match getRoot w filepath with
    | None => None
    | Some root =>
        if negb (JS.truthy_string root) then None
        else if JS.truthy (wp_worktreeDir (getWorktreePaths w filepath)) then
          let changed :=
            match shimStatusMatrix w filepath with
            | Some rows => filter shim_changed rows
            | None => []
            end in
          if Nat.ltb 0 (List.length changed) then Some modified else Some unmodified
        else
          let changed := Porcelain.changed_of (statusMatrix w filepath) in
          if Nat.ltb 0 (List.length changed) then Some modified else Some unmodified
    end
  else matrixEntry w filepath.

(** The directory of the local config file: [worktree.gitdir] of the paths
    resolved from the [gitdir] parameter. *)
Definition worktree_gitdir (w : World) (dir : string) (gitdir : option string)
  : option string :=
  wp_gitdir (getWorktreePaths w (JS.with_default (path_join w dir ".git") gitdir)).

Definition localConfigPath (w : World) (a : Porcelain.getConfig_args)
  : option string :=
  let local := JS.with_default true (Porcelain.gc_local a) in
  match worktree_gitdir w (Porcelain.gc_dir a) (Porcelain.gc_gitdir a) with
  | Some g =>
      if local && JS.truthy_string g
      then Some (path_resolve w [path_join w g "config"]) else None
  | None => None
  end.

Definition getConfig (w : World) (a : Porcelain.getConfig_args) : Config.GitConfig :=
  getConfig_from w (localConfigPath w a) (Porcelain.globalConfigPath w a)
    (Porcelain.gc_keyPath a)
    (JS.with_default true (Porcelain.gc_local a))
    (JS.with_default true (Porcelain.gc_global a))
    (JS.with_default false (Porcelain.gc_showOrigin a)).

(** [configPath] of setConfig. *)
Definition configPath (w : World) (a : Porcelain.setConfig_args) : option string :=
  match Porcelain.sc_scope a,
        worktree_gitdir w (Porcelain.sc_dir a) (Porcelain.sc_gitdir a) with
  | Config.local, Some g =>
      if JS.truthy_string g
      then Some (path_resolve w [path_join w g "config"])
      else getGitConfigPath_global w
  | _, _ => getGitConfigPath_global w
  end.

Definition setConfig (w : World) (a : Porcelain.setConfig_args)
  : option string * list call :=
  setConfig_at w (configPath w a) (Porcelain.sc_keyPath a) (Porcelain.sc_value a).

End OldGit.

(* ------------------------------------------------------------------ *)
(** ** Linked worktrees: git-worktree remove and its test suite *)

Module Worktree.

(** A mock-fs tree: a file with its content or a directory of named items. *)
#[warnings="-register-all"]
Inductive node : Type :=
| File (content : string)
| Dir (items : list (string * node)).

Definition path : Type := list string.

(** The segments of a path string; empty segments (a trailing or a doubled
    separator) are dropped. *)
Definition segments (p : string) : path :=
  filter (fun seg => negb (String.eqb seg "")) (Config.split_on "/" p).

Fixpoint item (k : string) (items : list (string * node)) : option node :=
  match items with
  | [] => None
  | (k', n) :: rest => if String.eqb k k' then Some n else item k rest
  end.

(** The node at path [p], if there is one. *)
Fixpoint lookup (p : path) (n : node) : option node :=
  match p with
  | [] => Some n
  | k :: rest =>
      match n with
      | Dir items =>
          match item k items with
          | Some c => lookup rest c
          | None => None
          end
      | File _ => None
      end
  end.

(** [extractStats(p)]: defined exactly when something exists at [p]. *)
Definition extractStats (p : string) (fs : node) : option node :=
  lookup (segments p) fs.

Definition drop_item (k : string) (items : list (string * node))
  : list (string * node) :=
  filter (fun kn => negb (String.eqb k (fst kn))) items.

(** [fs.remove(p)]: the item at [p] goes with everything below it; nothing
    happens when there is nothing at [p]. *)
Fixpoint fs_remove (p : path) (n : node) : node :=
  match p with
  | [] => n
  | k :: rest =>
      match n with
      | File _ => n
      | Dir items =>
          match rest with
          | [] => Dir (drop_item k items)
          | _ :: _ =>
              Dir (map (fun kn =>
                          if String.eqb k (fst kn)
                          then (fst kn, fs_remove rest (snd kn)) else kn)
                     items)
          end
      end
  end.

(** The [Worktree] record of git-worktree, as the tests build it. *)
Record Worktree : Type := {
  wt_id : string;
  wt_path : string;
  wt_bare : bool;
  wt_detached : bool;
  wt_main : bool;
  wt_ref : string;
  wt_rev : string
}.

(** How an awaited operation ends. *)
Inductive outcome : Type :=
| Resolved (fs : node)
| Rejected.

(** What remove consults: the status check ([getStatus], which the tests
    replace by a fixed answer) and the path resolver. *)
Record Resolver : Type := {
  rs_getStatus : string -> option GitStatus;
  rs_getWorktreePaths : string -> WorktreePaths
}.

(** A worktree is dirty when its status check answers [modified]. *)
Definition dirty (r : Resolver) (wt : Worktree) : bool :=
  match rs_getStatus r (wt_path wt) with
  | Some st => GitStatus_eqb st modified
  | None => false
  end.

(** [<gitdir>/refs/heads/<ref>] *)
Definition branch_ref (gitdir ref : string) : path :=
  segments gitdir ++ ["refs"; "heads"] ++ segments ref.

(** Modelled from the spec: the deletions of remove once it proceeds, in the
    order of section 4.2: the working directory, the administrative
    directory [<gitdir>/worktrees/<name>], and the branch ref
    [refs/heads/<ref>], whose deletion is unconditional once this path is
    taken. *)
Definition delete_worktree (r : Resolver) (wt : Worktree) (fs : node) : outcome :=
  let paths := rs_getWorktreePaths r (wt_path wt) in
  match wp_gitdir paths, wp_worktreeLink paths with
  | Some gitdir, Some link =>
      let fs1 := fs_remove (segments (wt_path wt)) fs in
      let fs2 := fs_remove (segments link) fs1 in
      Resolved (fs_remove (branch_ref gitdir (wt_ref wt)) fs2)
  | _, _ => Rejected
  end.

(** Modelled from the spec: git-worktree.ts, which defines remove, is not
    among the sources; this is section 4.2 word for word. The main worktree is
    never removed; a dirty worktree is left alone unless [force] is set; a
    clean one, or a dirty one with [force], loses its working directory, its
    administrative directory and its branch ref. *)
Definition remove (r : Resolver) (wt : Worktree) (force : bool)
  (fs : node) : outcome :=
  if wt_main wt then Resolved fs
  else if dirty r wt && negb force then Resolved fs
  else delete_worktree r wt fs.

(** *** The fixture and the cases of [describe('git-worktree.remove')] *)

Definition sha : string := "f204b02baf1322ee079fe9768e9593509d683412".

Definition nl : string := String "010"%char EmptyString.
Definition tab : string := String "009"%char EmptyString.

Definition config_text : string :=
  "[core]" ++ nl ++
  tab ++ "repositoryformatversion = 0" ++ nl ++
  tab ++ "filemode = true" ++ nl ++
  tab ++ "bare = false" ++ nl ++
  tab ++ "logallrefupdates = true" ++ nl ++
  tab ++ "ignorecase = true" ++ nl ++
  tab ++ "precomposeunicode = true".

Definition exclude_text : string :=
  "# git ls-files --others --exclude-from=.git/info/exclude" ++ nl ++
  "# Lines that start with '#' are comments." ++ nl ++
  "# For a project mostly in C, the following would be a good set of" ++ nl ++
  "# exclude patterns (uncomment them if you want to use them):" ++ nl ++
  "# *.[oa]" ++ nl ++
  "# *~" ++ nl ++
  ".DS_Store".

(** The tree that [beforeEach] mocks; [cwd] is [process.cwd()]. *)
Definition fixture (cwd : string) : node :=
  Dir [
    ("baseRepo", Dir [
      (".git", Dir [
        ("HEAD", File ("ref: refs/heads/master" ++ nl));
        ("branches", Dir []);
        ("config", File config_text);
        ("description",
          File "Unnamed repository; edit this file 'description' to name the repository.");
        ("hooks", Dir []);
        ("info", Dir [("exclude", File exclude_text)]);
        ("objects", Dir [("info", Dir []); ("pack", Dir [])]);
        ("refs", Dir [
          ("heads", Dir [("master", File (sha ++ nl)); ("foo", File (sha ++ nl))]);
          ("tags", Dir [])]);
        ("worktrees", Dir [
          ("foo", Dir [
            ("HEAD", File ("ref: refs/heads/foo" ++ nl));
            ("ORIG_HEAD", File (sha ++ nl));
            ("commondir", File ("../.." ++ nl));
            ("gitdir", File (cwd ++ "/foo/.git"))])])])]);
    ("foo", Dir [
      (".git", File ("gitdir: baseRepo/.git/worktrees/foo" ++ nl));
      ("bar", File "file contents")])
  ].

(** [linkedWorktree] of the removal cases. *)
Definition linkedWorktree : Worktree :=
  {| wt_id := "19"; wt_path := "foo/"; wt_bare := false; wt_detached := false;
     wt_main := false; wt_ref := "foo"; wt_rev := sha |}.

(** The paths of the fixture's linked worktree: [foo/.git] names
    [baseRepo/.git/worktrees/foo], whose [commondir] leads to [baseRepo/.git]. *)
Definition fixture_paths (p : string) : WorktreePaths :=
  {| wp_dir := Some "baseRepo";
     wp_gitdir := Some "baseRepo/.git";
     wp_worktrees := Some "baseRepo/.git/worktrees";
     wp_worktreeDir := Some "foo";
     wp_worktreeGitdir := Some "foo/.git";
     wp_worktreeLink := Some "baseRepo/.git/worktrees/foo" |}.

(** [jest.spyOn(git, 'getStatus').mockResolvedValue(st)] *)
Definition mocked (st : GitStatus) : Resolver :=
  {| rs_getStatus := fun _ => Some st;
     rs_getWorktreePaths := fixture_paths |}.

(** One removal case: the mocked status, the [force] argument and, for each
    path that the case inspects, whether [extractStats] is to be defined. *)
Record removal_case : Type := {
  rc_status : GitStatus;
  rc_force : bool;
  rc_expect : list (string * bool)
}.

Definition case_clean_no_force : removal_case :=
  {| rc_status := unmodified; rc_force := false;
     rc_expect := [("foo/", false);
                   ("baseRepo/.git/worktrees/foo", false);
                   ("baseRepo/.git/refs/heads/foo", true)] |}.

Definition case_dirty_no_force : removal_case :=
  {| rc_status := modified; rc_force := false;
     rc_expect := [("foo/", true);
                   ("baseRepo/.git/worktrees/foo", true);
                   ("baseRepo/.git/refs/heads/foo", true)] |}.

Definition case_clean_force : removal_case :=
  {| rc_status := unmodified; rc_force := true;
     rc_expect := [("foo/", false);
                   ("baseRepo/.git/worktrees/foo", false);
                   ("baseRepo/.git/refs/heads/foo", false)] |}.

Definition case_dirty_force : removal_case :=
  {| rc_status := modified; rc_force := true;
     rc_expect := [("foo/", false);
                   ("baseRepo/.git/worktrees/foo", false);
                   ("baseRepo/.git/refs/heads/foo", false)] |}.

Definition case_main_kept : removal_case :=
  {| rc_status := unmodified; rc_force := false;
     rc_expect := [("baseRepo/", true)] |}.

Definition removal_cases : list removal_case :=
  [case_clean_no_force; case_dirty_no_force; case_clean_force;
   case_dirty_force; case_main_kept].

Definition is_defined (o : option node) : bool :=
  match o with
  | Some _ => true
  | None => false
  end.

(** Does an implementation of remove pass a case on the fixture? *)
Definition passes (impl : Resolver -> Worktree -> bool -> node -> outcome)
  (cwd : string) (c : removal_case) : bool :=
  match impl (mocked (rc_status c)) linkedWorktree (rc_force c) (fixture cwd) with
  | Resolved fs' =>
      forallb (fun e => Bool.eqb (is_defined (extractStats (fst e) fs')) (snd e))
        (rc_expect c)
  | Rejected => false
  end.

End Worktree.

(* ------------------------------------------------------------------ *)
(** ** Decision procedures used by the proofs *)

(** What [code_table] asks of processStatusCode on [XY]. *)
Definition code_processStatusCode (x y : ascii) : GitStatus * list string :=
  match GitStatusTs.code_table x y with
  | Some st => (st, [])
  | None => (unmodified, [GitStatusTs.unable_to_convert (GitStatusTs.code x y)])
  end.

(** [p] is [q] or an ancestor of [q]. *)
Fixpoint is_prefix (p q : list string) : bool :=
  match p, q with
  | [], _ => true
  | a :: p', b :: q' => String.eqb a b && is_prefix p' q'
  | _ :: _, [] => false
  end.

(** The filter of getStatus as the specification words it: an entry whose
    HEAD status differs from its stage status. *)
Definition spec_row_changed (row : matrix_row) : bool :=
  negb (Nat.eqb (row_head row) (row_stage row)).

(** A config value counts as missing when it is [undefined] or empty. *)
Definition missing (v : option string) : Prop := v = None \/ v = Some "".

(* ------------------------------------------------------------------ *)
(** ** Concrete worlds *)

Module Samples.

Definition no_paths : WorktreePaths :=
  {| wp_dir := None; wp_gitdir := None; wp_worktrees := None;
     wp_worktreeDir := None; wp_worktreeGitdir := None; wp_worktreeLink := None |}.

Definition no_merge : MergeResult :=
  {| mr_oid := None; mr_alreadyMerged := None; mr_fastForward := None;
     mr_mergeCommit := None; mr_tree := None |}.

Definition quiet_run : StatusRun :=
  {| run_ref := None; run_entries := []; run_stderr := "" |}.

(** Renders the flat sections of a config object, one [key = value] a line. *)
Definition render_value (v : Config.cfgval) : string :=
  match v with
  | Config.VStr s => s
  | Config.VBool true => "true"
  | Config.VBool false => "false"
  | Config.VNum _ => "0"
  | Config.VNull => "null"
  | Config.VObj _ => ""
  end.

Definition render_section (kv : string * Config.cfgval) : string :=
  match snd kv with
  | Config.VObj fields =>
      ("[" ++ fst kv ++ "]" ++ Worktree.nl ++
       String.concat ""
         (map (fun f => (fst f ++ " = " ++ render_value (snd f) ++ Worktree.nl)%string)
            fields))%string
  | v => (fst kv ++ " = " ++ render_value v ++ Worktree.nl)%string
  end.

Definition render (c : Config.cfg) : string :=
  String.concat "" (map render_section c).

(** [s] without its first [String.length p] characters. *)
Fixpoint drop_prefix (p s : string) : string :=
  match p, s with
  | String _ p', String _ s' => drop_prefix p' s'
  | _, _ => s
  end.

Definition main_paths : WorktreePaths :=
  {| wp_dir := Some "repo"; wp_gitdir := Some "repo/.git";
     wp_worktrees := None; wp_worktreeDir := None;
     wp_worktreeGitdir := None; wp_worktreeLink := None |}.

(** A linked worktree whose administrative files are gone. *)
Definition stale_paths : WorktreePaths :=
  {| wp_dir := None; wp_gitdir := None; wp_worktrees := None;
     wp_worktreeDir := Some "wt"; wp_worktreeGitdir := Some "wt/.git";
     wp_worktreeLink := None |}.

Definition local_config : Config.cfg :=
  [("core", Config.VObj [("repositoryformatversion", Config.VStr "0");
                         ("bare", Config.VBool false)]);
   ("user", Config.VObj [("name", Config.VStr "")])].

Definition global_config : Config.cfg :=
  [("core", Config.VObj [("bare", Config.VBool true)]);
   ("user", Config.VObj [("name", Config.VStr "Alice");
                         ("email", Config.VStr "alice@example.org")])].

Definition status_of (pathspec : option string) : StatusRun :=
  match pathspec with
  | Some p =>
      if String.eqb p "repo" || String.eqb p "repo/a.txt" then
        {| run_ref := Some "feature"; run_entries := [(" M", "a.txt")];
           run_stderr := "" |}
      else if String.eqb p "repo/merge" then
        {| run_ref := Some "feature";
           run_entries := [("UU", "b.txt"); (" M", "c.txt")];
           run_stderr := "" |}
      else {| run_ref := Some "feature"; run_entries := []; run_stderr := "" |}
  | None => quiet_run
  end.

(** A developer's machine: the repository [repo] on branch [feature], with
    [a.txt] edited and not staged, a directory [repo/build] that is ignored,
    a directory [repo/merge] with a conflict, a plain directory [plain], and
    a stale linked worktree [wt]; [user.name] is empty in the local config
    file and set in the global one. *)
Definition dev_machine : World :=
  {| isDirectory := fun p =>
       JS.array_includes ["repo"; "repo/src"; "repo/build"; "repo/merge"; "plain"; "wt"] p;
     isEqualPaths := String.eqb;
     relative := fun root p => drop_prefix (root ++ "/") p;
     path_join := fun a b => (a ++ "/" ++ b)%string;
     path_resolve := fun l => ("/" ++ String.concat "/" l)%string;
     path_normalize := fun p => p;
     extractFilename := fun p => p;
     getRoot := fun p => if JS.starts_with "repo" p then Some "repo" else None;
     getWorktreePaths := fun p =>
       if JS.starts_with "repo" p then main_paths
       else if JS.starts_with "wt" p then stale_paths else no_paths;
     isLinkedWorktree := fun g => String.eqb g "wt/.git";
     resolveLinkToRoot := fun _ => None;
     isGitRepo := fun p => JS.starts_with "repo" p;
     worktree_list_refs := fun p =>
       if JS.starts_with "repo" p then Some ["feature"] else None;
     ignores := fun _ p => String.eqb p "build";
     git_status := fun _ pathspec _ => status_of pathspec;
     currentBranchOf := fun p =>
       if JS.starts_with "repo" p then Some "feature" else None;
     listLocalBranches := fun _ => ["main"; "feature"; "hotfix"];
     listRemoteBranches := fun _ => ["main"];
     resolveRef := fun _ _ => Worktree.sha;
     listServerRefs_first_oid := fun _ _ => None;
     isogit_branch := fun _ ref =>
       negb (JS.array_includes ["main"; "feature"; "hotfix"] ref);
     isogit_getConfig := fun _ key =>
       if String.eqb key "user.email" then Some "dev@example.org" else None;
     isogit_merge := fun _ => no_merge;
     statusMatrix := fun p =>
       if String.eqb p "repo"
       then Some [Row "a.txt" 1 2 1; Row "c.txt" 1 1 1] else None;
     shimStatusMatrix := fun _ => None;
     matrixEntry := fun p =>
       if String.eqb p "repo/a.txt" then Some star_modified else None;
     getGitConfigPath_global := Some "/home/dev/.gitconfig";
     parse := fun p =>
       if String.eqb p "/repo/.git/config" then Some local_config
       else if String.eqb p "/home/dev/.gitconfig" then Some global_config
       else None;
     expandKeys := fun c => c;
     ini_stringify := render |}.

(** The store's descriptor of [repo]. *)
Definition dev_repo : Repository :=
  {| repo_root := "repo"; repo_url := "https://example.org/dev/repo.git";
     repo_local := ["main"; "feature"; "hotfix"]; repo_remote := ["main"] |}.

(** Cloning the local-only branch [hotfix] of [repo] into [copy]. *)
Definition clone_hotfix : Porcelain.clone_args :=
  {| Porcelain.cl_repo := dev_repo; Porcelain.cl_dir := "copy";
     Porcelain.cl_ref := Some "hotfix"; Porcelain.cl_singleBranch := None;
     Porcelain.cl_noCheckout := None; Porcelain.cl_noTags := None;
     Porcelain.cl_depth := None; Porcelain.cl_exclude := None |}.

(** The same through the deprecated clone. *)
Definition old_clone_hotfix : OldGit.clone_args :=
  {| OldGit.cl_dir := "copy"; OldGit.cl_url := None;
     OldGit.cl_repo := Some ("repo", "https://example.org/dev/repo.git");
     OldGit.cl_ref := Some "hotfix"; OldGit.cl_singleBranch := None;
     OldGit.cl_noCheckout := None; OldGit.cl_noTags := None;
     OldGit.cl_depth := None; OldGit.cl_exclude := None |}.

(** The same again, into the empty path. *)
Definition old_clone_hotfix_nowhere : OldGit.clone_args :=
  {| OldGit.cl_dir := ""; OldGit.cl_url := None;
     OldGit.cl_repo := Some ("repo", "https://example.org/dev/repo.git");
     OldGit.cl_ref := Some "hotfix"; OldGit.cl_singleBranch := None;
     OldGit.cl_noCheckout := None; OldGit.cl_noTags := None;
     OldGit.cl_depth := None; OldGit.cl_exclude := None |}.

(** A clone of a remote URL into the empty path. *)
Definition old_clone_empty_dir : OldGit.clone_args :=
  {| OldGit.cl_dir := ""; OldGit.cl_url := Some "https://example.org/dev/repo.git";
     OldGit.cl_repo := None;
     OldGit.cl_ref := None; OldGit.cl_singleBranch := None;
     OldGit.cl_noCheckout := None; OldGit.cl_noTags := None;
     OldGit.cl_depth := None; OldGit.cl_exclude := None |}.

End Samples.

(* ------------------------------------------------------------------ *)
(** ** More string primitives *)

Module JSText.

(** [s.slice(n)] where the first [n] characters of [s] are ASCII, one byte
    each, or [s] has no more than [n] bytes. *)
Fixpoint slice_from (n : nat) (s : string) : string :=
  match n, s with
  | O, _ => s
  | S n', String _ rest => slice_from n' rest
  | S _, EmptyString => EmptyString
  end.

(** From here on a string holds the UTF-8 encoding of the text: a character
    outside ASCII takes two to four bytes, of which the first continues no
    character and the others do. *)

(** The bytes that continue a character of several bytes. *)
Definition continuation (c : ascii) : bool :=
  Nat.leb 128 (nat_of_ascii c) && Nat.ltb (nat_of_ascii c) 192.

(** The white space and line terminators of one byte: U+0009 to U+000D and
    the space. *)
Definition white1 (c : ascii) : bool :=
  Regex.mem c ["009"; "010"; "011"; "012"; "013"; " "]%char.

(** Of two bytes: U+00A0, the no-break space. *)
Definition white2 (c1 c2 : ascii) : bool :=
  Ascii.eqb c1 "194" && Ascii.eqb c2 "160".

(** Of three bytes: U+1680; U+2000 to U+200A, U+2028, U+2029 and U+202F;
    U+205F; U+3000; U+FEFF. *)
Definition white3 (c1 c2 c3 : ascii) : bool :=
  (Ascii.eqb c1 "225" && Ascii.eqb c2 "154" && Ascii.eqb c3 "128")
  || (Ascii.eqb c1 "226" && Ascii.eqb c2 "128" &&
      Regex.mem c3 ["128"; "129"; "130"; "131"; "132"; "133"; "134"; "135";
                    "136"; "137"; "138"; "168"; "169"; "175"]%char)
  || (Ascii.eqb c1 "226" && Ascii.eqb c2 "129" && Ascii.eqb c3 "159")
  || (Ascii.eqb c1 "227" && Ascii.eqb c2 "128" && Ascii.eqb c3 "128")
  || (Ascii.eqb c1 "239" && Ascii.eqb c2 "187" && Ascii.eqb c3 "191").

(** [s.trimStart()] on the UTF-8 encoding of [s]. *)
Fixpoint trim_start (s : string) : string :=
  match s with
  | EmptyString => EmptyString
  | String c1 r1 =>
      if white1 c1 then trim_start r1
      else
        match r1 with
        | EmptyString => s
        | String c2 r2 =>
            if white2 c1 c2 then trim_start r2
            else
              match r2 with
              | EmptyString => s
              | String c3 r3 => if white3 c1 c2 c3 then trim_start r3 else s
              end
        end
  end.

(** Is [s] white space throughout? *)
Definition blank (s : string) : bool :=
  match trim_start s with
  | EmptyString => true
  | String _ _ => false
  end.

(** [s.trimEnd()]: the longest tail that is white space throughout goes. *)
Fixpoint trim_end (s : string) : string :=
  match s with
  | EmptyString => EmptyString
  | String c rest => if blank s then EmptyString else String c (trim_end rest)
  end.

(** [s.trim()] *)
Definition trim (s : string) : string := trim_end (trim_start s).

(** The value of a decimal digit. *)
Definition digit_value (c : ascii) : option nat :=
  let n := nat_of_ascii c in
  if Nat.leb 48 n && Nat.leb n 57 then Some (n - 48) else None.

(** The number a string of decimal digits denotes, [acc] being the value of
    the digits read so far. *)
Fixpoint digits_value (acc : nat) (s : string) : option nat :=
  match s with
  | EmptyString => Some acc
  | String c rest =>
      match digit_value c with
      | Some d => digits_value (10 * acc + d) rest
      | None => None
      end
  end.

(** [ref.match(/^HEAD~([0-9]+)$/)] with the group read as a number
    ([+match[1]]): [None] when the pattern does not match. *)
Definition head_tilde_count (ref : string) : option nat :=
  if JS.starts_with "HEAD~" ref then
    match slice_from 5 ref with
    | EmptyString => None
    | digits => digits_value 0 digits
    end
  else None.

End JSText.

(* ------------------------------------------------------------------ *)
(** ** Further collaborators *)

(** The arguments of a call of [isogit.currentBranch]. *)
Record BranchQuery : Type := {
  bq_dir : string;
  bq_gitdir : string;
  bq_fullname : option bool;
  bq_test : option bool
}.

(** What the remaining operations read: files, the history, the status
    translation of git-plumbing, and the repository records of the store. *)
Record Host : Type := {
  readFile : string -> option string;        (* [None]: the read is rejected *)
  isogit_findRoot : string -> option string; (* [None]: findRoot throws *)
  isogit_currentBranch : BranchQuery -> option string;
  isogit_log : string -> nat -> list string; (* the [oid]s of [log({ dir, depth })] *)
  isogit_resolveRef : string -> string -> string;
  matrixToStatus : matrix_row -> option GitStatus;
  isHiddenFile : string -> bool;
  fetchRepo : string -> option (string * string);
    (* [fetchRepo(metafile)] of store/thunks/repos for the metafile of a
       path: the [id] and [root] of the repository, if one is resolved *)
  getRepository : string -> option (string * string)
    (* [getRepository({ filepath })] of containers/repos, likewise *)
}.

(* ------------------------------------------------------------------ *)
(** ** containers/git-porcelain.ts, the remaining operations *)

Module PorcelainMore.

(** [commits.pop()?.oid] *)
Definition pop (commits : list string) : option string :=
  match commits with
  | [] => None
  | c :: rest => Some (List.last rest c)
  end.

Definition resolveRef (h : Host) (dir ref : string) : option string :=
  match JSText.head_tilde_count ref with
  | Some count => pop (isogit_log h dir (count + 1))
  | None => Some (isogit_resolveRef h dir ref)
  end.

Definition getRepoRoot (h : Host) (filepath : string) : option string :=
  isogit_findRoot h filepath.

(** The named parameters of currentBranch. *)
Record currentBranch_args : Type := {
  cb_dir : string;
  cb_gitdir : option string;
  cb_fullname : option bool;
  cb_test : option bool
}.

(** [content.slice('gitdir: '.length).trim()] *)
Definition worktreedir_of (content : string) : string :=
  JSText.trim (JSText.slice_from (String.length "gitdir: ") content).

(** The query that currentBranch sends to isomorphic-git. *)
Definition currentBranch_query (w : World) (h : Host) (a : currentBranch_args)
  : result BranchQuery :=
  let gitdir := JS.with_default (path_join w (cb_dir a) ".git") (cb_gitdir a) in
  if isLinkedWorktree w gitdir then
    match readFile h gitdir with
    | Some content =>
        let worktreedir := worktreedir_of content in
        Ok {| bq_dir := worktreedir; bq_gitdir := worktreedir;
              bq_fullname := cb_fullname a; bq_test := cb_test a |}
    | None => Throws
    end
  else Ok {| bq_dir := cb_dir a; bq_gitdir := gitdir;
             bq_fullname := cb_fullname a; bq_test := cb_test a |}.

Definition currentBranch (w : World) (h : Host) (a : currentBranch_args)
  : result (option string) :=
  match currentBranch_query w h a with
  | Ok q => Ok (isogit_currentBranch h q)
  | Throws => Throws
  end.

End PorcelainMore.

(* ------------------------------------------------------------------ *)
(** ** containers/old-git/git-porcelain.ts, the remaining operations *)

Module OldGitMore.

(** The query that currentBranch sends to isomorphic-git. *)
Definition currentBranch_query (w : World) (a : PorcelainMore.currentBranch_args)
  : BranchQuery :=
  let dir := PorcelainMore.cb_dir a in
  let gitdir := JS.with_default (path_join w dir ".git") (PorcelainMore.cb_gitdir a) in
  match wp_worktreeLink (getWorktreePaths w gitdir) with
  | Some link =>
      if JS.truthy_string link
      then {| bq_dir := link; bq_gitdir := link;
              bq_fullname := PorcelainMore.cb_fullname a;
              bq_test := PorcelainMore.cb_test a |}
      else {| bq_dir := dir; bq_gitdir := gitdir;
              bq_fullname := PorcelainMore.cb_fullname a;
              bq_test := PorcelainMore.cb_test a |}
  | None => {| bq_dir := dir; bq_gitdir := gitdir;
               bq_fullname := PorcelainMore.cb_fullname a;
               bq_test := PorcelainMore.cb_test a |}
  end.

Definition currentBranch (w : World) (h : Host) (a : PorcelainMore.currentBranch_args)
  : option string :=
  isogit_currentBranch h (currentBranch_query w a).

(** [content.slice('ref: refs/remotes/origin/'.length).trim()] *)
Definition default_of (content : string) : string :=
  JSText.trim (JSText.slice_from (String.length "ref: refs/remotes/origin/") content).

Definition defaultBranch (w : World) (h : Host) (dir : string)
  (gitdir : option string) : result string :=
  let gitdir := JS.with_default (path_join w dir ".git") gitdir in
  let head :=
    path_join w (path_join w (path_join w (path_join w gitdir "refs") "remotes")
                   "origin") "HEAD" in
  match readFile h head with
  | Some content => Ok (default_of content)
  | None => Throws
  end.

(** [xs.filter(isDefined)] *)
Definition defined {A : Type} (xs : list (option A)) : list A :=
  flat_map (fun x => match x with Some a => [a] | None => [] end) xs.

(** [statusFilters.includes(status)] *)
Definition status_in (statusFilters : list GitStatus) (status : GitStatus) : bool :=
  existsb (GitStatus_eqb status) statusFilters.

Definition hasStatus (w : World) (h : Host) (filepath : string)
  (statusFilters : list GitStatus) : bool :=
  let found :=
    match statusMatrix w filepath with
    | Some rows =>
        filter (status_in statusFilters) (defined (map (matrixToStatus h) rows))
    | None => []
    end in
  if Nat.ltb 0 (List.length found) then true else false.

End OldGitMore.

(* ------------------------------------------------------------------ *)
(** ** Callers: containers/metafiles.ts and store/thunks/handlers.ts *)

Module Callers.

(** filterDirectoryContainsTypes on the [contains] of a metafile: the
    [directories] and the [files]. *)
Definition filterDirectoryContainsTypes (w : World) (h : Host)
  (contains : list string) (includeHidden : option bool)
  : list string * list string :=
  let directories := filter (isDirectory w) contains in
  let files :=
    filter (fun childPath => negb (JS.array_includes directories childPath))
      contains in
  let files' :=
    if Bool.eqb (JS.with_default true includeHidden) false
    then filter (fun childPath => negb (isHiddenFile h childPath)) files
    else files in
  (directories, files').

(** The git fields of a metafile. *)
Record GitInfo : Type := {
  gi_repo : option string;
  gi_branch : option string;
  gi_status : option GitStatus
}.

Definition no_info : GitInfo :=
  {| gi_repo := None; gi_branch := None; gi_status := None |}.

(** fetchVersionControl of store/thunks/handlers.ts on the path of a
    metafile: the object it resolves to, undefined properties removed. *)
Definition fetchVersionControl (w : World) (h : Host) (path : string) : GitInfo :=
  let root := PorcelainMore.getRepoRoot h path in
  let repo := if JS.truthy root then fetchRepo h path else None in
  match repo with
  | Some (id, repo_root) =>
      let dir := if JS.truthy root then JS.with_default repo_root root else repo_root in
      let current := currentBranchOf w dir in
      {| gi_repo := Some id;
         gi_branch := if negb (JS.truthy current) then Some "HEAD" else None;
         gi_status := Porcelain.getStatus w path |}
  | None => no_info
  end.

(** What updateGitInfo of containers/metafiles.ts does for a metafile with a
    path: [Some info] when it dispatches [metafileUpdated] with these git
    fields, [None] when it dispatches nothing. [known] is the repository the
    metafile already names, if the store has it. *)
Definition updateGitInfo (w : World) (h : Host) (path : string)
  (known : option (string * string)) : option GitInfo :=
  let repo :=
    match known with
    | Some r => Some r
    | None => getRepository h path
    end in
  match PorcelainMore.getRepoRoot h path with
  | None => None
  | Some root =>
      if negb (JS.truthy_string root) then None
      else
        let branch :=
          match repo with
          | Some _ => currentBranchOf w root
          | None => None
          end in
        let gitInfo :=
          {| gi_repo := option_map fst repo;
             gi_branch := Some (if JS.truthy branch
                                then JS.with_default "HEAD" branch else "HEAD");
             gi_status := Porcelain.getStatus w path |} in
        match gi_repo gitInfo, gi_status gitInfo with
        | Some id, Some _ =>
            if JS.truthy_string id then Some gitInfo else None
        | _, _ => None
        end
  end.

End Callers.

(* ------------------------------------------------------------------ *)
(** ** Patterns with groups, as worktreeStatus uses them *)

Module Pattern.

(** The patterns of worktreeStatus are built from these: literals, [.],
    classes and their greedy repetition [+], [?], sequences, capture groups,
    [^] under the [m] flag and the look-behind [(?<=p)]. *)
Inductive pattern : Type :=
| Lit (c : ascii)
| Dot
| Cls (f : ascii -> bool)
| Many1 (f : ascii -> bool)
| Opt (p : pattern)
| Cat (p q : pattern)
| Group (n : nat) (p : pattern)
| Bol
| Behind (p : pattern).

(** A position in the text: what lies before it, nearest character first,
    what lies after it, and the groups captured so far. *)
Record pos : Type := {
  before : list ascii;
  after : list ascii;
  groups : list (nat * list ascii)
}.

(** One character to the right, or to the left when matching backwards. *)
Definition step (fwd : bool) (ok : ascii -> bool) (st : pos) : list pos :=
  if fwd then
    match after st with
    | c :: r =>
        if ok c then [{| before := c :: before st; after := r; groups := groups st |}]
        else []
    | [] => []
    end
  else
    match before st with
    | c :: b =>
        if ok c then [{| before := b; after := c :: after st; groups := groups st |}]
        else []
    | [] => []
    end.

(** One or more characters of a class to the right of [a], the longest run
    first; [b] receives them. *)
Fixpoint runs (ok : ascii -> bool) (b a : list ascii)
  : list (list ascii * list ascii) :=
  match a with
  | c :: r => if ok c then runs ok (c :: b) r ++ [(c :: b, r)] else []
  | [] => []
  end.

(** The text between two positions. *)
Definition between (st st' : pos) : list ascii :=
  if Nat.leb (List.length (after st')) (List.length (after st))
  then firstn (List.length (after st) - List.length (after st')) (after st)
  else firstn (List.length (after st') - List.length (after st)) (after st').

Definition line_start (st : pos) : bool :=
  match before st with
  | [] => true
  | c :: _ => Regex.line_terminator c
  end.

(** All the ways [p] can match at a position, in the order a backtracking
    matcher tries them: the positions where the match ends. A look-behind
    matches its pattern backwards from the position. *)
Fixpoint ways (fwd : bool) (p : pattern) (st : pos) : list pos :=
  match p with
  | Lit c => step fwd (Ascii.eqb c) st
  | Dot => step fwd (fun x => negb (Regex.line_terminator x)) st
  | Cls f => step fwd f st
  | Many1 f =>
      if fwd then
        map (fun ba => {| before := fst ba; after := snd ba; groups := groups st |})
          (runs f (before st) (after st))
      else
        map (fun ab => {| before := snd ab; after := fst ab; groups := groups st |})
          (runs f (after st) (before st))
  | Opt q => ways fwd q st ++ [st]
  | Cat q r =>
      if fwd then flat_map (ways fwd r) (ways fwd q st)
      else flat_map (ways fwd q) (ways fwd r st)
  | Group n q =>
      map (fun st' => {| before := before st'; after := after st';
                         groups := (n, between st st') :: groups st' |})
        (ways fwd q st)
  | Bol => if line_start st then [st] else []
  | Behind q =>
      match ways false q st with
      | [] => []
      | _ :: _ => [st]
      end
  end.

(** A match: its text and its groups. *)
Definition found : Type := list ascii * list (nat * list ascii).

(** The matches of a pattern with the [g] flag, from left to right: each
    search resumes where the last match ended, one character further when
    that match was empty. [skip] counts the characters still covered by the
    last match. *)
Fixpoint scan (p : pattern) (skip : nat) (b a : list ascii) : list found :=
  let here :=
    match skip with
    | O => hd_error (ways true p {| before := b; after := a; groups := [] |})
    | S _ => None
    end in
  match here with
  | Some st' =>
      let text := firstn (List.length a - List.length (after st')) a in
      (text, groups st') ::
      match a with
      | c :: r => scan p (List.length text - 1) (c :: b) r
      | [] => []
      end
  | None =>
      match a with
      | c :: r => scan p (skip - 1) (c :: b) r
      | [] => []
      end
  end.

(** [text.matchAll(p)] *)
Definition matchAll (p : pattern) (text : string) : list found :=
  scan p 0 [] (list_ascii_of_string text).

(** [text.match(p)] for a pattern with the [g] flag: the matched texts, the
    empty list standing for [null]. *)
Definition match_g (p : pattern) (text : string) : list string :=
  map (fun m => string_of_list_ascii (fst m)) (matchAll p text).

(** [m[n]] of a match. *)
Fixpoint group (n : nat) (gs : list (nat * list ascii)) : string :=
  match gs with
  | [] => EmptyString
  | (k, t) :: rest => if Nat.eqb k n then string_of_list_ascii t else group n rest
  end.

End Pattern.

(** [[\w/]] and [[\w.]] *)
Definition word_slash (c : ascii) : bool := JS.is_word c || Ascii.eqb c "/".
Definition word_dot (c : ascii) : bool := JS.is_word c || Ascii.eqb c ".".

(** [new RegExp('^## ([\\w/]+)...([\\w/]+)', 'gm')] *)
Definition branchesPattern : Pattern.pattern :=
  Pattern.Cat Pattern.Bol
    (Pattern.Cat (Pattern.Lit "#")
       (Pattern.Cat (Pattern.Lit "#")
          (Pattern.Cat (Pattern.Lit " ")
             (Pattern.Cat (Pattern.Group 1 (Pattern.Many1 word_slash))
                (Pattern.Cat Pattern.Dot
                   (Pattern.Cat Pattern.Dot
                      (Pattern.Cat Pattern.Dot
                         (Pattern.Group 2 (Pattern.Many1 word_slash))))))))).

(** [new RegExp('(?<=\\r?\\n)(.{2}) ([\\w.]+)', 'gm')] *)
Definition entriesPattern : Pattern.pattern :=
  Pattern.Cat
    (Pattern.Behind
       (Pattern.Cat (Pattern.Opt (Pattern.Lit "013")) (Pattern.Lit "010")))
    (Pattern.Cat (Pattern.Group 1 (Pattern.Cat Pattern.Dot Pattern.Dot))
       (Pattern.Cat (Pattern.Lit " ")
          (Pattern.Group 2 (Pattern.Many1 word_dot)))).

(** What the two patterns of worktreeStatus find in the output of
    [git status]: [output.stdout.match(branchesPattern)?.[1]], which with the
    [g] flag is the text of the second match, and [e[1]], [e[2]] of every
    match of [entriesPattern]. *)
Definition status_run (stdout stderr : string) : StatusRun :=
  {| run_ref := nth_error (Pattern.match_g branchesPattern stdout) 1;
     run_entries :=
       map (fun m => (Pattern.group 1 (snd m), Pattern.group 2 (snd m)))
         (Pattern.matchAll entriesPattern stdout);
     run_stderr := stderr |}.

(** The longest beginning of [l] within a class. *)
Fixpoint take_while (ok : ascii -> bool) (l : list ascii) : list ascii :=
  match l with
  | c :: r => if ok c then c :: take_while ok r else []
  | [] => []
  end.

(** What [entriesPattern] takes from the beginning of a line: the first two
    characters and, after the space that follows them, the longest run of
    [[\w.]], when the line has that shape. *)
Definition line_match (line : list ascii) : option (list ascii * list ascii) :=
  match line with
  | c1 :: c2 :: sp :: rest =>
      if negb (Regex.line_terminator c1) && negb (Regex.line_terminator c2)
         && Ascii.eqb " " sp
      then match take_while word_dot rest with
           | [] => None
           | c :: path => Some ([c1; c2], c :: path)
           end
      else None
  | _ => None
  end.

(** The same on a line of the output, as [(e[1], e[2])]. *)
Definition line_entry (line : string) : option (string * string) :=
  option_map
    (fun cp => (string_of_list_ascii (fst cp), string_of_list_ascii (snd cp)))
    (line_match (list_ascii_of_string line)).

(** No line gives a path of dots alone: the [ignore] package, whose
    [ignores] the entries are passed to, refuses to test such a path. *)
Definition testable (lines : list string) : bool :=
  forallb (fun l => match line_entry l with
                    | Some cp => existsb JS.is_word (list_ascii_of_string (snd cp))
                    | None => true
                    end) lines.

Definition no_line_feed (s : string) : bool :=
  forallb (fun c => negb (Ascii.eqb "010" c)) (list_ascii_of_string s).

(** Is there a [#] right after a line terminator? *)
Fixpoint hash_after_break (l : list ascii) : bool :=
  match l with
  | c :: r =>
      (Regex.line_terminator c &&
       match r with
       | d :: _ => Ascii.eqb "#" d
       | [] => false
       end) || hash_after_break r
  | [] => false
  end.

(** Text within ASCII, where a character is one byte and one code unit; git
    prints such text unless [core.quotePath] is turned off. *)
Definition ascii_only (s : string) : bool :=
  forallb (fun c => Nat.ltb (nat_of_ascii c) 128) (list_ascii_of_string s).

(* ------------------------------------------------------------------ *)
(** ** More concrete worlds *)

Module Samples2.

(** The paths of [linked], a worktree linked to [repo] for the branch
    [feature]. *)
Definition linked_paths : WorktreePaths :=
  {| wp_dir := Some "repo"; wp_gitdir := Some "repo/.git";
     wp_worktrees := Some "repo/.git/worktrees";
     wp_worktreeDir := Some "linked"; wp_worktreeGitdir := Some "linked/.git";
     wp_worktreeLink := Some "repo/.git/worktrees/feature" |}.

(** The developer's machine again, now with the directory [linked], a
    worktree linked to [repo] in which [a.txt] is edited, and with the main
    worktree on [main]. *)
Definition linked_machine : World :=
  {| isDirectory := fun p =>
       JS.array_includes ["repo"; "repo/src"; "repo/.hidden"; "linked"; "plain"] p;
     isEqualPaths := String.eqb;
     relative := fun root p => Samples.drop_prefix (root ++ "/") p;
     path_join := fun a b => (a ++ "/" ++ b)%string;
     path_resolve := fun l => ("/" ++ String.concat "/" l)%string;
     path_normalize := fun p => p;
     extractFilename := fun p => p;
     getRoot := fun p =>
       if JS.starts_with "repo" p then Some "repo"
       else if JS.starts_with "linked" p then Some "linked" else None;
     getWorktreePaths := fun p =>
       if JS.starts_with "repo" p then Samples.main_paths
       else if JS.starts_with "linked" p then linked_paths else Samples.no_paths;
     isLinkedWorktree := fun g => String.eqb g "linked/.git";
     resolveLinkToRoot := fun _ => Some "repo";
     isGitRepo := fun p => JS.starts_with "repo" p;
     worktree_list_refs := fun _ => Some ["main"; "feature"];
     ignores := fun _ p => String.eqb p "build";
     git_status := fun _ pathspec _ => Samples.status_of pathspec;
     currentBranchOf := fun p =>
       if JS.starts_with "repo" p then Some "main"
       else if JS.starts_with "linked" p then Some "feature" else None;
     listLocalBranches := fun _ => ["main"; "feature"; "hotfix"; "stale"];
     listRemoteBranches := fun _ => ["main"];
     resolveRef := fun _ ref => if String.eqb ref "stale" then "c1" else "c3";
     listServerRefs_first_oid := fun _ prefix =>
       if String.eqb prefix "refs/heads/stale" then Some "c2"
       else if String.eqb prefix "refs/heads/main" then Some "c3" else None;
     isogit_branch := fun _ ref =>
       negb (JS.array_includes ["main"; "feature"; "hotfix"; "stale"] ref);
     isogit_getConfig := fun _ _ => None;
     isogit_merge := fun _ => Samples.no_merge;
     statusMatrix := fun p =>
       if String.eqb p "repo"
       then Some [Row "a.txt" 1 2 1; Row "c.txt" 1 1 1; Row "n.txt" 0 2 0] else None;
     shimStatusMatrix := fun p =>
       if String.eqb p "linked"
       then Some [("a.txt", modified); ("c.txt", unmodified)] else None;
     matrixEntry := fun p =>
       if String.eqb p "repo/a.txt" then Some star_modified else None;
     getGitConfigPath_global := Some "/home/dev/.gitconfig";
     parse := fun p =>
       if String.eqb p "/repo/.git/config" then Some Samples.local_config
       else if String.eqb p "/home/dev/.gitconfig" then Some Samples.global_config
       else None;
     expandKeys := fun c => c;
     ini_stringify := Samples.render |}.

(** The status of a matrix row as git-plumbing names it, for the rows of the
    sample. *)
Definition sample_matrixToStatus (row : matrix_row) : option GitStatus :=
  match row_head row, row_workdir row, row_stage row with
  | 1, 1, 1 => Some unmodified
  | 1, 2, 1 => Some star_modified
  | 1, 2, 2 => Some modified
  | 0, 2, 0 => Some star_added
  | 0, 2, 2 => Some added
  | _, _, _ => None
  end.

(** The files and the history of that machine: three commits, [c3] the
    newest. *)
Definition dev_host : Host :=
  {| readFile := fun p =>
       if String.eqb p "linked/.git"
       then Some ("gitdir: repo/.git/worktrees/feature" ++ Worktree.nl)%string
       else if String.eqb p "repo/.git/refs/remotes/origin/HEAD"
       then Some ("ref: refs/remotes/origin/main" ++ Worktree.nl)%string
       else None;
     isogit_findRoot := fun p =>
       if JS.starts_with "repo" p then Some "repo"
       else if JS.starts_with "linked" p then Some "linked" else None;
     isogit_currentBranch := fun q =>
       if String.eqb (bq_gitdir q) "repo/.git/worktrees/feature" then Some "feature"
       else if String.eqb (bq_gitdir q) "repo/.git" then Some "main" else None;
     isogit_log := fun _ depth => firstn depth ["c3"; "c2"; "c1"];
     isogit_resolveRef := fun _ _ => "c3";
     matrixToStatus := sample_matrixToStatus;
     isHiddenFile := fun p => JS.includes "/." p;
     fetchRepo := fun p =>
       if JS.starts_with "repo" p then Some ("r1", "repo")
       else if JS.starts_with "linked" p then Some ("r1", "repo") else None;
     getRepository := fun p =>
       if JS.starts_with "repo" p then Some ("r1", "repo")
       else if JS.starts_with "linked" p then Some ("r1", "repo") else None |}.

(** A machine that differs from [w] in what [git status] prints. *)
Definition printing (w : World) (stdout : string) : World :=
  {| isDirectory := isDirectory w; isEqualPaths := isEqualPaths w;
     relative := relative w; path_join := path_join w;
     path_resolve := path_resolve w; path_normalize := path_normalize w;
     extractFilename := extractFilename w; getRoot := getRoot w;
     getWorktreePaths := getWorktreePaths w;
     isLinkedWorktree := isLinkedWorktree w;
     resolveLinkToRoot := resolveLinkToRoot w; isGitRepo := isGitRepo w;
     worktree_list_refs := worktree_list_refs w; ignores := ignores w;
     git_status := fun _ _ _ => status_run stdout "";
     currentBranchOf := currentBranchOf w;
     listLocalBranches := listLocalBranches w;
     listRemoteBranches := listRemoteBranches w; resolveRef := resolveRef w;
     listServerRefs_first_oid := listServerRefs_first_oid w;
     isogit_branch := isogit_branch w;
     isogit_getConfig := isogit_getConfig w; isogit_merge := isogit_merge w;
     statusMatrix := statusMatrix w; shimStatusMatrix := shimStatusMatrix w;
     matrixEntry := matrixEntry w;
     getGitConfigPath_global := getGitConfigPath_global w;
     parse := parse w; expandKeys := expandKeys w;
     ini_stringify := ini_stringify w |}.

(** The lines after the first of an output of
    [git status --porcelain --branch]: an edited file in a directory, an
    untracked file whose name begins with a hyphen, a conflict, an untracked
    file, an ignored directory, and what follows the last line feed. *)
Definition printed_lines : list string :=
  [" M src/a.txt"; "?? -x"; "UU merge.txt"; "?? notes.md"; "!! build/"; ""].

Definition printed : string :=
  String.concat Worktree.nl ("## feature...origin/feature" :: printed_lines).

(** Checking out [stale], a local branch at [c1] that the server has at
    [c2], into a linked worktree. *)
Definition checkout_stale : OldGit.checkout_args :=
  {| OldGit.co_dir := "repo"; OldGit.co_gitdir := None;
     OldGit.co_ref := Some "stale"; OldGit.co_overwrite := None;
     OldGit.co_url := Some "https://example.org/dev/repo.git";
     OldGit.co_filepaths := None; OldGit.co_remote := None;
     OldGit.co_noCheckout := None; OldGit.co_noUpdateHead := None;
     OldGit.co_dryRun := None; OldGit.co_force := None;
     OldGit.co_track := None |}.

End Samples2.

(* ================================================================== *)
(** * Properties *)

Lemma GitStatus_eqb_eq (a b : GitStatus) : GitStatus_eqb a b = true <-> a = b.
Proof. destruct a, b; simpl; split; intro H; congruence. Qed.

Lemma GitStatus_eqb_refl (a : GitStatus) : GitStatus_eqb a a = true.
Proof. now apply GitStatus_eqb_eq. Qed.

(* ------------------------------------------------------------------ *)
(** ** processStatusCode *)

Section StatusCodes.
Import Regex GitStatusTs.

(** Case analysis on a character: one of the ten characters that the
    patterns of processStatusCode mention, or none of them. *)
Ltac split_char x :=
  destruct (Ascii.eqb_spec x "D") as [-> | ?];
  [| destruct (Ascii.eqb_spec x "A") as [-> | ?];
  [| destruct (Ascii.eqb_spec x "U") as [-> | ?];
  [| destruct (Ascii.eqb_spec x "M") as [-> | ?];
  [| destruct (Ascii.eqb_spec x "T") as [-> | ?];
  [| destruct (Ascii.eqb_spec x " ") as [-> | ?];
  [| destruct (Ascii.eqb_spec x "!") as [-> | ?];
  [| destruct (Ascii.eqb_spec x "?") as [-> | ?];
  [| destruct (Ascii.eqb_spec x "010") as [-> | ?];
  [| destruct (Ascii.eqb_spec x "013") as [-> | ?]]]]]]]]]].

Ltac neq_false :=
  repeat match goal with
         | H : _ <> _ |- _ => apply Ascii.eqb_neq in H; cbv in H
         end.

Ltac crunch :=
  repeat (progress (cbv; repeat match goal with
                                | H : _ = false |- _ => rewrite H
                                end)).

(** On every two-character code processStatusCode computes [code_table]:
    [M] anywhere gives [*modified] unless the code is [M] followed by one of
    space, [M], [T], [D]; [A] and [D] count in the first slot when one of those
    four follows, [D] otherwise gives [*deleted], and [*added] has no row. *)
Lemma processStatusCode_two_chars (x y : ascii) :
  processStatusCode (Some (code x y)) = code_processStatusCode x y.
Proof. split_char x; split_char y; neq_false; crunch; reflexivity. Qed.

Lemma mem_MTD_not_A (x : ascii) :
  mem x MTD_class = true -> Ascii.eqb x "A" = false.
Proof.
  unfold mem, MTD_class. simpl. intros H.
  repeat (apply orb_true_iff in H as [H | H];
          [apply Ascii.eqb_eq in H; subst; reflexivity |]).
  discriminate.
Qed.

(** [/(?=[ MTD])A/] matches nowhere: the position it looks ahead at is the
    position it then wants an [A] at. *)
Lemma re_MTD_ahead_A_never (s : list ascii) :
  test_from (re_MTD_ahead "A") s = false.
Proof.
  induction s as [| x t IH]; [reflexivity |].
  cbn [test_from]. rewrite IH, orb_false_r.
  unfold matches_here, re_MTD_ahead. cbn [match_at].
  destruct (mem x MTD_class) eqn:Hm; [| reflexivity].
  cbn. rewrite (mem_MTD_not_A _ Hm). reflexivity.
Qed.

(** No status code at all is mapped to [*added]. *)
Lemma processStatusCode_never_star_added (statusCode : option string) :
  fst (processStatusCode statusCode) <> star_added.
Proof.
  destruct statusCode as [c |]; [| discriminate].
  unfold processStatusCode, test. rewrite re_MTD_ahead_A_never.
  repeat match goal with
         | |- context [if ?b then _ else _] => destruct b
         end; discriminate.
Qed.

(** On the codes that git prints for the common cases the function and the
    table of the specification agree. *)
Lemma processStatusCode_agrees_on_common_codes :
  forallb (fun xy => GitStatus_eqb
                       (fst (processStatusCode (Some (code (fst xy) (snd xy)))))
                       (fst (spec_processStatusCode (fst xy) (snd xy))))
    [("!", "!"); ("?", "?"); ("D", "D"); ("A", "A"); ("U", "U"); ("A", "U");
     ("U", "D"); ("U", "A"); ("D", "U"); ("M", " "); ("M", "M"); ("M", "T");
     ("M", "D"); (" ", "M"); ("T", "M"); (" ", "D"); ("T", "D"); ("A", " ");
     ("A", "D"); ("A", "T"); ("D", " "); ("R", " "); (" ", "T")]%char = true.
Proof. reflexivity. Qed.

(** C2. The code the spec's table sends to [*added] -- a space followed by
    [A], what [git add -N] reports -- is mapped by processStatusCode to
    [unmodified] with the diagnostic; the code [AM], which the table sends to
    [added], is mapped to [*modified]. *)
Theorem processStatusCode_departs_from_table :
  processStatusCode (Some " A")
    = (unmodified, ["Unable to convert ' A' status code"]) /\
  spec_processStatusCode " " "A" = (star_added, []) /\
  processStatusCode (Some "AM") = (star_modified, []) /\
  spec_processStatusCode "A" "M" = (added, []).
Proof. repeat split. Qed.

End StatusCodes.

(* ------------------------------------------------------------------ *)
(** ** checkout *)

Section Checkout.

(** Whatever the caller passes as [ref], the binding is a string by the time
    [noUpdateHead] is initialised. *)
Lemma bound_ref_defined (ref : option string) :
  JS.is_undefined (Porcelain.bound_ref ref) = false.
Proof. reflexivity. Qed.

Lemma checkout_noUpdateHead_default (w : World) (a : Porcelain.checkout_args) :
  Porcelain.co_noUpdateHead a = None ->
  cc_noUpdateHead (Porcelain.checkout w a) = false.
Proof. intros H. unfold Porcelain.checkout. cbn. rewrite H. reflexivity. Qed.

Lemma old_checkout_noUpdateHead_default (w : World) (a : OldGit.checkout_args) :
  OldGit.co_noUpdateHead a = None ->
  cc_noUpdateHead (OldGit.checkout_call w a) = false.
Proof. intros H. unfold OldGit.checkout_call. cbn. rewrite H. reflexivity. Qed.

(** C4. A checkout that names neither [ref] nor [noUpdateHead] hands
    isomorphic-git [ref: 'HEAD'] and [noUpdateHead: false], in both variants:
    the default [ref === undefined] is evaluated after [ref] has received its
    own default, so it is never true. *)
Theorem checkout_without_ref_moves_head (w : World) (dir : string) :
  let c := Porcelain.checkout w
             {| Porcelain.co_dir := dir; Porcelain.co_gitdir := None;
                Porcelain.co_ref := None; Porcelain.co_filepaths := None;
                Porcelain.co_remote := None; Porcelain.co_noCheckout := None;
                Porcelain.co_noUpdateHead := None; Porcelain.co_dryRun := None;
                Porcelain.co_force := None |} in
  let c' := OldGit.checkout_call w
              {| OldGit.co_dir := dir; OldGit.co_gitdir := None;
                 OldGit.co_ref := None; OldGit.co_overwrite := Some true;
                 OldGit.co_url := None; OldGit.co_filepaths := None;
                 OldGit.co_remote := None; OldGit.co_noCheckout := None;
                 OldGit.co_noUpdateHead := None; OldGit.co_dryRun := None;
                 OldGit.co_force := None; OldGit.co_track := None |} in
  cc_ref c = "HEAD" /\ cc_noUpdateHead c = false /\
  cc_ref c' = "HEAD" /\ cc_noUpdateHead c' = false.
Proof. cbn. repeat split. Qed.

End Checkout.
(* ------------------------------------------------------------------ *)
(** ** getStatus *)

Section GetStatus.

Lemma changed_nonempty (rows : list matrix_row) :
  Nat.ltb 0 (List.length (Porcelain.changed_of (Some rows))) = true <->
  exists r, In r rows /\ row_head r <> row_workdir r.
Proof.
  unfold Porcelain.changed_of. rewrite length_map. split.
  - intros H. apply Nat.ltb_lt in H.
    destruct (filter Porcelain.row_changed rows) as [| r rest] eqn:E;
      [simpl in H; lia |].
    assert (Hin : In r (filter Porcelain.row_changed rows))
      by (rewrite E; left; reflexivity).
    apply filter_In in Hin as [Hin Hc]. exists r. split; [exact Hin |].
    unfold Porcelain.row_changed in Hc. apply negb_true_iff in Hc.
    now apply Nat.eqb_neq in Hc.
  - intros [r [Hin Hne]]. apply Nat.ltb_lt.
    assert (Hf : In r (filter Porcelain.row_changed rows)).
    { apply filter_In. split; [exact Hin |].
      unfold Porcelain.row_changed. apply negb_true_iff. now apply Nat.eqb_neq. }
    destruct (filter Porcelain.row_changed rows); [contradiction | simpl; lia].
Qed.

Lemma getStatus_directory (w : World) (filepath : string) (rows : list matrix_row) :
  isDirectory w filepath = true ->
  statusMatrix w filepath = Some rows ->
  Porcelain.getStatus w filepath =
    Some (if Nat.ltb 0 (List.length (Porcelain.changed_of (Some rows)))
          then modified else unmodified).
Proof.
  intros Hd Hm. unfold Porcelain.getStatus. rewrite Hd, Hm.
  now destruct (Nat.ltb _ _).
Qed.

Lemma old_getStatus_directory (w : World) (filepath root : string)
  (rows : list matrix_row) :
  isDirectory w filepath = true ->
  getRoot w filepath = Some root -> root <> "" ->
  JS.truthy (wp_worktreeDir (getWorktreePaths w filepath)) = false ->
  statusMatrix w filepath = Some rows ->
  OldGit.getStatus w filepath =
    Some (if Nat.ltb 0 (List.length (Porcelain.changed_of (Some rows)))
          then modified else unmodified).
Proof.
  intros Hd Hr Hne Hl Hm. unfold OldGit.getStatus. rewrite Hd, Hr, Hl, Hm.
  assert (Ht : JS.truthy_string root = true).
  { unfold JS.truthy_string. apply negb_true_iff. now apply String.eqb_neq. }
  rewrite Ht. cbn [negb]. now destruct (Nat.ltb _ _).
Qed.

(** C5, as the code has it. For a directory whose status matrix is [rows],
    getStatus is [modified] exactly when some row has a HEAD status different
    from its working-directory status, and [unmodified] otherwise (in the
    old-git variant: for a directory with a repository root outside a linked
    worktree); a path that is not a directory gets what matrixEntry answers;
    in the old-git variant a directory without a repository root gets
    [undefined]. *)
Theorem getStatus_head_against_workdir
  (w : World) (filepath root : string) (rows : list matrix_row) :
  isDirectory w filepath = true ->
  statusMatrix w filepath = Some rows ->
  getRoot w filepath = Some root -> root <> "" ->
  JS.truthy (wp_worktreeDir (getWorktreePaths w filepath)) = false ->
  (Porcelain.getStatus w filepath = OldGit.getStatus w filepath) /\
  (Porcelain.getStatus w filepath = Some modified <->
   exists r, In r rows /\ row_head r <> row_workdir r) /\
  (Porcelain.getStatus w filepath = Some unmodified <->
   forall r, In r rows -> row_head r = row_workdir r).
Proof.
  intros Hd Hm Hr Hne Hl.
  rewrite (old_getStatus_directory _ _ _ _ Hd Hr Hne Hl Hm).
  rewrite (getStatus_directory _ _ _ Hd Hm).
  pose proof (changed_nonempty rows) as Hc.
  destruct (Nat.ltb 0 (List.length (Porcelain.changed_of (Some rows)))).
  - split; [reflexivity |]. split.
    + split; [intros _; now apply Hc | reflexivity].
    + split; [discriminate |]. intros Hall.
      destruct (proj1 Hc eq_refl) as [r [Hin Hne']]. now elim Hne'; apply Hall.
  - split; [reflexivity |]. split.
    + split; [discriminate |]. intros Hex. apply Hc in Hex. discriminate.
    + split; [| reflexivity]. intros _ r Hin.
      destruct (Nat.eq_dec (row_head r) (row_workdir r)) as [E | N]; [exact E |].
      assert (false = true) by (apply Hc; now exists r). discriminate.
Qed.

Lemma getStatus_head_against_workdir_witness :
  (Porcelain.getStatus Samples.dev_machine "repo"
     = OldGit.getStatus Samples.dev_machine "repo") /\
  (Porcelain.getStatus Samples.dev_machine "repo" = Some modified <->
   exists r, In r [Row "a.txt" 1 2 1; Row "c.txt" 1 1 1] /\
             row_head r <> row_workdir r) /\
  (Porcelain.getStatus Samples.dev_machine "repo" = Some unmodified <->
   forall r, In r [Row "a.txt" 1 2 1; Row "c.txt" 1 1 1] ->
             row_head r = row_workdir r).
Proof.
  apply (getStatus_head_against_workdir Samples.dev_machine "repo" "repo");
    [reflexivity | reflexivity | reflexivity | discriminate | reflexivity].
Defined.

(** A path that is not a directory gets the answer of matrixEntry, in both
    variants. *)
Lemma getStatus_file (w : World) (filepath : string) :
  isDirectory w filepath = false ->
  Porcelain.getStatus w filepath = matrixEntry w filepath /\
  OldGit.getStatus w filepath = matrixEntry w filepath.
Proof.
  intros Hd. unfold Porcelain.getStatus, OldGit.getStatus. now rewrite Hd.
Qed.

(** The old-git variant answers [undefined] for a directory outside any
    repository. *)
Lemma old_getStatus_no_root (w : World) (filepath : string) :
  isDirectory w filepath = true -> getRoot w filepath = None ->
  OldGit.getStatus w filepath = None.
Proof. intros Hd Hr. unfold OldGit.getStatus. now rewrite Hd, Hr. Qed.

(** The other variant answers [unmodified] there: a status matrix that is
    [undefined] is read as one without changes. *)
Lemma getStatus_plain_directory :
  isDirectory Samples.dev_machine "plain" = true /\
  getRoot Samples.dev_machine "plain" = None /\
  statusMatrix Samples.dev_machine "plain" = None /\
  Porcelain.getStatus Samples.dev_machine "plain" = Some unmodified.
Proof. repeat split. Qed.

(** C5 fails as stated: in [repo] the file [a.txt] is edited and not staged,
    so no entry has a HEAD status different from its stage status, and
    getStatus answers [modified]. *)
Lemma getStatus_ignores_stage_column :
  isDirectory Samples.dev_machine "repo" = true /\
  getRoot Samples.dev_machine "repo" = Some "repo" /\
  statusMatrix Samples.dev_machine "repo"
    = Some [Row "a.txt" 1 2 1; Row "c.txt" 1 1 1] /\
  existsb spec_row_changed [Row "a.txt" 1 2 1; Row "c.txt" 1 1 1] = false /\
  Porcelain.getStatus Samples.dev_machine "repo" = Some modified /\
  OldGit.getStatus Samples.dev_machine "repo" = Some modified.
Proof. repeat split. Qed.

End GetStatus.

(* ------------------------------------------------------------------ *)
(** ** merge *)

Section Merge.

Lemma truthy_missing (v : option string) : JS.truthy v = false <-> missing v.
Proof.
  unfold missing. destruct v as [s |]; simpl.
  - unfold JS.truthy_string. rewrite negb_false_iff, String.eqb_eq.
    split; [intros ->; now right | intros [H | H]; congruence].
  - split; [now left | reflexivity].
Qed.

Lemma config_missing_iff (k : string) (v : option string) :
  config_missing (k, v) = true <-> missing v.
Proof.
  rewrite <- truthy_missing. unfold config_missing. simpl.
  destruct v as [s |]; simpl; [| intuition congruence].
  unfold JS.truthy_string. destruct s; simpl; intuition congruence.
Qed.

Lemma or_placeholder_missing (v : option string) (p : string) :
  missing v -> or_placeholder v p = p.
Proof. intros H. apply truthy_missing in H. unfold or_placeholder. now rewrite H. Qed.

Lemma or_placeholder_present (v : option string) (p : string) :
  ~ missing v -> exists s, v = Some s /\ or_placeholder v p = s.
Proof.
  intros H. unfold or_placeholder.
  destruct (JS.truthy v) eqn:E.
  - destruct v as [s |]; [| discriminate]. now exists s.
  - apply truthy_missing in E. contradiction.
Qed.

Lemma merge_missing_in (w : World) (dir k : string) :
  In k (Porcelain.merge_missing w dir) <->
  (k = "user.name" /\ missing (isogit_getConfig w dir "user.name")) \/
  (k = "user.email" /\ missing (isogit_getConfig w dir "user.email")).
Proof.
  unfold Porcelain.merge_missing. rewrite in_map_iff. split.
  - intros [[k' v] [Hk Hin]]. simpl in Hk. subst k'.
    apply filter_In in Hin as [Hin Hm]. apply config_missing_iff in Hm.
    destruct Hin as [E | [E | []]]; inversion E; subst; tauto.
  - intros [[-> Hm] | [-> Hm]].
    + exists ("user.name", isogit_getConfig w dir "user.name"). split; [reflexivity |].
      apply filter_In. split; [now left | now apply config_missing_iff].
    + exists ("user.email", isogit_getConfig w dir "user.email"). split; [reflexivity |].
      apply filter_In. split; [right; now left | now apply config_missing_iff].
Qed.

(** C10, as the code has it. merge always issues exactly one call of the
    underlying merge, with the caller's [dryRun] ([false] when left out); in
    that call each of [user.name] and [user.email] that is unset or empty is
    replaced by its own placeholder, and a key that is configured keeps its
    value; [missingConfigs] is left out exactly when no key is missing and
    otherwise lists exactly the missing keys. *)
Theorem merge_placeholder_per_key
  (w : World) (dir base compare : string) (dryRun : option bool) :
  let name := isogit_getConfig w dir "user.name" in
  let email := isogit_getConfig w dir "user.email" in
  let out := Porcelain.merge w dir base compare dryRun in
  exists c,
    snd out = [IsogitMerge c] /\
    mo_result (fst out) = isogit_merge w c /\
    mg_ours c = base /\ mg_theirs c = compare /\
    mg_dryRun c = JS.with_default false dryRun /\
    (missing name -> au_name (mg_author c) = "Mr. Test") /\
    (~ missing name -> name = Some (au_name (mg_author c))) /\
    (missing email -> au_email (mg_author c) = "mrtest@example.com") /\
    (~ missing email -> email = Some (au_email (mg_author c))) /\
    (mo_missingConfigs (fst out) = None <-> ~ missing name /\ ~ missing email) /\
    (forall l, mo_missingConfigs (fst out) = Some l ->
       forall k, In k l <-> (k = "user.name" /\ missing name) \/
                            (k = "user.email" /\ missing email)).
Proof.
  intros name email out. subst name email out.
  exists (Porcelain.merge_call w dir base compare dryRun).
  repeat match goal with |- _ /\ _ => split end; try reflexivity.
  - intros H. cbn [Porcelain.merge_call mg_author au_name].
    now apply or_placeholder_missing.
  - intros H. cbn [Porcelain.merge_call mg_author au_name].
    destruct (or_placeholder_present _ "Mr. Test" H) as [s [E1 E2]].
    now rewrite E2.
  - intros H. cbn [Porcelain.merge_call mg_author au_email].
    now apply or_placeholder_missing.
  - intros H. cbn [Porcelain.merge_call mg_author au_email].
    destruct (or_placeholder_present _ "mrtest@example.com" H) as [s [E1 E2]].
    now rewrite E2.
  - cbn [fst Porcelain.merge mo_missingConfigs].
    pose proof (merge_missing_in w dir) as Hin.
    destruct (Porcelain.merge_missing w dir) as [| k l]; cbn.
    + split; [intros _ | reflexivity]. split; intros Hm.
      * apply (Hin "user.name"). left. split; [reflexivity | exact Hm].
      * apply (Hin "user.email"). right. split; [reflexivity | exact Hm].
    + split; [discriminate |]. intros [Hn He].
      destruct (proj1 (Hin k) (or_introl eq_refl)) as [[_ H] | [_ H]]; contradiction.
  - intros l Hl k. cbn [fst Porcelain.merge mo_missingConfigs] in Hl.
    destruct (Nat.ltb 0 _); [| discriminate]. inversion Hl; subst.
    apply merge_missing_in.
Qed.

Lemma merge_placeholder_per_key_witness :
  exists c,
    snd (Porcelain.merge Samples.dev_machine "repo" "main" "feature" None)
      = [IsogitMerge c] /\
    au_name (mg_author c) = "Mr. Test" /\
    au_email (mg_author c) = "dev@example.org" /\
    mg_dryRun c = false.
Proof.
  destruct (merge_placeholder_per_key Samples.dev_machine "repo" "main" "feature" None)
    as [c [Hc [_ [_ [_ [Hd [Hn [_ [_ [He _]]]]]]]]]].
  exists c. split; [exact Hc |]. split.
  - apply Hn. now left.
  - split; [| exact Hd].
    assert (Hs : Some "dev@example.org" = Some (au_email (mg_author c))).
    { apply He. intros [H | H]; discriminate H. }
    now inversion Hs.
Defined.

(** C10 fails as stated: with [user.name] unset and [user.email] configured,
    the merge runs under the placeholder name and the configured address, not
    under the placeholder address. *)
Lemma merge_keeps_configured_email :
  isogit_getConfig Samples.dev_machine "repo" "user.name" = None /\
  isogit_getConfig Samples.dev_machine "repo" "user.email" = Some "dev@example.org" /\
  snd (Porcelain.merge Samples.dev_machine "repo" "main" "feature" (Some false))
    = [IsogitMerge {| mg_dir := "repo"; mg_ours := "main"; mg_theirs := "feature";
                      mg_dryRun := false;
                      mg_author := {| au_name := "Mr. Test";
                                      au_email := "dev@example.org" |} |}] /\
  snd (OldGit.merge Samples.dev_machine "repo" "main" "feature" (Some false))
    = snd (Porcelain.merge Samples.dev_machine "repo" "main" "feature" (Some false)) /\
  mo_missingConfigs
    (fst (Porcelain.merge Samples.dev_machine "repo" "main" "feature" (Some false)))
    = Some ["user.name"].
Proof. repeat split. Qed.

End Merge.

(* ------------------------------------------------------------------ *)
(** ** dot-prop on parsed config files *)

Section DotProp.
Import Config.

Lemma lookup_assign_same (k : string) (v : cfgval) (o : cfg) :
  lookup k (assign k v o) = Some v.
Proof.
  induction o as [| [k' v'] rest IH]; simpl.
  - now rewrite String.eqb_refl.
  - destruct (String.eqb k k') eqn:E; simpl; rewrite E; [reflexivity | exact IH].
Qed.

Lemma lookup_remove_same (k : string) (o : cfg) : lookup k (remove k o) = None.
Proof.
  induction o as [| [k' v'] rest IH]; simpl; [reflexivity |].
  destruct (String.eqb k k') eqn:E; simpl; [exact IH | now rewrite E].
Qed.

Lemma remove_absent (k : string) (o : cfg) :
  lookup k o = None -> remove k o = o.
Proof.
  induction o as [| [k' v'] rest IH]; simpl; [reflexivity |].
  destruct (String.eqb k k') eqn:E; simpl; [discriminate |].
  intros H. fold (remove k rest). now rewrite IH.
Qed.

Lemma assign_same_value (k : string) (v : cfgval) (o : cfg) :
  lookup k o = Some v -> assign k v o = o.
Proof.
  induction o as [| [k' v'] rest IH]; simpl; [discriminate |].
  destruct (String.eqb k k') eqn:E.
  - intros H. now inversion H.
  - intros H. now rewrite IH.
Qed.

Lemma split_on_nonempty (c : ascii) (s : string) : split_on c s <> [].
Proof.
  induction s as [| a s IH]; simpl; [discriminate |].
  destruct (Ascii.eqb a c); [discriminate |].
  destruct (split_on c s); [contradiction | discriminate].
Qed.

Lemma has_path_cons (k : string) (rest : list string) (o : cfg) :
  has_path (k :: rest) (VObj o) =
  match lookup k o with
  | Some v' => has_path rest v'
  | None => false
  end.
Proof. reflexivity. Qed.

Lemma get_path_cons (k : string) (rest : list string) (o : cfg) :
  get_path (k :: rest) (VObj o) =
  match lookup k o with
  | Some v' => get_path rest v'
  | None => None
  end.
Proof. reflexivity. Qed.

Lemma delete_path_step (k k' : string) (rest : list string) (o : cfg) :
  delete_path (k :: k' :: rest) o =
  match lookup k o with
  | Some (VObj c) => assign k (VObj (delete_path (k' :: rest) c)) o
  | _ => o
  end.
Proof. reflexivity. Qed.

Lemma set_path_step (k k' : string) (rest : list string) (v : cfgval) (o : cfg) :
  set_path (k :: k' :: rest) v o =
  assign k (VObj (set_path (k' :: rest) v (child k o))) o.
Proof. reflexivity. Qed.

Lemma has_path_delete (segs : list string) :
  segs <> [] -> forall o, has_path segs (VObj (delete_path segs o)) = false.
Proof.
  induction segs as [| k rest IH]; [congruence |]. intros _ o.
  destruct rest as [| k' rest'].
  - cbn [delete_path]. rewrite has_path_cons. now rewrite lookup_remove_same.
  - rewrite delete_path_step.
    destruct (lookup k o) as [v |] eqn:E.
    + destruct v as [s | b | n | | c];
        try (rewrite has_path_cons, E; reflexivity).
      rewrite has_path_cons, lookup_assign_same. apply IH. discriminate.
    + rewrite has_path_cons. now rewrite E.
Qed.

Lemma delete_path_absent (segs : list string) :
  forall o, has_path segs (VObj o) = false -> delete_path segs o = o.
Proof.
  induction segs as [| k rest IH]; intros o H; [reflexivity |].
  rewrite has_path_cons in H.
  destruct rest as [| k' rest'].
  - cbn [delete_path].
    destruct (lookup k o) eqn:E; [discriminate | now apply remove_absent].
  - rewrite delete_path_step.
    destruct (lookup k o) as [v |] eqn:E; [| reflexivity].
    destruct v as [s | b | n | | c]; try reflexivity.
    rewrite (IH c H). now apply assign_same_value.
Qed.

Lemma get_path_set (segs : list string) (v : cfgval) :
  segs <> [] -> forall o, get_path segs (VObj (set_path segs v o)) = Some v.
Proof.
  induction segs as [| k rest IH]; [congruence |]. intros _ o.
  destruct rest as [| k' rest'].
  - cbn [set_path]. rewrite get_path_cons. now rewrite lookup_assign_same.
  - rewrite set_path_step, get_path_cons, lookup_assign_same.
    apply IH. discriminate.
Qed.

Lemma has_path_get (segs : list string) :
  forall v x, get_path segs v = Some x -> has_path segs v = true.
Proof.
  induction segs as [| k rest IH]; intros v x H; [reflexivity |].
  cbn [get_path] in H. cbn [has_path].
  destruct v as [s | b | n | | o]; try discriminate.
  destruct (lookup k o); [now apply IH with x | discriminate].
Qed.

(** After [dotProp.delete] the key path is no longer in the object. *)
Lemma has_delete (o : cfg) (path : string) : has (delete o path) path = false.
Proof. apply has_path_delete, split_on_nonempty. Qed.

(** Deleting a key path that is not in the object leaves the object as it is. *)
Lemma delete_absent (o : cfg) (path : string) :
  has o path = false -> delete o path = o.
Proof. apply delete_path_absent. Qed.

(** After [dotProp.set] the key path holds the value. *)
Lemma get_set (o : cfg) (path : string) (v : cfgval) :
  get (set o path v) path = Some v /\ has (set o path v) path = true.
Proof.
  assert (H : get (set o path v) path = Some v)
    by (apply get_path_set, split_on_nonempty).
  split; [exact H | exact (has_path_get _ _ _ H)].
Qed.

End DotProp.

(* ------------------------------------------------------------------ *)
(** ** getConfig *)

Section GetConfig.
Import Config.

(** A value that is found in the local file and is truthy wins. *)
Lemma getConfig_from_local (w : World) (lp gp : option string) (key : string)
  (global showOrigin : bool) (v : cfgval) :
  readConfigValue w lp key = Some v -> truthy_val v = true ->
  getConfig_from w lp gp key true global showOrigin
    = Found local v (includeOrigin showOrigin lp).
Proof. intros Hv Ht. unfold getConfig_from. now rewrite Hv, Ht. Qed.

(** Otherwise a truthy value of the global file is taken. *)
Lemma getConfig_from_global (w : World) (lp gp : option string) (key : string)
  (showOrigin : bool) (v : cfgval) :
  truthy_opt (readConfigValue w lp key) = false ->
  readConfigValue w gp key = Some v -> truthy_val v = true ->
  getConfig_from w lp gp key true true showOrigin
    = Found global v (includeOrigin showOrigin gp).
Proof.
  intros Hl Hv Ht. unfold getConfig_from. rewrite Hv, Ht.
  destruct (readConfigValue w lp key) as [lv |]; [| reflexivity].
  simpl in Hl. now rewrite Hl.
Qed.

(** And without a truthy value in either file the scope is [none]. *)
Lemma getConfig_from_none (w : World) (lp gp : option string) (key : string)
  (showOrigin : bool) :
  truthy_opt (readConfigValue w lp key) = false ->
  truthy_opt (readConfigValue w gp key) = false ->
  getConfig_from w lp gp key true true showOrigin = ScopeNone.
Proof.
  intros Hl Hg. unfold getConfig_from.
  destruct (readConfigValue w gp key) as [gv |];
    destruct (readConfigValue w lp key) as [lv |]; simpl in *;
    rewrite ?Hl, ?Hg; reflexivity.
Qed.

(** C6. In [repo] the local config file has [user.name] with an empty value
    and [core.bare = false], the global file has [user.name = Alice] and
    [core.bare = true]. Both keys are found in the local file, and getConfig
    answers with the global scope and the global value: a local value that is
    falsy is treated as not found. *)
Theorem getConfig_falsy_local_value_not_found :
  let args key :=
    {| Porcelain.gc_dir := "repo"; Porcelain.gc_gitdir := None;
       Porcelain.gc_keyPath := key; Porcelain.gc_local := None;
       Porcelain.gc_global := None; Porcelain.gc_showOrigin := None |} in
  Porcelain.localConfigPath Samples.dev_machine (args "user.name")
    = Some "/repo/.git/config" /\
  parse Samples.dev_machine "/repo/.git/config" = Some Samples.local_config /\
  has Samples.local_config "user.name" = true /\
  get Samples.local_config "user.name" = Some (VStr "") /\
  has Samples.local_config "core.bare" = true /\
  get Samples.local_config "core.bare" = Some (VBool false) /\
  Porcelain.getConfig Samples.dev_machine (args "user.name")
    = Found global (VStr "Alice") None /\
  OldGit.getConfig Samples.dev_machine (args "user.name")
    = Found global (VStr "Alice") None /\
  Porcelain.getConfig Samples.dev_machine (args "core.bare")
    = Found global (VBool true) None /\
  OldGit.getConfig Samples.dev_machine (args "core.bare")
    = Found global (VBool true) None.
Proof. cbv zeta. repeat split. Qed.

End GetConfig.

(* ------------------------------------------------------------------ *)
(** ** setConfig *)

Section SetConfig.
Import Config.

(** setConfig answers [null] exactly when the path it settled on is falsy or
    names a file that cannot be parsed. *)
Lemma setConfig_at_null (w : World) (cp : option string) (key : string)
  (value : option setvalue) :
  fst (setConfig_at w cp key value) = None <->
  JS.truthy cp = false \/ exists p, cp = Some p /\ parse w p = None.
Proof.
  unfold setConfig_at.
  destruct (JS.truthy cp) eqn:Ht; cbn [negb].
  - destruct cp as [p |]; [| discriminate].
    destruct (parse w p) eqn:Hp; cbn [fst].
    + split; [discriminate |]. intros [H | [p' [E H]]]; [discriminate |].
      inversion E; subst. congruence.
    + split; [intros _; right; now exists p | reflexivity].
  - split; [now left | reflexivity].
Qed.

(** With a path that resolves and a file that parses, the key is deleted
    (when the value is [undefined]) or set, the object is serialised, written
    to that path and returned. *)
Lemma setConfig_at_updates (w : World) (p key : string)
  (value : option setvalue) (configFile : cfg) :
  p <> "" -> parse w p = Some configFile ->
  exists updated,
    setConfig_at w (Some p) key value
      = (Some (ini_stringify w updated), [WriteFile p (ini_stringify w updated)]) /\
    match value with
    | None => updated = delete configFile key /\ has updated key = false /\
              (has configFile key = false -> updated = configFile)
    | Some v => updated = set configFile key (cfgval_of v) /\
                get updated key = Some (cfgval_of v)
    end.
Proof.
  intros Hne Hp. unfold setConfig_at. cbn [JS.truthy].
  assert (Ht : JS.truthy_string p = true)
    by (unfold JS.truthy_string; apply negb_true_iff; now apply String.eqb_neq).
  rewrite Ht, Hp. cbn [negb].
  destruct value as [v |].
  - exists (set configFile key (cfgval_of v)). split; [reflexivity |].
    split; [reflexivity | apply get_set].
  - exists (delete configFile key). split; [reflexivity |].
    split; [reflexivity |]. split; [apply has_delete | apply delete_absent].
Qed.

Lemma setConfig_at_updates_witness :
  exists updated,
    setConfig_at Samples.dev_machine (Some "/home/dev/.gitconfig") "user.email" None
      = (Some (Samples.render updated),
         [WriteFile "/home/dev/.gitconfig" (Samples.render updated)]) /\
    updated = delete Samples.global_config "user.email" /\
    has updated "user.email" = false /\
    (has Samples.global_config "user.email" = false -> updated = Samples.global_config).
Proof.
  apply (setConfig_at_updates Samples.dev_machine "/home/dev/.gitconfig"
           "user.email" None Samples.global_config);
    [discriminate | reflexivity].
Defined.

(** With the [global] scope the path is the one git-config-path reports. *)
Lemma configPath_global (w : World) (a : Porcelain.setConfig_args) :
  Porcelain.sc_scope a = global ->
  Porcelain.configPath w a = getGitConfigPath_global w /\
  OldGit.configPath w a = getGitConfigPath_global w.
Proof.
  intros H. unfold Porcelain.configPath, OldGit.configPath. now rewrite H.
Qed.

(** With the [local] scope and a root that resolves the path is that of the
    repository's own config file. *)
Lemma configPath_local (w : World) (a : Porcelain.setConfig_args) (root : string) :
  Porcelain.sc_scope a = local ->
  Porcelain.config_root w (Porcelain.sc_dir a) (Porcelain.sc_gitdir a) = Some root ->
  root <> "" ->
  Porcelain.configPath w a = Some (path_resolve w [root; ".git/config"]).
Proof.
  intros Hs Hr Hne. unfold Porcelain.configPath. rewrite Hs, Hr.
  assert (Ht : JS.truthy_string root = true)
    by (unfold JS.truthy_string; apply negb_true_iff; now apply String.eqb_neq).
  now rewrite Ht.
Qed.

(** C7. [wt] is a linked worktree whose link does not resolve, so no local
    config file can be named for it. A setConfig on it with the [local] scope
    does not answer [null]: it takes the path of the global file, sets the key
    there, writes the file and returns its new contents, in both variants. *)
Theorem setConfig_local_scope_writes_global_file :
  let a :=
    {| Porcelain.sc_dir := "wt"; Porcelain.sc_gitdir := None;
       Porcelain.sc_scope := local; Porcelain.sc_keyPath := "user.name";
       Porcelain.sc_value := Some (SetStr "Bob") |} in
  let text :=
    ("[core]" ++ Worktree.nl ++ "bare = true" ++ Worktree.nl ++
     "[user]" ++ Worktree.nl ++ "name = Bob" ++ Worktree.nl ++
     "email = alice@example.org" ++ Worktree.nl)%string in
  Porcelain.config_root Samples.dev_machine "wt" None = None /\
  OldGit.worktree_gitdir Samples.dev_machine "wt" None = None /\
  getGitConfigPath_global Samples.dev_machine = Some "/home/dev/.gitconfig" /\
  Porcelain.setConfig Samples.dev_machine a
    = (Some text, [WriteFile "/home/dev/.gitconfig" text]) /\
  OldGit.setConfig Samples.dev_machine a
    = (Some text, [WriteFile "/home/dev/.gitconfig" text]).
Proof. cbv zeta. repeat split. Qed.

End SetConfig.

(* ------------------------------------------------------------------ *)
(** ** clone *)

Section Clone.

Lemma starts_with_iff (p s : string) :
  JS.starts_with p s = true <-> exists rest, s = (p ++ rest)%string.
Proof.
  revert s. induction p as [| a p IH]; intros s; simpl.
  - split; [intros _; now exists s | reflexivity].
  - destruct s as [| b s]; simpl.
    + split; [discriminate | intros [rest H]; discriminate].
    + rewrite andb_true_iff, Ascii.eqb_eq, IH. split.
      * intros [-> [rest ->]]. now exists rest.
      * intros [rest H]. inversion H; subst. split; [reflexivity | now exists rest].
Qed.

Lemma includes_iff (p s : string) :
  JS.includes p s = true <-> exists x y, s = (x ++ p ++ y)%string.
Proof.
  induction s as [| b s IH].
  - simpl. rewrite orb_false_r, starts_with_iff. split.
    + intros [rest H]. now exists EmptyString, rest.
    + intros [x [y H]]. destruct x as [| c x]; [now exists y | discriminate].
  - cbn [JS.includes]. rewrite orb_true_iff, starts_with_iff, IH. split.
    + intros [[rest H] | [x [y H]]].
      * now exists EmptyString, rest.
      * exists (String b x), y. simpl. now rewrite H.
    + intros [x [y H]]. destruct x as [| c x].
      * left. now exists y.
      * right. simpl in H. inversion H; subst. now exists x, y.
Qed.

(** The copy leaves out exactly the paths that contain [node_modules]. *)
Lemma copy_filter_spec (path : string) :
  copy_filter path = false <->
  exists x y, path = (x ++ "node_modules" ++ y)%string.
Proof. unfold copy_filter. rewrite negb_false_iff. apply includes_iff. Qed.

Lemma array_includes_In (xs : list string) (x : string) :
  JS.array_includes xs x = true <-> In x xs.
Proof.
  unfold JS.array_includes. rewrite existsb_exists. split.
  - intros [y [Hin He]]. apply String.eqb_eq in He. now subst.
  - intros Hin. exists x. split; [exact Hin | apply String.eqb_refl].
Qed.

Lemma array_includes_not_In (xs : list string) (x : string) :
  JS.array_includes xs x = false <-> ~ In x xs.
Proof.
  rewrite <- array_includes_In. destruct (JS.array_includes xs x); intuition congruence.
Qed.

Lemma truthy_string_iff (s : string) : JS.truthy_string s = true <-> s <> "".
Proof. unfold JS.truthy_string. now rewrite negb_true_iff, String.eqb_neq. Qed.

Lemma option_string_eqb_iff (a b : option string) :
  option_string_eqb a b = true <-> a = b.
Proof.
  destruct a as [x |], b as [y |]; simpl; try (split; congruence).
  rewrite String.eqb_eq. split; congruence.
Qed.

(** The target branch is [ref] when one is given, and otherwise the current
    branch of the source when the source is a git repository. *)
Lemma targetBranch_spec (w : World) (a : Porcelain.clone_args) :
  (forall r, Porcelain.cl_ref a = Some r -> r <> "" ->
     Porcelain.targetBranch w a = Some r) /\
  (missing (Porcelain.cl_ref a) ->
     Porcelain.targetBranch w a =
       if isGitRepo w (repo_root (Porcelain.cl_repo a))
       then currentBranchOf w (repo_root (Porcelain.cl_repo a)) else None).
Proof.
  unfold Porcelain.targetBranch. split.
  - intros r Hr Hne. rewrite Hr. simpl.
    apply truthy_string_iff in Hne. now rewrite Hne.
  - intros Hm. apply truthy_missing in Hm. now rewrite Hm.
Qed.

(** The clone of containers/git-porcelain.ts. *)
Lemma clone_local_only (w : World) (a : Porcelain.clone_args) (t : string) :
  Porcelain.targetBranch w a = Some t -> t <> "" ->
  ~ In t (repo_remote (Porcelain.cl_repo a)) ->
  exists rest,
    Porcelain.clone w a
      = FsCopy (repo_root (Porcelain.cl_repo a)) (Porcelain.cl_dir a) copy_filter
        :: rest /\
    (Porcelain.existingBranch w a = Some t -> rest = []) /\
    (Porcelain.existingBranch w a <> Some t ->
     exists c, rest = [IsogitCheckout c] /\
               cc_dir c = Porcelain.cl_dir a /\ cc_ref c = t /\
               cc_noCheckout c = JS.with_default false (Porcelain.cl_noCheckout a)).
Proof.
  intros Ht Hne Hnr. unfold Porcelain.clone. rewrite Ht.
  apply truthy_string_iff in Hne. apply array_includes_not_In in Hnr.
  rewrite Hne, Hnr. cbn [negb andb].
  destruct (option_string_eqb (Some t) (Porcelain.existingBranch w a)) eqn:E;
    cbn [negb].
  - apply option_string_eqb_iff in E. eexists. split; [reflexivity |].
    split; [reflexivity |]. intros H. now elim H.
  - eexists. split; [reflexivity |]. split.
    + intros H. rewrite H in E.
      assert (option_string_eqb (Some t) (Some t) = true)
        by now apply option_string_eqb_iff.
      congruence.
    + intros _. eexists. split; [reflexivity |]. repeat split.
Qed.

Lemma clone_network (w : World) (a : Porcelain.clone_args) :
  (Porcelain.targetBranch w a = None \/
   Porcelain.targetBranch w a = Some "" \/
   exists t, Porcelain.targetBranch w a = Some t /\
             In t (repo_remote (Porcelain.cl_repo a))) ->
  exists c,
    Porcelain.clone w a = [IsogitClone c] /\
    cn_url c = repo_url (Porcelain.cl_repo a) /\
    cn_dir c = Porcelain.cl_dir a /\
    cn_noCheckout c = JS.with_default false (Porcelain.cl_noCheckout a).
Proof.
  intros H. unfold Porcelain.clone.
  destruct H as [H | [H | [t [H Hin]]]]; rewrite H.
  - eexists. split; [reflexivity |]. repeat split.
  - cbn. eexists. split; [reflexivity |]. repeat split.
  - apply array_includes_In in Hin. rewrite Hin, andb_false_r.
    eexists. split; [reflexivity |]. repeat split.
Qed.

(** The deprecated clone of old-git: nothing is done for an empty [dir] or
    without [url] and [repo]; a [url] goes to the network, and so does a
    [repo] whose target branch is missing or among the remote branches; a
    [repo] whose target branch is not among the remote branches is copied and
    the branch is created in the copy: when that is rejected so is the clone,
    and otherwise the checkout depends on [noCheckout] alone. *)
Lemma old_clone_cases (w : World) (a : OldGit.clone_args) :
  (OldGit.cl_dir a = "" -> OldGit.clone w a = (Ok false, [])) /\
  (OldGit.cl_dir a <> "" -> forall u, OldGit.cl_url a = Some u ->
     OldGit.clone w a = (Ok true, [OldGit.network_clone a u])) /\
  (OldGit.cl_dir a <> "" -> OldGit.cl_url a = None -> OldGit.cl_repo a = None ->
     OldGit.clone w a = (Ok false, [])) /\
  (OldGit.cl_dir a <> "" -> OldGit.cl_url a = None ->
   forall root rurl,
     OldGit.cl_repo a = Some (root, rurl) ->
     (OldGit.targetBranch w a root = None \/
      OldGit.targetBranch w a root = Some "" \/
      exists t, OldGit.targetBranch w a root = Some t /\
                In t (OldGit.remoteBranches w root)) ->
     OldGit.clone w a = (Ok true, [OldGit.network_clone a rurl])) /\
  (OldGit.cl_dir a <> "" -> OldGit.cl_url a = None ->
   forall root rurl t,
     OldGit.cl_repo a = Some (root, rurl) ->
     OldGit.targetBranch w a root = Some t -> t <> "" ->
     ~ In t (OldGit.remoteBranches w root) ->
     let copy := [FsCopy root (OldGit.cl_dir a) copy_filter;
                  IsogitBranch (OldGit.cl_dir a) t false] in
     (isogit_branch w (OldGit.cl_dir a) t = false ->
      OldGit.clone w a = (Throws, copy)) /\
     (isogit_branch w (OldGit.cl_dir a) t = true ->
      OldGit.clone w a =
        (Ok true,
         copy ++
         (if JS.with_default false (OldGit.cl_noCheckout a) then []
          else OldGit.checkout w
                 {| OldGit.co_dir := OldGit.cl_dir a; OldGit.co_gitdir := None;
                    OldGit.co_ref := Some t; OldGit.co_overwrite := None;
                    OldGit.co_url := None; OldGit.co_filepaths := None;
                    OldGit.co_remote := None; OldGit.co_noCheckout := None;
                    OldGit.co_noUpdateHead := None; OldGit.co_dryRun := None;
                    OldGit.co_force := None; OldGit.co_track := Some false |})))).
Proof.
  assert (Hlen : forall s : string, s <> "" -> Nat.eqb (String.length s) 0 = false)
    by (intros [| c s] H; [congruence | reflexivity]).
  unfold OldGit.clone. split; [| split; [| split; [| split]]].
  - intros H. now rewrite H.
  - intros Hd u Hu. now rewrite (Hlen _ Hd), Hu.
  - intros Hd Hu Hr. now rewrite (Hlen _ Hd), Hu, Hr.
  - intros Hd Hu root rurl Hr Ht. rewrite (Hlen _ Hd), Hu, Hr.
    destruct Ht as [Ht | [Ht | [t [Ht Hin]]]]; rewrite Ht; try reflexivity.
    apply array_includes_In in Hin. now rewrite Hin, andb_false_r.
  - intros Hd Hu root rurl t Hr Ht Hne Hnr. cbv zeta.
    rewrite (Hlen _ Hd), Hu, Hr, Ht.
    apply truthy_string_iff in Hne. apply array_includes_not_In in Hnr.
    rewrite Hne, Hnr. cbn [negb andb JS.with_default].
    split; intros Hb; rewrite Hb; [reflexivity |].
    now destruct (JS.with_default false (OldGit.cl_noCheckout a)).
Qed.

(** C8, as the code has it. In containers/git-porcelain.ts, a clone whose
    target branch is not among the remote branches of the descriptor copies
    the source to [dir], leaving out exactly the paths that contain
    [node_modules], and then checks the target branch out in the copy exactly
    when it is not the current branch of the source; every other clone is one
    network clone against the URL of the descriptor. The deprecated old-git
    clone does nothing for an empty [dir] or without [url] and [repo]; it
    sends a [url] to the network, and a [repo] whose target branch is missing
    or among the remote branches to the network clone against the URL of the
    [repo]; for a [repo] whose target branch is not among the remote branches
    it copies the source in the same way and asks for the branch to be
    created in the copy: when that is rejected the clone is rejected after
    these two calls, and when it succeeds the deprecated checkout of the
    target branch follows unless [noCheckout] is set. *)
Theorem clone_local_copy_or_network (w : World) (a : Porcelain.clone_args) :
  (forall t,
     Porcelain.targetBranch w a = Some t -> t <> "" ->
     ~ In t (repo_remote (Porcelain.cl_repo a)) ->
     exists rest,
       Porcelain.clone w a
         = FsCopy (repo_root (Porcelain.cl_repo a)) (Porcelain.cl_dir a) copy_filter
           :: rest /\
       (Porcelain.existingBranch w a = Some t -> rest = []) /\
       (Porcelain.existingBranch w a <> Some t ->
        exists c, rest = [IsogitCheckout c] /\
                  cc_dir c = Porcelain.cl_dir a /\ cc_ref c = t /\
                  cc_noCheckout c
                    = JS.with_default false (Porcelain.cl_noCheckout a))) /\
  ((Porcelain.targetBranch w a = None \/
    Porcelain.targetBranch w a = Some "" \/
    exists t, Porcelain.targetBranch w a = Some t /\
              In t (repo_remote (Porcelain.cl_repo a))) ->
   exists c,
     Porcelain.clone w a = [IsogitClone c] /\
     cn_url c = repo_url (Porcelain.cl_repo a) /\
     cn_dir c = Porcelain.cl_dir a /\
     cn_noCheckout c = JS.with_default false (Porcelain.cl_noCheckout a)) /\
  (forall path, copy_filter path = false <->
                exists x y, path = (x ++ "node_modules" ++ y)%string) /\
  (forall b : OldGit.clone_args,
    (OldGit.cl_dir b = "" -> OldGit.clone w b = (Ok false, [])) /\
    (OldGit.cl_dir b <> "" -> forall u, OldGit.cl_url b = Some u ->
       OldGit.clone w b = (Ok true, [OldGit.network_clone b u])) /\
    (OldGit.cl_dir b <> "" -> OldGit.cl_url b = None -> OldGit.cl_repo b = None ->
       OldGit.clone w b = (Ok false, [])) /\
    (OldGit.cl_dir b <> "" -> OldGit.cl_url b = None ->
     forall root rurl,
       OldGit.cl_repo b = Some (root, rurl) ->
       (OldGit.targetBranch w b root = None \/
        OldGit.targetBranch w b root = Some "" \/
        exists t, OldGit.targetBranch w b root = Some t /\
                  In t (OldGit.remoteBranches w root)) ->
       OldGit.clone w b = (Ok true, [OldGit.network_clone b rurl])) /\
    (OldGit.cl_dir b <> "" -> OldGit.cl_url b = None ->
     forall root rurl t,
       OldGit.cl_repo b = Some (root, rurl) ->
       OldGit.targetBranch w b root = Some t -> t <> "" ->
       ~ In t (OldGit.remoteBranches w root) ->
       let copy := [FsCopy root (OldGit.cl_dir b) copy_filter;
                    IsogitBranch (OldGit.cl_dir b) t false] in
       (isogit_branch w (OldGit.cl_dir b) t = false ->
        OldGit.clone w b = (Throws, copy)) /\
       (isogit_branch w (OldGit.cl_dir b) t = true ->
        OldGit.clone w b =
          (Ok true,
           copy ++
           (if JS.with_default false (OldGit.cl_noCheckout b) then []
            else OldGit.checkout w
                   {| OldGit.co_dir := OldGit.cl_dir b; OldGit.co_gitdir := None;
                      OldGit.co_ref := Some t; OldGit.co_overwrite := None;
                      OldGit.co_url := None; OldGit.co_filepaths := None;
                      OldGit.co_remote := None; OldGit.co_noCheckout := None;
                      OldGit.co_noUpdateHead := None; OldGit.co_dryRun := None;
                      OldGit.co_force := None;
                      OldGit.co_track := Some false |}))))).
Proof.
  split; [intros t; apply clone_local_only |].
  split; [apply clone_network |].
  split; [apply copy_filter_spec |].
  intros b. apply (old_clone_cases w b).
Qed.

Lemma clone_local_copy_or_network_witness :
  exists rest,
    Porcelain.clone Samples.dev_machine Samples.clone_hotfix
      = FsCopy "repo" "copy" copy_filter :: rest /\
    exists c, rest = [IsogitCheckout c] /\ cc_dir c = "copy" /\
              cc_ref c = "hotfix" /\ cc_noCheckout c = false.
Proof.
  destruct (proj1 (clone_local_copy_or_network Samples.dev_machine
                     Samples.clone_hotfix) "hotfix")
    as [rest [Hc [_ Hrest]]].
  - reflexivity.
  - discriminate.
  - simpl. intros [H | []]. discriminate.
  - exists rest. split; [exact Hc |]. apply Hrest. discriminate.
Defined.

(** C8 fails as stated on the deprecated clone of old-git: with an empty
    [dir] a repository whose target branch [hotfix] is not among the remote
    branches is not copied, and a remote URL is not cloned over the network;
    in both cases nothing is done and the answer is [false]. *)
Lemma old_clone_departs :
  OldGit.cl_repo Samples.old_clone_hotfix_nowhere
    = Some ("repo", "https://example.org/dev/repo.git") /\
  OldGit.targetBranch Samples.dev_machine Samples.old_clone_hotfix_nowhere "repo"
    = Some "hotfix" /\
  OldGit.remoteBranches Samples.dev_machine "repo" = ["main"] /\
  OldGit.clone Samples.dev_machine Samples.old_clone_hotfix_nowhere
    = (Ok false, []) /\
  OldGit.cl_url Samples.old_clone_empty_dir
    = Some "https://example.org/dev/repo.git" /\
  OldGit.clone Samples.dev_machine Samples.old_clone_empty_dir = (Ok false, []).
Proof. repeat split. Qed.

(** With a target directory, the copy of [repo] already has the branch
    [hotfix], so its creation is rejected and the clone with it. *)
Lemma old_clone_hotfix_rejected :
  OldGit.clone Samples.dev_machine Samples.old_clone_hotfix
    = (Throws, [FsCopy "repo" "copy" copy_filter;
                IsogitBranch "copy" "hotfix" false]).
Proof. reflexivity. Qed.

End Clone.

(* ------------------------------------------------------------------ *)
(** ** worktreeStatus and fileStatus *)

Section FileStatus.
Import GitStatusTs.

Lemma find_is_unmerged (entries : list (string * GitStatus)) :
  (exists e, JS.array_find is_unmerged entries = Some e) <->
  exists e, In e entries /\ snd e = unmerged.
Proof.
  unfold JS.array_find. split.
  - intros [e H]. apply find_some in H as [Hin Hu].
    exists e. split; [exact Hin | now apply GitStatus_eqb_eq].
  - intros [e [Hin Hu]].
    destruct (find is_unmerged entries) as [e' |] eqn:E; [now exists e' |].
    pose proof (find_none _ _ E e Hin) as Hn.
    unfold is_unmerged in Hn. rewrite Hu in Hn. discriminate.
Qed.

(** The aggregate branch status: [clean] without entries, [unmerged] when an
    entry is unmerged, [uncommitted] otherwise. *)
Lemma aggregate_spec (entries : list (string * GitStatus)) :
  (aggregate entries = clean <-> entries = []) /\
  (aggregate entries = bs_unmerged <->
   exists e, In e entries /\ snd e = unmerged) /\
  (aggregate entries = uncommitted <->
   entries <> [] /\ forall e, In e entries -> snd e <> unmerged).
Proof.
  pose proof (find_is_unmerged entries) as Hf.
  unfold aggregate. destruct entries as [| e0 rest].
  - split; [tauto |]. split.
    + split; [discriminate | intros [e [[] _]]].
    + split; [discriminate | intros [H _]; congruence].
  - destruct (JS.array_find is_unmerged (e0 :: rest)) as [e |] eqn:E.
    + split; [split; discriminate |]. split.
      * split; [intros _; apply Hf; now exists e | reflexivity].
      * split; [discriminate |]. intros [_ Hall].
        destruct (proj1 Hf (ex_intro _ e eq_refl)) as [e' [Hin Hu]].
        now elim (Hall e' Hin).
    + split; [split; discriminate |]. split.
      * split; [discriminate |]. intros Hex. apply Hf in Hex as [e He]. discriminate.
      * split; [| reflexivity]. intros _. split; [discriminate |].
        intros e Hin Hu.
        assert (Hex : exists e', @None (string * GitStatus) = Some e')
          by (apply Hf; now exists e).
        destruct Hex as [e' He]. discriminate.
Qed.

(** An entry is [ignored] when the ignore rules match its path, and carries
    the status of its two-character code otherwise. *)
Lemma entry_of_spec (w : World) (root : string) (e : string * string) :
  fst (entry_of w root e) =
    (snd e, if ignores w root (snd e) then ignored
            else fst (processStatusCode (Some (fst e)))).
Proof.
  unfold entry_of. destruct (ignores w root (snd e)); [reflexivity |].
  now destruct (processStatusCode (Some (fst e))).
Qed.

Lemma worktreeStatus_in_repository (w : World) (dir root : string)
  (pathspec : option string) (flag : bool) :
  getRoot w dir = Some root ->
  exists bs log,
    worktreeStatus w dir pathspec flag = (Some bs, log) /\
    so_status bs = aggregate (so_entries bs) /\
    so_entries bs
      = map (fun e => fst (entry_of w root e))
          (run_entries (git_status w dir pathspec flag)).
Proof.
  intros Hr. unfold worktreeStatus. rewrite Hr.
  eexists. eexists. split; [reflexivity |]. cbn [so_status so_entries].
  split; [reflexivity |]. now rewrite map_map.
Qed.

(** worktreeStatus answers [undefined] outside a repository. *)
Lemma worktreeStatus_outside (w : World) (dir : string)
  (pathspec : option string) (flag : bool) :
  getRoot w dir = None -> worktreeStatus w dir pathspec flag = (None, []).
Proof. intros Hr. unfold worktreeStatus. now rewrite Hr. Qed.

(** C9. For a path under version control (its root is found, and the root is
    itself inside a repository) fileStatus reads the branch status of the root
    scoped to the path, whose entries are [ignored] when the ignore rules
    match them and carry the status of their code otherwise. A directory that is not the root and is matched by
    the ignore rules is [ignored]; any other directory maps the aggregate
    status, [clean] to [unmodified], [uncommitted] to [modified], [unmerged]
    to [unmerged]; a file gets the status of the first entry with its
    relative path, and [unmodified] when there is none. *)
Theorem fileStatus_under_version_control
  (w : World) (filepath root root' : string) :
  getRoot w filepath = Some root ->
  getRoot w root = Some root' ->
  exists bs log,
    worktreeStatus w root (Some filepath) false = (Some bs, log) /\
    so_entries bs
      = map (fun e => fst (entry_of w root' e))
          (run_entries (git_status w root (Some filepath) false)) /\
    so_status bs = aggregate (so_entries bs) /\
    (isDirectory w filepath = true ->
       (isEqualPaths w root filepath = false ->
        ignores w root (relative w root filepath) = true ->
        fst (fileStatus w filepath) = Some ignored) /\
       (isEqualPaths w root filepath = true \/
        ignores w root (relative w root filepath) = false ->
        fst (fileStatus w filepath) =
          Some (match so_status bs with
                | clean => unmodified
                | uncommitted => modified
                | bs_unmerged => unmerged
                end))) /\
    (isDirectory w filepath = false ->
       fst (fileStatus w filepath) =
         Some (match JS.array_find
                       (fun e => isEqualPaths w (fst e) (relative w root filepath))
                       (so_entries bs) with
               | Some e => snd e
               | None => unmodified
               end)).
Proof.
  intros Hr Hrr.
  destruct (worktreeStatus_in_repository w root root' (Some filepath) false Hrr)
    as [bs [log [Hw [Hs Hent]]]].
  exists bs, log. split; [exact Hw |]. split; [exact Hent |]. split; [exact Hs |].
  unfold fileStatus. rewrite Hr, Hw. split.
  - intros Hd. rewrite Hd. split.
    + intros He Hi. now rewrite He, Hi.
    + intros [He | Hi].
      * rewrite He. now destruct (so_status bs).
      * rewrite Hi. destruct (isEqualPaths w root filepath);
          now destruct (so_status bs).
  - intros Hd. rewrite Hd.
    now destruct (JS.array_find _ (so_entries bs)).
Qed.

Lemma fileStatus_under_version_control_witness :
  exists bs log,
    worktreeStatus Samples.dev_machine "repo" (Some "repo/a.txt") false
      = (Some bs, log) /\
    so_status bs = aggregate (so_entries bs) /\
    fst (fileStatus Samples.dev_machine "repo/a.txt") =
      Some (match JS.array_find
                    (fun e => isEqualPaths Samples.dev_machine (fst e)
                                (relative Samples.dev_machine "repo" "repo/a.txt"))
                    (so_entries bs) with
            | Some e => snd e
            | None => unmodified
            end).
Proof.
  destruct (fileStatus_under_version_control Samples.dev_machine
              "repo/a.txt" "repo" "repo" eq_refl eq_refl)
    as [bs [log [Hw [_ [Hs [_ Hf]]]]]].
  exists bs, log. split; [exact Hw |]. split; [exact Hs |].
  apply Hf. reflexivity.
Defined.

(** fileStatus on the developer's machine: the edited file, an untouched
    file, the root, a clean directory, the ignored directory, the directory
    with a conflict, and a path outside the repository. *)
Lemma fileStatus_examples :
  fst (fileStatus Samples.dev_machine "repo/a.txt") = Some star_modified /\
  fst (fileStatus Samples.dev_machine "repo/c.txt") = Some unmodified /\
  fst (fileStatus Samples.dev_machine "repo") = Some modified /\
  fst (fileStatus Samples.dev_machine "repo/src") = Some unmodified /\
  fst (fileStatus Samples.dev_machine "repo/build") = Some ignored /\
  fst (fileStatus Samples.dev_machine "repo/merge") = Some unmerged /\
  fileStatus Samples.dev_machine "plain" = (None, [no_git_error]).
Proof. repeat split. Qed.

End FileStatus.

(* ------------------------------------------------------------------ *)
(** ** Removing a linked worktree *)

Section RemoveWorktree.
Import Worktree.

Lemma item_drop_same (k : string) (items : list (string * node)) :
  item k (drop_item k items) = None.
Proof.
  induction items as [| [k' n] rest IH]; simpl; [reflexivity |].
  destruct (String.eqb k k') eqn:E; simpl; [exact IH | now rewrite E].
Qed.

Lemma item_drop_other (k k0 : string) (items : list (string * node)) :
  String.eqb k0 k = false -> item k0 (drop_item k items) = item k0 items.
Proof.
  intros Hne. induction items as [| [k' n] rest IH]; simpl; [reflexivity |].
  destruct (String.eqb k k') eqn:E; simpl.
  - apply String.eqb_eq in E. subst k'. now rewrite Hne.
  - now rewrite IH.
Qed.

Lemma item_map_same (k : string) (f : node -> node) (items : list (string * node)) :
  item k (map (fun kn => if String.eqb k (fst kn) then (fst kn, f (snd kn)) else kn)
            items)
  = option_map f (item k items).
Proof.
  induction items as [| [k' n] rest IH]; simpl; [reflexivity |].
  destruct (String.eqb k k') eqn:E; simpl; rewrite E; [reflexivity | exact IH].
Qed.

Lemma item_map_other (k k0 : string) (f : node -> node)
  (items : list (string * node)) :
  String.eqb k0 k = false ->
  item k0 (map (fun kn => if String.eqb k (fst kn) then (fst kn, f (snd kn)) else kn)
             items)
  = item k0 items.
Proof.
  intros Hne. induction items as [| [k' n] rest IH]; simpl; [reflexivity |].
  destruct (String.eqb k k') eqn:E; simpl.
  - apply String.eqb_eq in E. subst k'. now rewrite Hne.
  - now rewrite IH.
Qed.

Lemma fs_remove_last (k : string) (items : list (string * node)) :
  fs_remove [k] (Dir items) = Dir (drop_item k items).
Proof. reflexivity. Qed.

Lemma fs_remove_step (k k' : string) (rest : path) (items : list (string * node)) :
  fs_remove (k :: k' :: rest) (Dir items) =
  Dir (map (fun kn => if String.eqb k (fst kn)
                      then (fst kn, fs_remove (k' :: rest) (snd kn)) else kn)
         items).
Proof. reflexivity. Qed.

Lemma lookup_cons (k : string) (rest : path) (items : list (string * node)) :
  lookup (k :: rest) (Dir items) =
  match item k items with
  | Some c => lookup rest c
  | None => None
  end.
Proof. reflexivity. Qed.

(** What is removed is gone, with everything below it. *)
Lemma lookup_remove_gone (p : path) :
  p <> [] -> forall (q : path) (n : node), lookup (p ++ q) (fs_remove p n) = None.
Proof.
  induction p as [| k rest IH]; [congruence |]. intros _ q n.
  destruct n as [c | items]; [now destruct rest |].
  destruct rest as [| k' rest'].
  - rewrite fs_remove_last. cbn [app]. now rewrite lookup_cons, item_drop_same.
  - rewrite fs_remove_step. cbn [app].
    rewrite lookup_cons.
    rewrite (item_map_same k (fs_remove (k' :: rest')) items).
    destruct (item k items) as [c |]; [| reflexivity].
    cbn [option_map]. apply (IH ltac:(discriminate) q c).
Qed.

(** A removal creates nothing. *)
Lemma lookup_remove_none (p : path) :
  forall (q : path) (n : node),
    lookup q n = None -> lookup q (fs_remove p n) = None.
Proof.
  induction p as [| k rest IH]; intros q n H; [exact H |].
  destruct n as [c | items]; [now destruct rest |].
  destruct q as [| k0 q']; [discriminate |].
  rewrite lookup_cons in H.
  destruct (String.eqb k0 k) eqn:E.
  - apply String.eqb_eq in E. subst k0.
    destruct rest as [| k' rest'].
    + rewrite fs_remove_last, lookup_cons. now rewrite item_drop_same.
    + rewrite fs_remove_step, lookup_cons.
      rewrite (item_map_same k (fs_remove (k' :: rest')) items).
      destruct (item k items) as [c |]; [| reflexivity].
      cbn [option_map]. now apply IH.
  - destruct rest as [| k' rest'].
    + rewrite fs_remove_last, lookup_cons. now rewrite (item_drop_other _ _ _ E).
    + rewrite fs_remove_step, lookup_cons.
      now rewrite (item_map_other _ _ (fs_remove (k' :: rest')) _ E).
Qed.

(** A removal leaves alone what is neither below nor above the removed path. *)
Lemma lookup_remove_unrelated (p : path) :
  forall (q : path) (n : node),
    is_prefix p q = false -> is_prefix q p = false ->
    lookup q (fs_remove p n) = lookup q n.
Proof.
  induction p as [| k rest IH]; intros q n Hpq Hqp; [discriminate |].
  destruct q as [| k0 q']; [discriminate |].
  destruct n as [c | items]; [now destruct rest |].
  cbn [is_prefix] in Hpq, Hqp.
  destruct (String.eqb k0 k) eqn:E.
  - apply String.eqb_eq in E. subst k0.
    rewrite ?String.eqb_refl in Hpq. rewrite ?String.eqb_refl in Hqp.
    cbn [andb] in Hpq, Hqp.
    destruct rest as [| k' rest']; [discriminate |].
    rewrite fs_remove_step, !lookup_cons.
    rewrite (item_map_same k (fs_remove (k' :: rest')) items).
    destruct (item k items) as [c |]; [| reflexivity].
    cbn [option_map]. now apply IH.
  - destruct rest as [| k' rest'].
    + rewrite fs_remove_last, !lookup_cons. now rewrite (item_drop_other _ _ _ E).
    + rewrite fs_remove_step, !lookup_cons.
      now rewrite (item_map_other _ _ (fs_remove (k' :: rest')) _ E).
Qed.

Lemma is_prefix_app (g a b : path) :
  is_prefix (g ++ a) (g ++ b) = is_prefix a b.
Proof.
  induction g as [| k g IH]; [reflexivity |].
  cbn [app is_prefix]. now rewrite String.eqb_refl, IH.
Qed.

(** The administrative directory [<gitdir>/worktrees/<name>] and the branch
    ref [<gitdir>/refs/heads/<ref>] lie side by side. *)
Lemma link_beside_branch_ref (gitdir ref name : string) :
  let link := segments gitdir ++ ["worktrees"; name] in
  is_prefix link (branch_ref gitdir ref) = false /\
  is_prefix (branch_ref gitdir ref) link = false.
Proof.
  unfold branch_ref. cbv zeta. rewrite !is_prefix_app. split; reflexivity.
Qed.

Lemma branch_ref_nonempty (gitdir ref : string) : branch_ref gitdir ref <> [].
Proof. unfold branch_ref. destruct (segments gitdir); discriminate. Qed.

End RemoveWorktree.

Section RemoveClaims.
Import Worktree.

(** Once remove proceeds, the working directory, the administrative
    directory and the branch ref are gone. *)
Lemma delete_worktree_effect (r : Resolver) (wt : Worktree)
  (fs : node) (gitdir link name : string) :
  wp_gitdir (rs_getWorktreePaths r (wt_path wt)) = Some gitdir ->
  wp_worktreeLink (rs_getWorktreePaths r (wt_path wt)) = Some link ->
  segments link = segments gitdir ++ ["worktrees"; name] ->
  segments (wt_path wt) <> [] ->
  exists fs',
    delete_worktree r wt fs = Resolved fs' /\
    extractStats (wt_path wt) fs' = None /\
    extractStats link fs' = None /\
    lookup (branch_ref gitdir (wt_ref wt)) fs' = None.
Proof.
  intros Hg Hl Hlink Hp. unfold delete_worktree. rewrite Hg, Hl.
  assert (Hlne : segments link <> [])
    by (rewrite Hlink; destruct (segments gitdir); discriminate).
  set (P := segments (wt_path wt)) in *. set (L := segments link) in *.
  set (B := branch_ref gitdir (wt_ref wt)) in *.
  assert (HP1 : lookup P (fs_remove P fs) = None).
  { pose proof (lookup_remove_gone P Hp [] fs) as H. now rewrite app_nil_r in H. }
  assert (HL2 : lookup L (fs_remove L (fs_remove P fs)) = None).
  { pose proof (lookup_remove_gone L Hlne [] (fs_remove P fs)) as H.
    now rewrite app_nil_r in H. }
  eexists. split; [reflexivity |]. unfold extractStats. fold P L.
  split; [now do 2 apply lookup_remove_none |].
  split; [now apply lookup_remove_none |].
  pose proof (lookup_remove_gone B (branch_ref_nonempty _ _) []
                (fs_remove L (fs_remove P fs))) as H.
  now rewrite app_nil_r in H.
Qed.

(** C1. For a linked worktree that is not the main one and is clean, remove
    without [force] ends without an error, and afterwards the working
    directory, the administrative directory [<gitdir>/worktrees/<name>] and
    the branch ref [<gitdir>/refs/heads/<ref>] of the checked-out branch are
    all gone. *)
Theorem remove_clean_deletes_branch
  (r : Resolver) (wt : Worktree) (fs : node) (gitdir link name : string) :
  wt_main wt = false ->
  dirty r wt = false ->
  wp_gitdir (rs_getWorktreePaths r (wt_path wt)) = Some gitdir ->
  wp_worktreeLink (rs_getWorktreePaths r (wt_path wt)) = Some link ->
  segments link = segments gitdir ++ ["worktrees"; name] ->
  segments (wt_path wt) <> [] ->
  exists fs',
    remove r wt false fs = Resolved fs' /\
    extractStats (wt_path wt) fs' = None /\
    extractStats link fs' = None /\
    lookup (branch_ref gitdir (wt_ref wt)) fs' = None.
Proof.
  intros Hm Hd Hg Hl Hlink Hp. unfold remove. rewrite Hm, Hd.
  cbn [andb negb].
  exact (delete_worktree_effect r wt fs gitdir link name Hg Hl Hlink Hp).
Qed.

Lemma remove_clean_deletes_branch_witness :
  exists fs',
    remove (mocked unmodified) linkedWorktree false (fixture "/home/dev/synectic")
      = Resolved fs' /\
    extractStats "foo/" fs' = None /\
    extractStats "baseRepo/.git/worktrees/foo" fs' = None /\
    lookup (branch_ref "baseRepo/.git" "foo") fs' = None.
Proof.
  apply (remove_clean_deletes_branch (mocked unmodified) linkedWorktree
           (fixture "/home/dev/synectic") "baseRepo/.git"
           "baseRepo/.git/worktrees/foo" "foo");
    try reflexivity.
  discriminate.
Defined.

(** The removal cases of the test suite, run on the fixture: the dirty case,
    the two forced cases and the main worktree come out as the tests expect;
    the clean case without [force] expects the branch ref to be defined
    afterwards, where section 4.2 has it deleted. *)
Lemma remove_on_the_removal_cases (cwd : string) :
  map (passes remove cwd) removal_cases = [false; true; true; true; true].
Proof. reflexivity. Qed.

(** C3. For a linked worktree that is not the main one and is dirty, remove
    without [force] ends without an error and leaves the file system exactly
    as it was: the working directory, the administrative directory and the
    branch ref are all what they were. Section 4.2 and the test suite agree
    here. *)
Theorem remove_dirty_without_force_is_noop
  (r : Resolver) (wt : Worktree) (fs : node) :
  wt_main wt = false ->
  dirty r wt = true ->
  remove r wt false fs = Resolved fs /\
  forall (fs' : node) (p : string),
    remove r wt false fs = Resolved fs' -> extractStats p fs' = extractStats p fs.
Proof.
  intros Hm Hd. unfold remove. rewrite Hm, Hd. cbn [andb negb].
  split; [reflexivity |].
  intros fs' p H. now inversion H.
Qed.

Lemma remove_dirty_without_force_is_noop_witness :
  remove (mocked modified) linkedWorktree false (fixture "/home/dev/synectic")
    = Resolved (fixture "/home/dev/synectic") /\
  forall (fs' : node) (p : string),
    remove (mocked modified) linkedWorktree false (fixture "/home/dev/synectic")
      = Resolved fs' ->
    extractStats p fs' = extractStats p (fixture "/home/dev/synectic").
Proof.
  apply (remove_dirty_without_force_is_noop (mocked modified) linkedWorktree
           (fixture "/home/dev/synectic")); reflexivity.
Defined.

(** The main worktree is never removed. *)
Lemma remove_main_is_noop (r : Resolver) (wt : Worktree) (force : bool) (fs : node) :
  wt_main wt = true -> remove r wt force fs = Resolved fs.
Proof. intros Hm. unfold remove. now rewrite Hm. Qed.

End RemoveClaims.

(* ================================================================== *)
(** * Further properties of the code *)

(* ------------------------------------------------------------------ *)
(** ** Status codes, beyond the table *)

Section StatusCodesMore.
Import Regex GitStatusTs.

(** X1. On every two-character code [XY] processStatusCode returns, without a
    diagnostic: [ignored] for [!!]; [absent] for [??]; [unmerged] for [DD],
    [AA], and a [U] beside a character that is not a line terminator;
    [modified] for [M] followed by space, [M], [T] or [D]; [*modified] for any
    other code with an [M] in either slot; [added] for [A] followed by space,
    [T] or [D]; [deleted] for [D] followed by space or [T]; [*deleted] for any
    other code with a [D] in either slot; and for every remaining code
    [unmodified] with the diagnostic that names the code. *)
Theorem processStatusCode_two_character_codes (x y : ascii) :
  processStatusCode (Some (code x y)) =
    match code_table x y with
    | Some st => (st, [])
    | None => (unmodified, [unable_to_convert (code x y)])
    end.
Proof. exact (processStatusCode_two_chars x y). Qed.

(** X2. Whatever the status code, of any length, processStatusCode never
    answers [*added]. *)
Theorem processStatusCode_star_added_unreachable (statusCode : option string) :
  fst (processStatusCode statusCode) <> star_added.
Proof. exact (processStatusCode_never_star_added statusCode). Qed.

(** X3. A diagnostic is written only together with the answer [unmodified],
    it is the single line that names the code, and an undefined or empty code
    is answered [unmodified] without any diagnostic. *)
Theorem processStatusCode_diagnostic (statusCode : option string) :
  (snd (processStatusCode statusCode) = [] \/
   exists c, statusCode = Some c /\ c <> "" /\
             processStatusCode statusCode = (unmodified, [unable_to_convert c])) /\
  processStatusCode None = (unmodified, []) /\
  processStatusCode (Some "") = (unmodified, []).
Proof.
  split; [| split; reflexivity].
  destruct statusCode as [c |]; [| now left].
  unfold processStatusCode.
  destruct (JS.truthy_string c) eqn:Ht; cbn [negb]; [| now left].
  repeat match goal with
         | |- context [if ?b then _ else _] => destruct b; [now left |]
         end.
  right. exists c. split; [reflexivity |]. split; [| reflexivity].
  intros ->. discriminate.
Qed.

Lemma mem_spec (c : ascii) (cs : list ascii) : mem c cs = true <-> In c cs.
Proof.
  unfold mem. rewrite existsb_exists. split.
  - intros [d [Hin He]]. apply Ascii.eqb_eq in He. now subst.
  - intros Hin. exists c. split; [exact Hin | apply Ascii.eqb_refl].
Qed.

Lemma re_MTD_ahead_here (c : ascii) (s : list ascii) :
  mem c MTD_class = true ->
  matches_here (re_MTD_ahead c) s =
    match s with
    | x :: _ => Ascii.eqb x c
    | [] => false
    end.
Proof.
  intros Hc. unfold matches_here, re_MTD_ahead. cbn [match_at].
  destruct s as [| x t]; [reflexivity |].
  destruct (mem x MTD_class) eqn:Hx; cbn.
  - now destruct (Ascii.eqb x c).
  - destruct (Ascii.eqb x c) eqn:E; [| reflexivity].
    apply Ascii.eqb_eq in E. subst. congruence.
Qed.

Lemma re_MTD_ahead_anywhere (c : ascii) (s : list ascii) :
  mem c MTD_class = true ->
  (test_from (re_MTD_ahead c) s = true <-> In c s).
Proof.
  intros Hc. induction s as [| x t IH].
  - cbn. split; [discriminate | tauto].
  - cbn [test_from]. rewrite (re_MTD_ahead_here c (x :: t) Hc).
    rewrite orb_true_iff, IH, Ascii.eqb_eq. cbn [In]. tauto.
Qed.

(** X4. The patterns that processStatusCode uses for [*modified] and
    [*deleted], [/(?=[ MTD])M/] and [/(?=[ MTD])D/], match a code of any
    length exactly when the letter occurs somewhere in it: the character
    before the letter plays no part. *)
Theorem lookahead_patterns_match_any_occurrence (statusCode : string) :
  (test (re_MTD_ahead "M") statusCode = true <->
   In "M"%char (list_ascii_of_string statusCode)) /\
  (test (re_MTD_ahead "D") statusCode = true <->
   In "D"%char (list_ascii_of_string statusCode)).
Proof.
  unfold test. split; apply re_MTD_ahead_anywhere; reflexivity.
Qed.

End StatusCodesMore.

(* ------------------------------------------------------------------ *)
(** ** worktreeStatus and fileStatus, beyond the mapping *)

Section WorktreeStatusMore.
Import GitStatusTs.

Lemma entry_of_path (w : World) (root : string) (e : string * string) :
  fst (fst (entry_of w root e)) = snd e.
Proof. now rewrite entry_of_spec. Qed.

Lemma entry_of_status (w : World) (root : string) (e : string * string) :
  snd (fst (entry_of w root e)) =
    if ignores w root (snd e) then ignored
    else fst (processStatusCode (Some (fst e))).
Proof. now rewrite entry_of_spec. Qed.

Lemma entry_of_never_star_added (w : World) (root : string) (e : string * string) :
  snd (fst (entry_of w root e)) <> star_added.
Proof.
  rewrite entry_of_status. destruct (ignores w root (snd e)); [discriminate |].
  apply processStatusCode_never_star_added.
Qed.

(** Inside a repository worktreeStatus always answers, and its branch status
    is [clean] exactly when [entriesPattern] found nothing, and [unmerged]
    exactly when something it found is not matched by the ignore rules and
    carries an unmerged code. *)
Lemma worktreeStatus_status_of_run
  (w : World) (dir root : string) (pathspec : option string) (flag : bool) :
  getRoot w dir = Some root ->
  exists bs log,
    worktreeStatus w dir pathspec flag = (Some bs, log) /\
    (so_status bs = clean <->
     run_entries (git_status w dir pathspec flag) = []) /\
    (so_status bs = bs_unmerged <->
     exists e, In e (run_entries (git_status w dir pathspec flag)) /\
               ignores w root (snd e) = false /\
               fst (processStatusCode (Some (fst e))) = unmerged).
Proof.
  intros Hr.
  destruct (worktreeStatus_in_repository w dir root pathspec flag Hr)
    as [bs [log [Hw [Hs He]]]].
  exists bs, log. split; [exact Hw |].
  destruct (aggregate_spec (so_entries bs)) as [Hc [Hu _]].
  rewrite Hs. split.
  - rewrite Hc, He.
    destruct (run_entries (git_status w dir pathspec flag)); simpl;
      split; congruence.
  - rewrite Hu, He. split.
    + intros [e' [Hin Hst]]. apply in_map_iff in Hin as [e [E Hin]].
      exists e. split; [exact Hin |]. subst e'.
      rewrite entry_of_status in Hst.
      destruct (ignores w root (snd e)); [discriminate | now split].
    + intros [e [Hin [Hi Hst]]]. exists (fst (entry_of w root e)).
      split; [apply in_map_iff; now exists e |].
      now rewrite entry_of_status, Hi.
Qed.

(** The entries that worktreeStatus reports are what [entriesPattern] found,
    one for one and in the same order; an entry whose path the ignore rules
    match is reported [ignored] whatever its code, and no entry is ever
    reported [*added]. The [root] of the answer is the directory that was
    passed in, and the branch counts as bare exactly when [branchesPattern]
    gave no name. *)
Lemma worktreeStatus_entries_of_run
  (w : World) (dir root : string) (pathspec : option string) (flag : bool) :
  getRoot w dir = Some root ->
  exists bs log,
    worktreeStatus w dir pathspec flag = (Some bs, log) /\
    map fst (so_entries bs)
      = map snd (run_entries (git_status w dir pathspec flag)) /\
    (forall p st, In (p, st) (so_entries bs) ->
                  ignores w root p = true -> st = ignored) /\
    (forall p st, In (p, st) (so_entries bs) -> st <> star_added) /\
    so_root bs = dir /\
    (so_bare bs = true <->
     missing (run_ref (git_status w dir pathspec flag))) /\
    (so_bare bs = true -> so_ref bs = "").
Proof.
  intros Hr. unfold worktreeStatus. rewrite Hr.
  eexists. eexists. split; [reflexivity |].
  cbn [so_entries so_root so_bare so_ref]. rewrite !map_map.
  split; [apply map_ext; intros e; apply entry_of_path |].
  split.
  { intros p st Hin Hi. apply in_map_iff in Hin as [e [E Hin]].
    pose proof (entry_of_status w root e) as Hst.
    pose proof (entry_of_path w root e) as Hp.
    rewrite E in Hst, Hp. cbn in Hst, Hp. subst p. now rewrite Hi in Hst. }
  split.
  { intros p st Hin. apply in_map_iff in Hin as [e [E Hin]].
    pose proof (entry_of_never_star_added w root e) as Hn.
    rewrite E in Hn. exact Hn. }
  split; [reflexivity |].
  split.
  - rewrite negb_true_iff. apply truthy_missing.
  - rewrite negb_true_iff. intros Ht. now rewrite Ht.
Qed.

Lemma worktreeStatus_entry_never_star_added
  (w : World) (dir : string) (pathspec : option string) (flag : bool)
  (bs : StatusOutput) (log : list string) (e : string * GitStatus) :
  worktreeStatus w dir pathspec flag = (Some bs, log) ->
  In e (so_entries bs) -> snd e <> star_added.
Proof.
  unfold worktreeStatus. destruct (getRoot w dir) as [root |]; [| discriminate].
  intros H Hin. inversion H; subst. cbn [so_entries] in Hin.
  rewrite map_map in Hin. apply in_map_iff in Hin as [m [E Hm]].
  rewrite <- E. apply entry_of_never_star_added.
Qed.

(** X7. fileStatus never answers [*added], and for a directory it answers
    nothing but [undefined], [ignored], [unmodified], [modified] or
    [unmerged]. *)
Theorem fileStatus_range (w : World) (filepath : string) :
  fst (fileStatus w filepath) <> Some star_added /\
  (isDirectory w filepath = true ->
   In (fst (fileStatus w filepath))
     [None; Some ignored; Some unmodified; Some modified; Some unmerged]).
Proof.
  unfold fileStatus.
  destruct (getRoot w filepath) as [root |];
    [| split; [discriminate | intros _; now left]].
  destruct (worktreeStatus w root (Some filepath) false) as [[bs |] log] eqn:Hw;
    [| split; [discriminate | intros _; now left]].
  split.
  - destruct (isDirectory w filepath).
    + destruct (if isEqualPaths w root filepath then false
                else ignores w root (relative w root filepath));
        [discriminate |].
      destruct (so_status bs); discriminate.
    + destruct (JS.array_find _ (so_entries bs)) as [e |] eqn:Hf; [| discriminate].
      apply find_some in Hf as [Hin _]. cbn [fst]. intros H. inversion H as [H'].
      exact (worktreeStatus_entry_never_star_added _ _ _ _ _ _ _ Hw Hin H').
  - intros Hd. rewrite Hd.
    destruct (if isEqualPaths w root filepath then false
              else ignores w root (relative w root filepath));
      [cbn; tauto |].
    destruct (so_status bs); cbn; tauto.
Qed.

Lemma fileStatus_range_witness :
  In (fst (fileStatus Samples.dev_machine "repo/merge"))
    [None; Some ignored; Some unmodified; Some modified; Some unmerged].
Proof.
  apply (proj2 (fileStatus_range Samples.dev_machine "repo/merge")). reflexivity.
Defined.

(** X8. fileStatus answers [undefined] exactly when no repository root is
    found for the path, or none for that root, and in both cases it writes an
    error line; inside a repository it always answers a status. *)
Theorem fileStatus_undefined (w : World) (filepath : string) :
  (fst (fileStatus w filepath) = None <->
   getRoot w filepath = None \/
   exists root, getRoot w filepath = Some root /\ getRoot w root = None) /\
  (fst (fileStatus w filepath) = None ->
   In no_git_error (snd (fileStatus w filepath)) \/
   In not_tracked_error (snd (fileStatus w filepath))).
Proof.
  unfold fileStatus.
  destruct (getRoot w filepath) as [root |] eqn:Hr.
  - destruct (getRoot w root) as [root' |] eqn:Hrr.
    + destruct (worktreeStatus_in_repository w root root' (Some filepath) false Hrr)
        as [bs [log [Hw _]]].
      rewrite Hw.
      assert (Hsome : exists st,
                 fst (if isDirectory w filepath
                      then if if isEqualPaths w root filepath then false
                              else ignores w root (relative w root filepath)
                           then (Some ignored, log)
                           else match so_status bs with
                                | clean => (Some unmodified, log)
                                | uncommitted => (Some modified, log)
                                | bs_unmerged => (Some unmerged, log)
                                end
                      else match JS.array_find
                                   (fun e => isEqualPaths w (fst e)
                                               (relative w root filepath))
                                   (so_entries bs) with
                           | Some e => (Some (snd e), log)
                           | None => (Some unmodified, log)
                           end) = Some st).
      { destruct (isDirectory w filepath).
        - destruct (if isEqualPaths w root filepath then false
                    else ignores w root (relative w root filepath));
            [now eexists |].
          destruct (so_status bs); now eexists.
        - destruct (JS.array_find _ (so_entries bs)); now eexists. }
      destruct Hsome as [st Hst]. rewrite Hst. split.
      * split; [discriminate |].
        intros [H | [r [E H]]]; [discriminate |]. inversion E; subst. congruence.
      * discriminate.
    + rewrite (worktreeStatus_outside w root (Some filepath) false Hrr).
      cbn. split.
      * split; [intros _; right; now exists root | reflexivity].
      * intros _. right. now left.
  - cbn. split.
    + split; [intros _; now left | reflexivity].
    + intros _. left. now left.
Qed.

End WorktreeStatusMore.

(* ------------------------------------------------------------------ *)
(** ** getStatus and hasStatus, beyond the collapse *)

Section GetStatusMore.

(** X9. For a directory the getStatus of containers/git-porcelain.ts always
    answers [modified] or [unmodified], never [undefined]: it is [modified]
    exactly when the status matrix is defined and has a row whose HEAD status
    differs from its working-directory status, so a matrix that is
    [undefined] or empty gives [unmodified]. *)
Theorem getStatus_directory_never_undefined (w : World) (filepath : string) :
  isDirectory w filepath = true ->
  (Porcelain.getStatus w filepath = Some modified \/
   Porcelain.getStatus w filepath = Some unmodified) /\
  (Porcelain.getStatus w filepath = Some modified <->
   exists rows r, statusMatrix w filepath = Some rows /\ In r rows /\
                  row_head r <> row_workdir r) /\
  (statusMatrix w filepath = None \/ statusMatrix w filepath = Some [] ->
   Porcelain.getStatus w filepath = Some unmodified).
Proof.
  intros Hd. unfold Porcelain.getStatus. rewrite Hd.
  destruct (statusMatrix w filepath) as [rows |] eqn:Hm.
  - pose proof (changed_nonempty rows) as Hc.
    destruct (Nat.ltb 0 (List.length (Porcelain.changed_of (Some rows)))) eqn:E.
    + split; [now left |]. split.
      * split; [| reflexivity]. intros _.
        destruct (proj1 Hc eq_refl) as [r Hr]. now exists rows, r.
      * intros [H | H]; [discriminate |]. inversion H; subst. discriminate.
    + split; [now right |]. split.
      * split; [discriminate |]. intros [rows' [r [E' Hr]]].
        inversion E'; subst. assert (false = true) by (apply Hc; now exists r).
        discriminate.
      * reflexivity.
  - cbn. split; [now right |]. split.
    + split; [discriminate |]. intros [rows [r [E _]]]. discriminate.
    + reflexivity.
Qed.

Lemma getStatus_directory_never_undefined_witness :
  Porcelain.getStatus Samples.dev_machine "plain" = Some modified \/
  Porcelain.getStatus Samples.dev_machine "plain" = Some unmodified.
Proof.
  apply (proj1 (getStatus_directory_never_undefined Samples.dev_machine "plain"
                  eq_refl)).
Defined.

Lemma shim_changed_nonempty (rows : list (string * GitStatus)) :
  Nat.ltb 0 (List.length (filter OldGit.shim_changed rows)) = true <->
  exists row, In row rows /\ snd row <> unmodified.
Proof.
  split.
  - intros H. apply Nat.ltb_lt in H.
    destruct (filter OldGit.shim_changed rows) as [| r rest] eqn:E;
      [simpl in H; lia |].
    assert (Hin : In r (filter OldGit.shim_changed rows))
      by (rewrite E; now left).
    apply filter_In in Hin as [Hin Hc]. exists r. split; [exact Hin |].
    unfold OldGit.shim_changed in Hc. apply negb_true_iff in Hc.
    intros Hu. rewrite Hu in Hc. discriminate.
  - intros [r [Hin Hne]]. apply Nat.ltb_lt.
    assert (Hf : In r (filter OldGit.shim_changed rows)).
    { apply filter_In. split; [exact Hin |].
      unfold OldGit.shim_changed. apply negb_true_iff.
      destruct (GitStatus_eqb (snd r) unmodified) eqn:E; [| reflexivity].
      apply GitStatus_eqb_eq in E. contradiction. }
    destruct (filter OldGit.shim_changed rows); [contradiction | simpl; lia].
Qed.

(** X10. In the old-git variant a directory inside a linked worktree is
    judged by the shim's status matrix alone: getStatus is [modified] exactly
    when that matrix is defined and has a row whose status is not
    [unmodified], and [unmodified] otherwise; the matrix of the main worktree
    is not consulted. *)
Theorem old_getStatus_linked_worktree (w : World) (filepath root : string) :
  isDirectory w filepath = true ->
  getRoot w filepath = Some root -> root <> "" ->
  JS.truthy (wp_worktreeDir (getWorktreePaths w filepath)) = true ->
  (OldGit.getStatus w filepath = Some modified \/
   OldGit.getStatus w filepath = Some unmodified) /\
  (OldGit.getStatus w filepath = Some modified <->
   exists rows row, shimStatusMatrix w filepath = Some rows /\ In row rows /\
                    snd row <> unmodified).
Proof.
  intros Hd Hr Hne Hl. unfold OldGit.getStatus. rewrite Hd, Hr, Hl.
  apply truthy_string_iff in Hne. rewrite Hne. cbn [negb].
  destruct (shimStatusMatrix w filepath) as [rows |].
  - pose proof (shim_changed_nonempty rows) as Hc.
    destruct (Nat.ltb 0 (List.length (filter OldGit.shim_changed rows))).
    + split; [now left |]. split; [| reflexivity]. intros _.
      destruct (proj1 Hc eq_refl) as [r Hrow]. now exists rows, r.
    + split; [now right |]. split; [discriminate |].
      intros [rows' [r [E Hrow]]]. inversion E; subst.
      assert (false = true) by (apply Hc; now exists r). discriminate.
  - cbn. split; [now right |]. split; [discriminate |].
    intros [rows [r [E _]]]. discriminate.
Qed.

Lemma old_getStatus_linked_worktree_witness :
  (OldGit.getStatus Samples2.linked_machine "linked" = Some modified \/
   OldGit.getStatus Samples2.linked_machine "linked" = Some unmodified) /\
  (OldGit.getStatus Samples2.linked_machine "linked" = Some modified <->
   exists rows row,
     shimStatusMatrix Samples2.linked_machine "linked" = Some rows /\
     In row rows /\ snd row <> unmodified).
Proof.
  apply (old_getStatus_linked_worktree Samples2.linked_machine "linked" "linked");
    [reflexivity | reflexivity | discriminate | reflexivity].
Defined.

Lemma in_defined {A : Type} (xs : list (option A)) (a : A) :
  In a (OldGitMore.defined xs) <-> In (Some a) xs.
Proof.
  unfold OldGitMore.defined. rewrite in_flat_map. split.
  - intros [x [Hin Ha]]. destruct x as [b |]; [| contradiction].
    destruct Ha as [-> | []]. exact Hin.
  - intros Hin. exists (Some a). split; [exact Hin | now left].
Qed.

Lemma status_in_spec (filters : list GitStatus) (s : GitStatus) :
  OldGitMore.status_in filters s = true <-> In s filters.
Proof.
  unfold OldGitMore.status_in. rewrite existsb_exists. split.
  - intros [t [Hin He]]. apply GitStatus_eqb_eq in He. now subst.
  - intros Hin. exists s. split; [exact Hin | apply GitStatus_eqb_refl].
Qed.

(** X11. hasStatus is true exactly when the status matrix of the path is
    defined and one of its rows translates to a status that is among the
    filters; so it is false for a path outside version control, false for an
    empty list of filters, and adding filters never turns a true answer
    false. *)
Theorem hasStatus_spec (w : World) (h : Host) (filepath : string)
  (statusFilters : list GitStatus) :
  (OldGitMore.hasStatus w h filepath statusFilters = true <->
   exists rows row s, statusMatrix w filepath = Some rows /\ In row rows /\
                      matrixToStatus h row = Some s /\ In s statusFilters) /\
  (statusMatrix w filepath = None ->
   OldGitMore.hasStatus w h filepath statusFilters = false) /\
  OldGitMore.hasStatus w h filepath [] = false /\
  (forall more, OldGitMore.hasStatus w h filepath statusFilters = true ->
                OldGitMore.hasStatus w h filepath (statusFilters ++ more) = true).
Proof.
  assert (Hmain : forall filters,
    OldGitMore.hasStatus w h filepath filters = true <->
    exists rows row s, statusMatrix w filepath = Some rows /\ In row rows /\
                       matrixToStatus h row = Some s /\ In s filters).
  { intros filters. unfold OldGitMore.hasStatus.
    destruct (statusMatrix w filepath) as [rows |].
    - set (found := filter (OldGitMore.status_in filters)
                      (OldGitMore.defined (map (matrixToStatus h) rows))).
      split.
      + intros H. destruct found as [| s rest] eqn:E; [discriminate |].
        assert (Hin : In s found) by (rewrite E; now left).
        unfold found in Hin. apply filter_In in Hin as [Hin Hs].
        apply in_defined in Hin. apply in_map_iff in Hin as [row [Hrow Hin]].
        apply status_in_spec in Hs. now exists rows, row, s.
      + intros [rows' [row [s [E [Hin [Hs Hf]]]]]]. inversion E; subst rows'.
        assert (Hfound : In s found).
        { unfold found. apply filter_In. split; [| now apply status_in_spec].
          apply in_defined. apply in_map_iff. now exists row. }
        destruct found; [contradiction | reflexivity].
    - cbn. split; [discriminate |]. intros [rows [row [s [E _]]]]. discriminate. }
  split; [apply Hmain |]. split.
  - intros Hm. unfold OldGitMore.hasStatus. now rewrite Hm.
  - split.
    + destruct (OldGitMore.hasStatus w h filepath []) eqn:E; [| reflexivity].
      apply Hmain in E as [rows [row [s [_ [_ [_ []]]]]]].
    + intros more H. apply Hmain in H as [rows [row [s [E [Hin [Hs Hf]]]]]].
      apply Hmain. exists rows, row, s. repeat split; try assumption.
      apply in_or_app. now left.
Qed.

End GetStatusMore.

(* ------------------------------------------------------------------ *)
(** ** getConfig and setConfig, beyond precedence *)

Section ConfigMore.
Import Config.

(** A value that readConfigValue returns sits at the key path of the file
    that was parsed. *)
Lemma readConfigValue_sound (w : World) (configPath : option string)
  (key : string) (v : cfgval) :
  readConfigValue w configPath key = Some v ->
  exists p configFile,
    configPath = Some p /\ parse w p = Some configFile /\
    has (expandKeys w configFile) key = true /\
    get (expandKeys w configFile) key = Some v.
Proof.
  unfold readConfigValue. destruct configPath as [p |]; [| discriminate].
  destruct (negb (JS.truthy_string p)); [discriminate |].
  destruct (parse w p) as [configFile |] eqn:Hp; [| discriminate].
  destruct (has (expandKeys w configFile) key) eqn:Hh; [| discriminate].
  intros Hg. exists p, configFile. now repeat split.
Qed.

Lemma getConfig_from_sound (w : World) (lp gp : option string) (key : string)
  (local_on global_on showOrigin : bool) (scope : Scope) (v : cfgval)
  (origin : option string) :
  getConfig_from w lp gp key local_on global_on showOrigin = Found scope v origin ->
  truthy_val v = true /\
  match scope with
  | local => local_on = true /\ readConfigValue w lp key = Some v /\
             origin = includeOrigin showOrigin lp
  | global => global_on = true /\ readConfigValue w gp key = Some v /\
              origin = includeOrigin showOrigin gp /\
              (local_on = true -> truthy_opt (readConfigValue w lp key) = false)
  end.
Proof.
  unfold getConfig_from.
  assert (Hg : forall lfalsy : Prop, lfalsy ->
    match (if global_on then readConfigValue w gp key else None) with
    | Some gv => if truthy_val gv
                 then Found global gv (includeOrigin showOrigin gp) else ScopeNone
    | None => ScopeNone
    end = Found scope v origin ->
    truthy_val v = true /\
    match scope with
    | local => local_on = true /\ readConfigValue w lp key = Some v /\
               origin = includeOrigin showOrigin lp
    | global => global_on = true /\ readConfigValue w gp key = Some v /\
                origin = includeOrigin showOrigin gp /\ lfalsy
    end).
  { intros lfalsy Hl. destruct global_on; [| discriminate].
    destruct (readConfigValue w gp key) as [gv |]; [| discriminate].
    destruct (truthy_val gv) eqn:Ht; [| discriminate].
    intros H. inversion H; subst. now repeat split. }
  destruct local_on.
  - destruct (readConfigValue w lp key) as [lv |] eqn:Hl.
    + destruct (truthy_val lv) eqn:Ht.
      * intros H. inversion H; subst. now repeat split.
      * apply Hg. intros _. exact Ht.
    + apply Hg. reflexivity.
  - apply Hg. discriminate.
Qed.

(** X12. For a key path in the plain form of git-config keys, whatever
    getConfig answers with a scope is a truthy value that sits at the key
    path of the parsed config file of that scope, with that scope enabled:
    for [local] the file is the local config path of the variant, for
    [global] the global config path; the origin is the path of that file
    when [showOrigin] is set and is left out otherwise; and an answer from
    the global file means that the local file, if it was searched, gave no
    truthy value. [lp] is the local config path of the variant that
    answered. *)
Theorem getConfig_sound (w : World) (a : Porcelain.getConfig_args)
  (lp : option string) (scope : Scope) (v : cfgval) (origin : option string) :
  plain_key (Porcelain.gc_keyPath a) = true ->
  (lp = Porcelain.localConfigPath w a /\
   Porcelain.getConfig w a = Found scope v origin) \/
  (lp = OldGit.localConfigPath w a /\
   OldGit.getConfig w a = Found scope v origin) ->
  truthy_val v = true /\
  exists p configFile,
    parse w p = Some configFile /\
    get (expandKeys w configFile) (Porcelain.gc_keyPath a) = Some v /\
    origin = (if JS.with_default false (Porcelain.gc_showOrigin a)
              then Some p else None) /\
    match scope with
    | local => JS.with_default true (Porcelain.gc_local a) = true /\
               lp = Some p
    | global => JS.with_default true (Porcelain.gc_global a) = true /\
                getGitConfigPath_global w = Some p /\
                (JS.with_default true (Porcelain.gc_local a) = true ->
                 truthy_opt (readConfigValue w lp (Porcelain.gc_keyPath a))
                   = false)
    end.
Proof.
  intros _ H.
  assert (Hfrom :
    getConfig_from w lp (Porcelain.globalConfigPath w a) (Porcelain.gc_keyPath a)
      (JS.with_default true (Porcelain.gc_local a))
      (JS.with_default true (Porcelain.gc_global a))
      (JS.with_default false (Porcelain.gc_showOrigin a))
    = Found scope v origin).
  { destruct H as [[-> H] | [-> H]]; exact H. }
  clear H. apply getConfig_from_sound in Hfrom as [Ht Hs].
  split; [exact Ht |]. destruct scope.
  - destruct Hs as [Hl [Hr Ho]].
    destruct (readConfigValue_sound _ _ _ _ Hr) as [p [cf [Hp [Hparse [_ Hget]]]]].
    exists p, cf. split; [exact Hparse |]. split; [exact Hget |].
    split; [| now split].
    rewrite Ho, Hp. unfold includeOrigin.
    now destruct (JS.with_default false (Porcelain.gc_showOrigin a)).
  - destruct Hs as [Hl [Hr [Ho Hlocal]]].
    destruct (readConfigValue_sound _ _ _ _ Hr) as [p [cf [Hp [Hparse [_ Hget]]]]].
    exists p, cf. split; [exact Hparse |]. split; [exact Hget |].
    split; [| split; [exact Hl | split; [| exact Hlocal]]].
    + rewrite Ho, Hp. unfold includeOrigin.
      now destruct (JS.with_default false (Porcelain.gc_showOrigin a)).
    + unfold Porcelain.globalConfigPath in Hp. now rewrite Hl in Hp.
Qed.

Lemma getConfig_sound_witness :
  truthy_val (VStr "0") = true /\
  exists p configFile,
    parse Samples.dev_machine p = Some configFile /\
    get (expandKeys Samples.dev_machine configFile) "core.repositoryformatversion"
      = Some (VStr "0") /\
    Some "/repo/.git/config" = Some p /\
    true = true /\ Some "/repo/.git/config" = Some p.
Proof.
  exact (getConfig_sound Samples.dev_machine
           {| Porcelain.gc_dir := "repo"; Porcelain.gc_gitdir := None;
              Porcelain.gc_keyPath := "core.repositoryformatversion";
              Porcelain.gc_local := None; Porcelain.gc_global := None;
              Porcelain.gc_showOrigin := Some true |}
           (Some "/repo/.git/config") local (VStr "0")
           (Some "/repo/.git/config") eq_refl
           (or_introl (conj eq_refl eq_refl))).
Defined.

(** X13. setConfig writes at most one file: when it answers [null] nothing is
    written, and when it answers a text that text is written, once, to the
    path it settled on; with the [global] scope that path is the one of the
    global config file. In both variants. *)
Theorem setConfig_writes (w : World) (a : Porcelain.setConfig_args) :
  (forall calls, Porcelain.setConfig w a = (None, calls) -> calls = []) /\
  (forall text calls, Porcelain.setConfig w a = (Some text, calls) ->
     exists p, Porcelain.configPath w a = Some p /\ calls = [WriteFile p text]) /\
  (forall calls, OldGit.setConfig w a = (None, calls) -> calls = []) /\
  (forall text calls, OldGit.setConfig w a = (Some text, calls) ->
     exists p, OldGit.configPath w a = Some p /\ calls = [WriteFile p text]) /\
  (Porcelain.sc_scope a = global ->
   Porcelain.configPath w a = getGitConfigPath_global w /\
   OldGit.configPath w a = getGitConfigPath_global w).
Proof.
  assert (Hat : forall cp key value,
    (forall calls, setConfig_at w cp key value = (None, calls) -> calls = []) /\
    (forall text calls, setConfig_at w cp key value = (Some text, calls) ->
       exists p, cp = Some p /\ calls = [WriteFile p text])).
  { intros cp key value. unfold setConfig_at.
    destruct (negb (JS.truthy cp)).
    - split; [intros calls H; now inversion H | intros text calls H; discriminate].
    - destruct cp as [p |].
      + destruct (parse w p).
        * split; [intros calls H; discriminate |].
          intros text calls H. inversion H; subst. now exists p.
        * split; [intros calls H; now inversion H | intros text calls H; discriminate].
      + split; [intros calls H; now inversion H | intros text calls H; discriminate]. }
  unfold Porcelain.setConfig, OldGit.setConfig.
  split; [apply Hat |]. split; [apply Hat |].
  split; [apply Hat |]. split; [apply Hat |].
  apply configPath_global.
Qed.

Lemma setConfig_writes_witness :
  Porcelain.configPath Samples.dev_machine
    {| Porcelain.sc_dir := "repo"; Porcelain.sc_gitdir := None;
       Porcelain.sc_scope := global; Porcelain.sc_keyPath := "user.name";
       Porcelain.sc_value := None |}
    = Some "/home/dev/.gitconfig".
Proof.
  apply (proj1 (proj2 (proj2 (proj2 (proj2
           (setConfig_writes Samples.dev_machine
              {| Porcelain.sc_dir := "repo"; Porcelain.sc_gitdir := None;
                 Porcelain.sc_scope := global; Porcelain.sc_keyPath := "user.name";
                 Porcelain.sc_value := None |})))) eq_refl)).
Defined.

Lemma lookup_assign_other (k k0 : string) (v : cfgval) (o : cfg) :
  String.eqb k0 k = false -> lookup k0 (assign k v o) = lookup k0 o.
Proof.
  intros Hne. induction o as [| [k' v'] rest IH]; simpl.
  - now rewrite Hne.
  - destruct (String.eqb k k') eqn:E; simpl.
    + apply String.eqb_eq in E. subst k'. now rewrite Hne.
    + now rewrite IH.
Qed.

Lemma lookup_remove_other (k k0 : string) (o : cfg) :
  String.eqb k0 k = false -> lookup k0 (remove k o) = lookup k0 o.
Proof.
  intros Hne. induction o as [| [k' v'] rest IH]; simpl; [reflexivity |].
  destruct (String.eqb k k') eqn:E; simpl.
  - apply String.eqb_eq in E. subst k'. now rewrite Hne.
  - fold (remove k rest). now rewrite IH.
Qed.

Lemma get_path_not_object (q : list string) (v : cfgval) :
  q <> [] -> (forall o, v <> VObj o) -> get_path q v = None.
Proof.
  destruct q as [| k q']; [congruence |]. intros _ Hv.
  destruct v; try reflexivity. now elim (Hv fields).
Qed.

Lemma get_path_empty_object (q : list string) :
  q <> [] -> get_path q (VObj []) = None.
Proof. destruct q; [congruence | reflexivity]. Qed.

Lemma get_path_child (k : string) (q : list string) (o : cfg) :
  q <> [] ->
  get_path q (VObj (child k o)) =
  match lookup k o with
  | Some v' => get_path q v'
  | None => None
  end.
Proof.
  intros Hq. unfold child. destruct (lookup k o) as [v |].
  - destruct v; try (rewrite get_path_empty_object by exact Hq;
                     symmetry; apply get_path_not_object;
                     [exact Hq | discriminate]).
    reflexivity.
  - now apply get_path_empty_object.
Qed.

Lemma is_prefix_nonempty (q p : list string) : is_prefix q p = false -> q <> [].
Proof. destruct q; [discriminate | discriminate]. Qed.

(** Setting a key path leaves every unrelated key path as it was. *)
Lemma get_path_set_unrelated (p : list string) (v : cfgval) :
  forall (q : list string) (o : cfg),
    is_prefix p q = false -> is_prefix q p = false ->
    get_path q (VObj (set_path p v o)) = get_path q (VObj o).
Proof.
  induction p as [| k rest IH]; intros q o Hpq Hqp; [discriminate |].
  destruct q as [| k0 q']; [discriminate |].
  cbn [is_prefix] in Hpq, Hqp.
  destruct (String.eqb k0 k) eqn:E.
  - apply String.eqb_eq in E. subst k0.
    rewrite ?String.eqb_refl in Hpq. rewrite ?String.eqb_refl in Hqp.
    cbn [andb] in Hpq, Hqp.
    destruct rest as [| k' rest']; [discriminate |].
    rewrite set_path_step, !get_path_cons, lookup_assign_same.
    rewrite (IH q' (child k o) Hpq Hqp).
    apply get_path_child. exact (is_prefix_nonempty _ _ Hqp).
  - destruct rest as [| k' rest'].
    + cbn [set_path]. rewrite !get_path_cons.
      now rewrite (lookup_assign_other _ _ _ _ E).
    + rewrite set_path_step, !get_path_cons.
      now rewrite (lookup_assign_other _ _ _ _ E).
Qed.

(** Deleting a key path leaves every unrelated key path as it was. *)
Lemma get_path_delete_unrelated (p : list string) :
  forall (q : list string) (o : cfg),
    is_prefix p q = false -> is_prefix q p = false ->
    get_path q (VObj (delete_path p o)) = get_path q (VObj o).
Proof.
  induction p as [| k rest IH]; intros q o Hpq Hqp; [discriminate |].
  destruct q as [| k0 q']; [discriminate |].
  cbn [is_prefix] in Hpq, Hqp.
  destruct (String.eqb k0 k) eqn:E.
  - apply String.eqb_eq in E. subst k0.
    rewrite ?String.eqb_refl in Hpq. rewrite ?String.eqb_refl in Hqp.
    cbn [andb] in Hpq, Hqp.
    destruct rest as [| k' rest']; [discriminate |].
    rewrite delete_path_step.
    destruct (lookup k o) as [c |] eqn:Hl; [| reflexivity].
    destruct c as [s | b | n | | c]; try reflexivity.
    rewrite !get_path_cons, lookup_assign_same, Hl.
    exact (IH q' c Hpq Hqp).
  - destruct rest as [| k' rest'].
    + cbn [delete_path]. rewrite !get_path_cons.
      now rewrite (lookup_remove_other _ _ _ E).
    + rewrite delete_path_step.
      destruct (lookup k o) as [c |] eqn:Hl; [| reflexivity].
      destruct c as [s | b | n | | c]; try reflexivity.
      rewrite !get_path_cons. now rewrite (lookup_assign_other _ _ _ _ E).
Qed.

(** X14. A setConfig that goes through changes nothing but its own key: in
    the object that is serialised and written, every key path that neither
    extends the updated key path nor is extended by it holds what it held in
    the parsed file, whether the key was set or deleted. *)
Theorem setConfig_frame (w : World) (p key other : string)
  (value : option setvalue) (configFile : cfg) :
  p <> "" -> parse w p = Some configFile ->
  is_prefix (getPathSegments key) (getPathSegments other) = false ->
  is_prefix (getPathSegments other) (getPathSegments key) = false ->
  exists updated,
    setConfig_at w (Some p) key value
      = (Some (ini_stringify w updated), [WriteFile p (ini_stringify w updated)]) /\
    get updated other = get configFile other.
Proof.
  intros Hne Hp Hko Hok. unfold setConfig_at. cbn [JS.truthy].
  apply truthy_string_iff in Hne. rewrite Hne, Hp. cbn [negb].
  destruct value as [v |].
  - exists (set configFile key (cfgval_of v)). split; [reflexivity |].
    now apply get_path_set_unrelated.
  - exists (delete configFile key). split; [reflexivity |].
    now apply get_path_delete_unrelated.
Qed.

Lemma setConfig_frame_witness :
  exists updated,
    setConfig_at Samples.dev_machine (Some "/home/dev/.gitconfig") "user.name"
      (Some (SetStr "Bob"))
      = (Some (Samples.render updated),
         [WriteFile "/home/dev/.gitconfig" (Samples.render updated)]) /\
    get updated "user.email" = get Samples.global_config "user.email".
Proof.
  apply (setConfig_frame Samples.dev_machine "/home/dev/.gitconfig" "user.name"
           "user.email" (Some (SetStr "Bob")) Samples.global_config);
    [discriminate | reflexivity | reflexivity | reflexivity].
Defined.

End ConfigMore.

(* ------------------------------------------------------------------ *)
(** ** clone and the old-git checkout, beyond the branches *)

Section CloneMore.

Lemma append_assoc (a b c : string) :
  ((a ++ b) ++ c)%string = (a ++ b ++ c)%string.
Proof. induction a as [| x a IH]; simpl; [reflexivity | now rewrite IH]. Qed.

(** X15. The filter of the local copy is closed under extension: once a path
    is left out, every path that contains it is left out too, so nothing
    below an excluded directory is copied, and a source root that itself lies
    under a [node_modules] directory is not copied at all; conversely every
    part of a path that is copied would be copied. *)
Theorem copy_filter_closed (path : string) :
  (copy_filter path = false ->
   forall before after : string,
     copy_filter (before ++ path ++ after) = false) /\
  (forall before after : string,
     copy_filter (before ++ path ++ after) = true -> copy_filter path = true).
Proof.
  assert (H : copy_filter path = false ->
              forall before after : string,
                copy_filter (before ++ path ++ after) = false).
  { intros Hf before after. apply copy_filter_spec in Hf as [x [y ->]].
    apply copy_filter_spec. exists (before ++ x)%string, (y ++ after)%string.
    now rewrite !append_assoc. }
  split; [exact H |].
  intros before after Ht. destruct (copy_filter path) eqn:E; [reflexivity |].
  rewrite (H eq_refl before after) in Ht. discriminate.
Qed.

Lemma copy_filter_closed_witness :
  copy_filter ("/home/dev" ++ "/node_modules" ++ "/pkg/index.js") = false.
Proof.
  apply (proj1 (copy_filter_closed "/node_modules") eq_refl "/home/dev"
           "/pkg/index.js").
Defined.

(** X16. The deprecated clone answers [false] exactly when [dir] is empty or
    neither [url] nor [repo] is given, and then it has done nothing; whenever
    it answers [true] it has issued at least one call; and when it is rejected
    it has issued the copy and the creation of the branch, and nothing else. *)
Theorem old_clone_false_iff_idle (w : World) (a : OldGit.clone_args) :
  (fst (OldGit.clone w a) = Ok false <->
   OldGit.cl_dir a = "" \/ (OldGit.cl_url a = None /\ OldGit.cl_repo a = None)) /\
  (fst (OldGit.clone w a) = Ok false -> snd (OldGit.clone w a) = []) /\
  (fst (OldGit.clone w a) = Ok true -> snd (OldGit.clone w a) <> []) /\
  (fst (OldGit.clone w a) = Throws ->
   exists root t,
     snd (OldGit.clone w a)
       = [FsCopy root (OldGit.cl_dir a) copy_filter;
          IsogitBranch (OldGit.cl_dir a) t false]).
Proof.
  unfold OldGit.clone.
  destruct (OldGit.cl_dir a) as [| c d] eqn:Hd; cbn [String.length Nat.eqb].
  - repeat apply conj; try reflexivity; try discriminate.
    + now left.
  - destruct (OldGit.cl_url a) as [u |].
    + cbn. repeat apply conj; try discriminate.
      intros [H | [H _]]; discriminate.
    + destruct (OldGit.cl_repo a) as [[root rurl] |].
      * match goal with
        | |- context [if ?b then _ else _] => destruct b
        end.
        -- destruct (isogit_branch w _ _); cbn [fst snd].
           ++ repeat apply conj; try discriminate.
              intros [H | [_ H]]; discriminate.
           ++ repeat apply conj; try discriminate.
              ** intros [H | [_ H]]; discriminate.
              ** intros _. eexists. eexists. reflexivity.
        -- cbn. repeat apply conj; try discriminate.
           intros [H | [_ H]]; discriminate.
      * cbn. repeat apply conj; try reflexivity; try discriminate.
        intros _. now right.
Qed.

(** X17. Without [overwrite] the deprecated checkout never calls
    isomorphic-git's checkout, and it deletes a branch only when the branch
    is a local one, is checked out in no worktree, and the server either has
    no such branch or has it at the very commit the local branch points to;
    the deletion is always followed by the creation of the linked worktree
    for the same branch. For a branch that some worktree has checked out, and
    for a local branch whose commit differs from the server's, nothing is
    done at all. *)
Theorem old_checkout_preserves_local_commits (w : World) (a : OldGit.checkout_args) :
  let dir := OldGit.co_dir a in
  let ref := JS.with_default "HEAD" (OldGit.co_ref a) in
  let url := JS.with_default "" (OldGit.co_url a) in
  let add := WorktreeAdd dir (OldGit.linkedRoot w dir ref) ref in
  JS.with_default false (OldGit.co_overwrite a) = false ->
  (forall c, ~ In (IsogitCheckout c) (OldGit.checkout w a)) /\
  (forall d r, In (IsogitDeleteBranch d r) (OldGit.checkout w a) ->
     OldGit.checkout w a = [IsogitDeleteBranch dir ref; add] /\
     In ref (listLocalBranches w dir) /\
     (forall refs, worktree_list_refs w dir = Some refs -> ~ In ref refs) /\
     (forall oid, listServerRefs_first_oid w url ("refs/heads/" ++ ref) = Some oid ->
                  resolveRef w dir ref = oid)) /\
  (forall refs, In ref (listLocalBranches w dir) ->
     worktree_list_refs w dir = Some refs -> In ref refs ->
     OldGit.checkout w a = []) /\
  (forall oid, In ref (listLocalBranches w dir) ->
     listServerRefs_first_oid w url ("refs/heads/" ++ ref) = Some oid ->
     resolveRef w dir ref <> oid ->
     OldGit.checkout w a = []) /\
  (~ In ref (listLocalBranches w dir) -> OldGit.checkout w a = [add]).
Proof.
  intros dir ref url add Ho. unfold OldGit.checkout. rewrite Ho.
  fold dir ref url. fold add.
  destruct (JS.array_includes (listLocalBranches w dir) ref) eqn:Hl.
  - apply array_includes_In in Hl.
    destruct (worktree_list_refs w dir) as [refs |] eqn:Hw.
    + destruct (JS.array_includes refs ref) eqn:Hr.
      * apply array_includes_In in Hr.
        split; [intros c []|]. split; [intros d r []|].
        split; [reflexivity |]. split; [reflexivity |]. intros H. contradiction.
      * apply array_includes_not_In in Hr.
        destruct (listServerRefs_first_oid w url ("refs/heads/" ++ ref))
          as [oid |] eqn:Hs.
        -- destruct (String.eqb (resolveRef w dir ref) oid) eqn:He; cbn [negb].
           ++ apply String.eqb_eq in He.
              split; [intros c [H | [H | []]]; discriminate |].
              split.
              { intros d r _. split; [reflexivity |]. split; [exact Hl |].
                split; [intros refs' E; inversion E; now subst |].
                intros oid' E. inversion E; now subst. }
              split; [intros refs' _ E Hin; inversion E; subst; contradiction |].
              split; [intros oid' _ E Hne; inversion E; subst; contradiction |].
              intros H. contradiction.
           ++ apply String.eqb_neq in He.
              split; [intros c [] |]. split; [intros d r [] |].
              split; [reflexivity |]. split; [reflexivity |].
              intros H. contradiction.
        -- split; [intros c [H | [H | []]]; discriminate |].
           split.
           { intros d r _. split; [reflexivity |]. split; [exact Hl |].
             split; [intros refs' E; inversion E; now subst |].
             intros oid E. discriminate. }
           split; [intros refs' _ E Hin; inversion E; subst; contradiction |].
           split; [intros oid _ E; discriminate |].
           intros H. contradiction.
    + destruct (listServerRefs_first_oid w url ("refs/heads/" ++ ref))
        as [oid |] eqn:Hs.
      * destruct (String.eqb (resolveRef w dir ref) oid) eqn:He; cbn [negb].
        -- apply String.eqb_eq in He.
           split; [intros c [H | [H | []]]; discriminate |].
           split.
           { intros d r _. split; [reflexivity |]. split; [exact Hl |].
             split; [intros refs' E; discriminate |].
             intros oid' E. inversion E; now subst. }
           split; [intros refs' _ E; discriminate |].
           split; [intros oid' _ E Hne; inversion E; subst; contradiction |].
           intros H. contradiction.
        -- apply String.eqb_neq in He.
           split; [intros c [] |]. split; [intros d r [] |].
           split; [intros refs' _ E; discriminate |]. split; [reflexivity |].
           intros H. contradiction.
      * split; [intros c [H | [H | []]]; discriminate |].
        split.
        { intros d r _. split; [reflexivity |]. split; [exact Hl |].
          split; [intros refs' E; discriminate |].
          intros oid E. discriminate. }
        split; [intros refs' _ E; discriminate |].
        split; [intros oid _ E; discriminate |].
        intros H. contradiction.
  - apply array_includes_not_In in Hl.
    split; [intros c [H | []]; discriminate |].
    split; [intros d r [H | []]; discriminate |].
    split; [intros refs Hin; contradiction |].
    split; [intros oid Hin; contradiction |].
    reflexivity.
Qed.

Lemma old_checkout_preserves_local_commits_witness :
  OldGit.checkout Samples2.linked_machine Samples2.checkout_stale = [].
Proof.
  apply (proj1 (proj2 (proj2 (proj2
           (old_checkout_preserves_local_commits Samples2.linked_machine
              Samples2.checkout_stale eq_refl)))) "c2").
  - simpl. tauto.
  - reflexivity.
  - discriminate.
Defined.

End CloneMore.

(* ------------------------------------------------------------------ *)
(** ** Branch names read from files, commits read from the history *)

Section BranchesMore.

Ltac bytes :=
  repeat match goal with
         | H : (_ || _)%bool = true |- _ =>
             apply orb_true_iff in H; destruct H as [H | H]
         | H : (_ && _)%bool = true |- _ =>
             apply andb_true_iff in H; destruct H
         | H : Ascii.eqb _ _ = true |- _ => apply Ascii.eqb_eq in H; subst
         | H : false = true |- _ => discriminate H
         end.

Lemma white1_first (c : ascii) :
  JSText.white1 c = true -> JSText.continuation c = false.
Proof.
  unfold JSText.white1, Regex.mem. cbn [existsb]. intros H. bytes; reflexivity.
Qed.

Lemma white2_bytes (c1 c2 : ascii) :
  JSText.white2 c1 c2 = true -> JSText.continuation c1 = false /\ JSText.continuation c2 = true.
Proof. unfold JSText.white2. intros H. bytes. now split. Qed.

Lemma white3_bytes (c1 c2 c3 : ascii) :
  JSText.white3 c1 c2 c3 = true ->
  JSText.continuation c1 = false /\ JSText.continuation c2 = true /\ JSText.continuation c3 = true.
Proof.
  unfold JSText.white3, Regex.mem. cbn [existsb]. intros H.
  bytes; repeat split.
Qed.

(** White space begins with a byte that continues no character. *)
Lemma blank_first (c : ascii) (r : string) :
  JSText.trim_start (String c r) = "" -> JSText.continuation c = false.
Proof.
  cbn [JSText.trim_start].
  destruct (JSText.white1 c) eqn:E1; [intros _; now apply white1_first |].
  destruct r as [| c2 r2]; [discriminate |].
  destruct (JSText.white2 c c2) eqn:E2;
    [intros _; now apply (white2_bytes c c2) |].
  destruct r2 as [| c3 r3]; [discriminate |].
  destruct (JSText.white3 c c2 c3) eqn:E3;
    [intros _; now apply (white3_bytes c c2 c3) | discriminate].
Qed.

Lemma white2_not (c1 c2 : ascii) :
  JSText.continuation c2 = false -> JSText.white2 c1 c2 = false.
Proof.
  intros H. destruct (JSText.white2 c1 c2) eqn:E; [| reflexivity].
  apply white2_bytes in E. destruct E. congruence.
Qed.

Lemma white3_not (c1 c2 c3 : ascii) :
  JSText.continuation c2 = false \/ JSText.continuation c3 = false ->
  JSText.white3 c1 c2 c3 = false.
Proof.
  intros H. destruct (JSText.white3 c1 c2 c3) eqn:E; [| reflexivity].
  apply white3_bytes in E. destruct E as [_ [E2 E3]].
  destruct H; congruence.
Qed.

(** White space after a text is stripped from the front only when the text
    itself is white space throughout. *)
Lemma trim_start_app_blank (t : string) :
  JSText.trim_start t = "" ->
  forall s : string,
    JSText.trim_start (s ++ t) =
      match JSText.trim_start s with
      | EmptyString => EmptyString
      | String c r => (String c r ++ t)%string
      end.
Proof.
  intros Ht.
  assert (Hhead : forall c r, t = String c r -> JSText.continuation c = false).
  { intros c r E. apply (blank_first c r). now rewrite <- E. }
  assert (H : forall n s, String.length s <= n ->
     JSText.trim_start (s ++ t) =
      match JSText.trim_start s with
      | EmptyString => EmptyString
      | String c r => (String c r ++ t)%string
      end).
  { induction n as [| n IH]; intros s Hn.
    - destruct s; [exact Ht | cbn in Hn; lia].
    - destruct s as [| c1 r1]; [exact Ht |].
      cbn [String.length] in Hn.
      cbn [append JSText.trim_start].
      destruct (JSText.white1 c1) eqn:E1; [apply IH; lia |].
      destruct r1 as [| c2 r2].
      + cbn [append]. destruct t as [| d1 t1]; [reflexivity |].
        rewrite (white2_not c1 d1 (Hhead d1 t1 eq_refl)).
        destruct t1 as [| d2 t2]; [reflexivity |].
        now rewrite (white3_not c1 d1 d2 (or_introl (Hhead d1 _ eq_refl))).
      + cbn [append String.length] in *.
        destruct (JSText.white2 c1 c2) eqn:E2; [apply IH; lia |].
        destruct r2 as [| c3 r3].
        * cbn [append]. destruct t as [| d1 t1]; [reflexivity |].
          now rewrite (white3_not c1 c2 d1 (or_intror (Hhead d1 t1 eq_refl))).
        * cbn [append String.length] in *.
          destruct (JSText.white3 c1 c2 c3) eqn:E3; [apply IH; lia |].
          reflexivity. }
  intros s. now apply (H (String.length s)).
Qed.

Lemma blank_app (s t : string) :
  JSText.trim_start t = "" -> JSText.blank (s ++ t) = JSText.blank s.
Proof.
  intros Ht. unfold JSText.blank. rewrite (trim_start_app_blank t Ht s).
  now destruct (JSText.trim_start s).
Qed.

Lemma trim_end_app_blank (s t : string) :
  JSText.trim_start t = "" ->
  JSText.trim_end (s ++ t) = JSText.trim_end s.
Proof.
  intros Ht. induction s as [| c r IH].
  - cbn [append]. destruct t as [| d t']; [reflexivity |].
    cbn [JSText.trim_end]. unfold JSText.blank. now rewrite Ht.
  - cbn [append JSText.trim_end].
    change (String c (r ++ t)) with (String c r ++ t)%string.
    now rewrite (blank_app (String c r) t Ht), IH.
Qed.

(** A trimmed string followed by white space only is given back by [trim]. *)
Lemma trim_app_blank (p t : string) :
  JSText.trim_start p = p -> JSText.trim_end p = p ->
  JSText.trim_start t = "" ->
  JSText.trim (p ++ t) = p.
Proof.
  intros Hs He Ht. unfold JSText.trim.
  rewrite (trim_start_app_blank t Ht p), Hs.
  destruct p as [| c r]; [reflexivity |].
  now rewrite trim_end_app_blank.
Qed.

Lemma slice_from_app (p s : string) :
  JSText.slice_from (String.length p) (p ++ s) = s.
Proof. induction p as [| c p IH]; [now destruct s | exact IH]. Qed.

Lemma slice_from_short (n : nat) (s : string) :
  String.length s <= n -> JSText.slice_from n s = "".
Proof.
  revert s. induction n as [| n IH]; intros [| c s] H; cbn in *;
    try reflexivity; try lia.
  apply IH. lia.
Qed.

(** X18. In a linked worktree currentBranch asks isomorphic-git about the
    directory named in the worktree's [.git] file: when the file holds
    [gitdir: ] followed by a path without white space at its ends and then
    white space only, both [dir] and [gitdir] of the query are that path. The
    prefix is dropped by length and not compared, so a file of at most eight
    characters gives a query on the empty path. *)
Theorem currentBranch_linked_worktree (w : World) (h : Host)
  (a : PorcelainMore.currentBranch_args) (content : string) :
  let gitdir :=
    JS.with_default (path_join w (PorcelainMore.cb_dir a) ".git")
      (PorcelainMore.cb_gitdir a) in
  let query := fun p =>
    {| bq_dir := p; bq_gitdir := p;
       bq_fullname := PorcelainMore.cb_fullname a;
       bq_test := PorcelainMore.cb_test a |} in
  isLinkedWorktree w gitdir = true ->
  readFile h gitdir = Some content ->
  (forall p t : string,
     content = ("gitdir: " ++ p ++ t)%string ->
     JSText.trim_start p = p -> JSText.trim_end p = p ->
     JSText.trim_start t = "" ->
     PorcelainMore.currentBranch w h a = Ok (isogit_currentBranch h (query p))) /\
  (String.length content <= 8 ->
   PorcelainMore.currentBranch w h a = Ok (isogit_currentBranch h (query ""))).
Proof.
  intros gitdir query Hl Hr.
  unfold PorcelainMore.currentBranch, PorcelainMore.currentBranch_query.
  fold gitdir. rewrite Hl, Hr. unfold PorcelainMore.worktreedir_of. split.
  - intros p t -> Hs He Ht. rewrite slice_from_app.
    now rewrite (trim_app_blank p t Hs He Ht).
  - intros Hn. now rewrite slice_from_short.
Qed.

Lemma currentBranch_linked_worktree_witness :
  PorcelainMore.currentBranch Samples2.linked_machine Samples2.dev_host
    {| PorcelainMore.cb_dir := "linked"; PorcelainMore.cb_gitdir := None;
       PorcelainMore.cb_fullname := Some false; PorcelainMore.cb_test := None |}
  = Ok (Some "feature").
Proof.
  apply (proj1 (currentBranch_linked_worktree Samples2.linked_machine
                  Samples2.dev_host
                  {| PorcelainMore.cb_dir := "linked";
                     PorcelainMore.cb_gitdir := None;
                     PorcelainMore.cb_fullname := Some false;
                     PorcelainMore.cb_test := None |}
                  ("gitdir: repo/.git/worktrees/feature" ++ Worktree.nl)
                  eq_refl eq_refl)
           "repo/.git/worktrees/feature" Worktree.nl);
    reflexivity.
Defined.

(** X19. defaultBranch gives the branch that [refs/remotes/origin/HEAD]
    names: for a file holding [ref: refs/remotes/origin/] followed by a name
    without white space at its ends and then white space only, the result is
    that name. The prefix is dropped by length and not compared, so a file of
    at most 25 characters gives the empty name. *)
Theorem defaultBranch_reads_origin_head (w : World) (h : Host) (dir : string)
  (gitdir : option string) (content : string) :
  let gitdir' := JS.with_default (path_join w dir ".git") gitdir in
  let head :=
    path_join w (path_join w (path_join w (path_join w gitdir' "refs") "remotes")
                   "origin") "HEAD" in
  readFile h head = Some content ->
  (forall b t : string,
     content = ("ref: refs/remotes/origin/" ++ b ++ t)%string ->
     JSText.trim_start b = b -> JSText.trim_end b = b ->
     JSText.trim_start t = "" ->
     OldGitMore.defaultBranch w h dir gitdir = Ok b) /\
  (String.length content <= 25 ->
   OldGitMore.defaultBranch w h dir gitdir = Ok "").
Proof.
  intros gitdir' head Hr. unfold OldGitMore.defaultBranch.
  fold gitdir'. fold head. rewrite Hr. unfold OldGitMore.default_of. split.
  - intros b t -> Hs He Ht. rewrite slice_from_app.
    now rewrite (trim_app_blank b t Hs He Ht).
  - intros Hn. now rewrite slice_from_short.
Qed.

Lemma defaultBranch_reads_origin_head_witness :
  OldGitMore.defaultBranch Samples2.linked_machine Samples2.dev_host "repo" None
  = Ok "main".
Proof.
  apply (proj1 (defaultBranch_reads_origin_head Samples2.linked_machine
                  Samples2.dev_host "repo" None
                  ("ref: refs/remotes/origin/main" ++ Worktree.nl) eq_refl)
           "main" Worktree.nl);
    reflexivity.
Defined.

Lemma last_cons_default (x d d' : string) (l : list string) :
  List.last (x :: l) d = List.last (x :: l) d'.
Proof.
  revert x. induction l as [| y l IH]; intros x; [reflexivity |].
  change (List.last (y :: l) d = List.last (y :: l) d'). apply IH.
Qed.

Lemma pop_firstn (l : list string) (n : nat) :
  PorcelainMore.pop (firstn (S n) l) =
    nth_error l (Nat.min n (List.length l - 1)).
Proof.
  revert l. induction n as [| n IH]; intros [| x [| y l]]; try reflexivity.
  specialize (IH (y :: l)).
  cbn [List.length Nat.sub Nat.min nth_error] in *.
  rewrite Nat.sub_0_r in *. rewrite <- IH.
  cbn [firstn PorcelainMore.pop]. f_equal.
  change (List.last (y :: firstn n l) x = List.last (firstn n l) y).
  destruct (firstn n l) as [| z r]; [reflexivity |].
  change (List.last (z :: r) x = List.last (z :: r) y).
  apply last_cons_default.
Qed.

(** X20. resolveRef on [HEAD~n], for a log that hands out the first [depth]
    commits of the history, newest first: the result is the n-th ancestor of
    the newest commit when the history reaches that far, the oldest commit of
    the history when it is shorter, and undefined only when there is no
    commit at all. *)
Theorem resolveRef_head_tilde (h : Host) (dir ref : string) (n : nat)
  (history : list string) :
  JSText.head_tilde_count ref = Some n ->
  (forall depth, isogit_log h dir depth = firstn depth history) ->
  (n < List.length history ->
   PorcelainMore.resolveRef h dir ref = nth_error history n) /\
  (List.length history <= n ->
   PorcelainMore.resolveRef h dir ref =
     nth_error history (List.length history - 1)) /\
  (PorcelainMore.resolveRef h dir ref = None <-> history = []).
Proof.
  intros Hc Hlog. unfold PorcelainMore.resolveRef. rewrite Hc, Hlog.
  rewrite Nat.add_1_r, pop_firstn. split; [| split].
  - intros Hn. f_equal. lia.
  - intros Hn. f_equal. lia.
  - rewrite nth_error_None. destruct history as [| x l]; cbn [List.length].
    + split; [reflexivity | lia].
    + split; [lia | discriminate].
Qed.

Lemma resolveRef_head_tilde_witness :
  PorcelainMore.resolveRef Samples2.dev_host "repo" "HEAD~1" = Some "c2" /\
  PorcelainMore.resolveRef Samples2.dev_host "repo" "HEAD~12" = Some "c1".
Proof.
  split.
  - apply (proj1 (resolveRef_head_tilde Samples2.dev_host "repo" "HEAD~1" 1
                    ["c3"; "c2"; "c1"] eq_refl (fun _ => eq_refl))).
    cbn. lia.
  - apply (proj1 (proj2 (resolveRef_head_tilde Samples2.dev_host "repo"
                           "HEAD~12" 12 ["c3"; "c2"; "c1"] eq_refl
                           (fun _ => eq_refl)))).
    cbn. lia.
Defined.

End BranchesMore.

(* ------------------------------------------------------------------ *)
(** ** The callers in containers/metafiles.ts and store/thunks *)

Section CallersMore.

Lemma filter_split_permutation (f : string -> bool) (l : list string) :
  Permutation l (filter f l ++ filter (fun x => negb (f x)) l).
Proof.
  induction l as [| x l IH]; cbn [filter]; [constructor |].
  destruct (f x); cbn [negb app].
  - now constructor.
  - now apply Permutation_cons_app.
Qed.

Lemma files_are_not_directories (w : World) (contains : list string) :
  filter (fun childPath =>
            negb (JS.array_includes (filter (isDirectory w) contains) childPath))
    contains
  = filter (fun childPath => negb (isDirectory w childPath)) contains.
Proof.
  apply filter_ext_in. intros p Hin. f_equal.
  destruct (isDirectory w p) eqn:E.
  - apply array_includes_In. apply filter_In. now split.
  - apply array_includes_not_In. intros H. apply filter_In in H as [_ H].
    congruence.
Qed.

(** X21. filterDirectoryContainsTypes sorts the contained paths into two
    disjoint lists: the directories are the contained paths that are
    directories, hidden or not; the files are the contained paths that are
    not directories, less the hidden ones when [includeHidden] is false.
    Unless [includeHidden] is false no path is lost or repeated: the two
    lists together are a rearrangement of [contains]. *)
Theorem filterDirectoryContainsTypes_partition (w : World) (h : Host)
  (contains : list string) (includeHidden : option bool) :
  let r := Callers.filterDirectoryContainsTypes w h contains includeHidden in
  (forall p, In p (fst r) <-> In p contains /\ isDirectory w p = true) /\
  (forall p, In p (snd r) <->
     In p contains /\ isDirectory w p = false /\
     (includeHidden = Some false -> isHiddenFile h p = false)) /\
  (forall p, In p (fst r) -> ~ In p (snd r)) /\
  (includeHidden <> Some false -> Permutation contains (fst r ++ snd r)).
Proof.
  intros r.
  assert (Hd : forall p, In p (fst r) <-> In p contains /\ isDirectory w p = true).
  { intros p. apply filter_In. }
  assert (Hf : forall p, In p (snd r) <->
     In p contains /\ isDirectory w p = false /\
     (includeHidden = Some false -> isHiddenFile h p = false)).
  { intros p. subst r. unfold Callers.filterDirectoryContainsTypes.
    cbn [snd]. rewrite files_are_not_directories.
    destruct includeHidden as [[|] |]; cbn [JS.with_default Bool.eqb];
      rewrite ?filter_In, ?negb_true_iff.
    - split; [intros [H1 H2]; repeat split; [assumption .. | discriminate] |].
      intros [H1 [H2 _]]. now split.
    - split; [intros [[H1 H2] H3]; now repeat split |].
      intros [H1 [H2 H3]]. repeat split; auto.
    - split; [intros [H1 H2]; repeat split; [assumption .. | discriminate] |].
      intros [H1 [H2 _]]. now split. }
  split; [exact Hd |]. split; [exact Hf |]. split.
  - intros p H1 H2. apply Hd in H1 as [_ H1]. apply Hf in H2 as [_ [H2 _]].
    congruence.
  - intros Hh. subst r. unfold Callers.filterDirectoryContainsTypes.
    cbn [fst snd]. rewrite files_are_not_directories.
    assert (E : Bool.eqb (JS.with_default true includeHidden) false = false).
    { destruct includeHidden as [[|] |]; try reflexivity. now elim Hh. }
    rewrite E. apply filter_split_permutation.
Qed.

(** X22. fetchVersionControl never records the name of a branch: its [branch]
    is either left out or the literal [HEAD], the latter exactly when a
    repository was found and the root has no current branch. Outside a
    repository, and when the store has no repository for the path, all three
    fields are left out; for a directory of a known repository the status is
    always one of [modified] and [unmodified]. *)
Theorem fetchVersionControl_fields (w : World) (h : Host) (path : string) :
  let info := Callers.fetchVersionControl w h path in
  (Callers.gi_branch info = None \/ Callers.gi_branch info = Some "HEAD") /\
  (Callers.gi_branch info = Some "HEAD" <->
   exists root repo,
     PorcelainMore.getRepoRoot h path = Some root /\ root <> "" /\
     fetchRepo h path = Some repo /\
     JS.truthy (currentBranchOf w root) = false) /\
  (PorcelainMore.getRepoRoot h path = None -> info = Callers.no_info) /\
  (Callers.gi_repo info = None -> info = Callers.no_info) /\
  (Callers.gi_repo info <> None -> isDirectory w path = true ->
   Callers.gi_status info = Some modified \/ Callers.gi_status info = Some unmodified).
Proof.
  intros info. subst info. unfold Callers.fetchVersionControl.
  destruct (PorcelainMore.getRepoRoot h path) as [root |] eqn:Hroot;
    cbn [JS.truthy].
  2: { cbn. repeat split; auto; try discriminate.
       - intros [root [repo [H _]]]. discriminate.
       - intros H. now elim H. }
  destruct (JS.truthy_string root) eqn:Ht.
  2: { cbn. repeat split; auto; try discriminate.
       - intros [root' [repo [H [Hne _]]]]. inversion H; subst root'.
         apply truthy_string_iff in Hne. congruence.
       - intros H. now elim H. }
  apply truthy_string_iff in Ht.
  destruct (fetchRepo h path) as [[id repo_root] |] eqn:Hrepo.
  2: { cbn. repeat split; auto; try discriminate.
       - intros [root' [repo [_ [_ [H _]]]]]. discriminate.
       - intros H. now elim H. }
  cbn [JS.with_default Callers.gi_repo Callers.gi_branch Callers.gi_status].
  destruct (JS.truthy (currentBranchOf w root)) eqn:Hc; cbn [negb].
  - split; [now left |]. split.
    { split; [discriminate |].
      intros [root' [repo [H [_ [_ Hf]]]]]. inversion H; subst root'. congruence. }
    split; [discriminate |]. split; [discriminate |].
    intros _ Hd. unfold Porcelain.getStatus. rewrite Hd.
    destruct (Nat.ltb 0 _); [now left | now right].
  - split; [now right |]. split.
    { split; [| reflexivity]. intros _. exists root, (id, repo_root).
      now repeat split. }
    split; [discriminate |]. split; [discriminate |].
    intros _ Hd. unfold Porcelain.getStatus. rewrite Hd.
    destruct (Nat.ltb 0 _); [now left | now right].
Qed.

(** X23. updateGitInfo updates the metafile only with a complete record: a
    non-empty repository id, the status that getStatus gives for the path,
    and a non-empty branch, which is the current branch of the root that
    getRepoRoot found, or [HEAD] when there is none. *)
Theorem updateGitInfo_dispatches_complete_info (w : World) (h : Host)
  (path : string) (known : option (string * string)) (info : Callers.GitInfo) :
  Callers.updateGitInfo w h path known = Some info ->
  (exists id, Callers.gi_repo info = Some id /\ id <> "") /\
  (exists status, Callers.gi_status info = Some status /\
                  Porcelain.getStatus w path = Some status) /\
  (exists root branch,
     PorcelainMore.getRepoRoot h path = Some root /\ root <> "" /\
     Callers.gi_branch info = Some branch /\ branch <> "" /\
     (branch = "HEAD" \/ currentBranchOf w root = Some branch)).
Proof.
  unfold Callers.updateGitInfo.
  destruct (PorcelainMore.getRepoRoot h path) as [root |]; [| discriminate].
  destruct (JS.truthy_string root) eqn:Ht; cbn [negb]; [| discriminate].
  apply truthy_string_iff in Ht.
  set (repo := match known with Some r => Some r | None => getRepository h path end).
  destruct repo as [[id rr] |]; cbn [option_map fst Callers.gi_repo Callers.gi_status];
    [| discriminate].
  destruct (Porcelain.getStatus w path) as [st |] eqn:Hs; [| discriminate].
  destruct (JS.truthy_string id) eqn:Hid; [| discriminate].
  apply truthy_string_iff in Hid.
  intros E. inversion E; subst info; clear E.
  cbn [Callers.gi_repo Callers.gi_status Callers.gi_branch].
  split; [now exists id |]. split; [now exists st |].
  exists root. destruct (currentBranchOf w root) as [b |] eqn:Hb; cbn [JS.truthy].
  - destruct (JS.truthy_string b) eqn:Hbt; cbn [JS.with_default].
    + apply truthy_string_iff in Hbt. exists b. repeat split; auto.
    + exists "HEAD". repeat split; auto. discriminate.
  - exists "HEAD". repeat split; auto. discriminate.
Qed.

Lemma updateGitInfo_dispatches_complete_info_witness :
  exists status,
    Porcelain.getStatus Samples2.linked_machine "repo/a.txt" = Some status.
Proof.
  destruct (updateGitInfo_dispatches_complete_info Samples2.linked_machine
              Samples2.dev_host "repo/a.txt" None
              {| Callers.gi_repo := Some "r1"; Callers.gi_branch := Some "main";
                 Callers.gi_status := Some star_modified |} eq_refl)
    as [_ [[status [_ Hs]] _]].
  exists status. exact Hs.
Defined.

(** X24. The two ways of filling the git fields of a metafile agree on the
    status and differ on the branch: whenever updateGitInfo updates the
    metafile and fetchRepo resolves a repository for the same path,
    fetchVersionControl yields the status that updateGitInfo recorded, and
    its branch is either the same [HEAD] or left out, the latter exactly when
    updateGitInfo recorded the name of a current branch. The repository ids
    come from two different lookups and are not compared. *)
Theorem updateGitInfo_agrees_with_fetchVersionControl (w : World) (h : Host)
  (path : string) (known : option (string * string)) (info : Callers.GitInfo)
  (repo : string * string) :
  Callers.updateGitInfo w h path known = Some info ->
  fetchRepo h path = Some repo ->
  let fetched := Callers.fetchVersionControl w h path in
  Callers.gi_repo fetched = Some (fst repo) /\
  Callers.gi_status fetched = Callers.gi_status info /\
  (Callers.gi_branch fetched = Callers.gi_branch info \/
   Callers.gi_branch fetched = None) /\
  (Callers.gi_branch fetched = None <->
   Callers.gi_branch info <> Some "HEAD" \/
   exists root, PorcelainMore.getRepoRoot h path = Some root /\
                currentBranchOf w root = Some "HEAD").
Proof.
  unfold Callers.updateGitInfo, Callers.fetchVersionControl.
  destruct (PorcelainMore.getRepoRoot h path) as [root |]; [| discriminate].
  cbn [JS.truthy].
  destruct (JS.truthy_string root) eqn:Ht; cbn [negb]; [| discriminate].
  set (own := match known with Some r => Some r | None => getRepository h path end).
  destruct own as [[id rr] |]; cbn [option_map fst Callers.gi_repo Callers.gi_status];
    [| discriminate].
  destruct (Porcelain.getStatus w path) as [st |] eqn:Hs; [| discriminate].
  destruct (JS.truthy_string id) eqn:Hid; [| discriminate].
  intros E Hf. inversion E; subst info; clear E. rewrite Hf.
  destruct repo as [id' rr'].
  cbn [JS.with_default fst Callers.gi_repo Callers.gi_status Callers.gi_branch].
  split; [reflexivity |]. split; [reflexivity |].
  destruct (currentBranchOf w root) as [b |] eqn:Hb; cbn [JS.truthy].
  - destruct (JS.truthy_string b) eqn:Hbt; cbn [negb JS.with_default].
    + split; [now right |]. split; [| reflexivity]. intros _.
      destruct (String.eqb_spec b "HEAD") as [-> | Hne].
      * right. exists root. now split.
      * left. congruence.
    + split; [now left |]. split; [discriminate |].
      intros [H | [root' [H1 H2]]]; [now elim H |].
      inversion H1; subst root'. rewrite Hb in H2. inversion H2; subst b.
      discriminate.
  - split; [now left |]. split; [discriminate |].
    intros [H | [root' [H1 H2]]]; [now elim H |].
    inversion H1; subst root'. congruence.
Qed.

Lemma updateGitInfo_agrees_with_fetchVersionControl_witness :
  Callers.gi_branch (Callers.fetchVersionControl Samples2.linked_machine
                       Samples2.dev_host "repo/a.txt") = None.
Proof.
  apply (proj2 (proj2 (proj2
           (updateGitInfo_agrees_with_fetchVersionControl
              Samples2.linked_machine Samples2.dev_host "repo/a.txt" None
              {| Callers.gi_repo := Some "r1"; Callers.gi_branch := Some "main";
                 Callers.gi_status := Some star_modified |}
              ("r1", "repo") eq_refl eq_refl)))).
  left. discriminate.
Defined.

End CallersMore.

(* ------------------------------------------------------------------ *)
(** ** worktreeStatus on what git prints *)

Section StatusOutput.
Import Pattern GitStatusTs.

Lemma hd_error_map {A B : Type} (f : A -> B) (l : list A) :
  hd_error (map f l) = option_map f (hd_error l).
Proof. now destruct l. Qed.

Lemma take_while_split (ok : ascii -> bool) (l : list ascii) :
  l = take_while ok l ++ skipn (List.length (take_while ok l)) l.
Proof.
  induction l as [| c r IH]; [reflexivity |]. cbn [take_while].
  destruct (ok c); [| reflexivity]. cbn [List.length skipn app]. now f_equal.
Qed.

Lemma take_while_all (ok : ascii -> bool) (l : list ascii) :
  forallb ok (take_while ok l) = true.
Proof.
  induction l as [| c r IH]; [reflexivity |]. cbn [take_while].
  destruct (ok c) eqn:E; [| reflexivity]. cbn [forallb]. now rewrite E.
Qed.

(** The first way of a greedy repetition is the longest run. *)
Lemma runs_head (ok : ascii -> bool) (a b : list ascii) :
  hd_error (runs ok b a) =
    match take_while ok a with
    | [] => None
    | _ :: _ =>
        Some (rev (take_while ok a) ++ b,
              skipn (List.length (take_while ok a)) a)
    end.
Proof.
  revert b. induction a as [| c r IH]; intros b; [reflexivity |].
  cbn [runs take_while]. destruct (ok c); [| reflexivity].
  specialize (IH (c :: b)).
  destruct (runs ok (c :: b) r) as [| x xs] eqn:E; cbn [app hd_error] in *.
  - destruct (take_while ok r); [reflexivity | discriminate].
  - destruct (take_while ok r) as [| d t] eqn:Et; [discriminate |].
    rewrite IH. cbn [rev List.length skipn]. now rewrite <- !app_assoc.
Qed.

Lemma between_forward (b b' t a' : list ascii) (g g' : list (nat * list ascii)) :
  between {| before := b; after := t ++ a'; groups := g |}
          {| before := b'; after := a'; groups := g' |} = t.
Proof.
  unfold between. cbn [after]. rewrite length_app.
  replace (Nat.leb (List.length a') (List.length t + List.length a')) with true
    by (symmetry; apply Nat.leb_le; lia).
  replace (List.length t + List.length a' - List.length a') with (List.length t)
    by lia.
  rewrite firstn_app, Nat.sub_diag, firstn_all. cbn. apply app_nil_r.
Qed.

(** The look-behind of [entriesPattern] holds exactly after a line feed. *)
Lemma behind_line_feed (b a : list ascii) (g : list (nat * list ascii)) :
  ways true (Behind (Cat (Opt (Lit "013")) (Lit "010")))
    {| before := b; after := a; groups := g |}
  = match b with
    | c :: _ =>
        if Ascii.eqb "010" c
        then [{| before := b; after := a; groups := g |}] else []
    | [] => []
    end.
Proof.
  destruct b as [| c b']; [reflexivity |].
  cbn [ways step before after groups flat_map].
  destruct (Ascii.eqb "010" c); cbn [flat_map app]; [| reflexivity].
  destruct b' as [| d b'']; [reflexivity |]. cbn [before after groups].
  now destruct (Ascii.eqb "013" d).
Qed.

(** What the first way of [entriesPattern] is at a position. *)
Lemma entry_here (b a : list ascii) :
  match hd_error (ways true entriesPattern
                    {| before := b; after := a; groups := [] |}) with
  | Some st' =>
      exists code path,
        match b with c :: _ => Ascii.eqb "010" c | [] => false end = true /\
        line_match a = Some (code, path) /\
        groups st' = [(2, path); (1, code)] /\
        List.length (after st') + (3 + List.length path) = List.length a
  | None =>
      match b with c :: _ => Ascii.eqb "010" c | [] => false end = false \/
      line_match a = None
  end.
Proof.
  unfold entriesPattern.
  change (ways true (Cat ?p ?q) ?st) with (flat_map (ways true q) (ways true p st)).
  rewrite behind_line_feed.
  destruct b as [| c0 b0]; cbn [flat_map hd_error]; [now left |].
  destruct (Ascii.eqb "010" c0) eqn:E0; cbn [flat_map hd_error]; [| now left].
  rewrite app_nil_r.
  destruct a as [| c1 [| c2 [| sp rest]]].
  - now right.
  - cbn -[between runs Regex.line_terminator Ascii.eqb].
    destruct (Regex.line_terminator c1); now right.
  - cbn -[between runs Regex.line_terminator Ascii.eqb].
    destruct (Regex.line_terminator c1);
      cbn -[between runs Regex.line_terminator Ascii.eqb]; [now right |].
    destruct (Regex.line_terminator c2);
      cbn -[between runs Regex.line_terminator Ascii.eqb]; now right.
  - cbn [line_match].
    cbn -[between runs Regex.line_terminator Ascii.eqb line_match take_while].
    destruct (Regex.line_terminator c1);
      cbn -[between runs Regex.line_terminator Ascii.eqb take_while];
      [now right |].
    destruct (Regex.line_terminator c2);
      cbn -[between runs Regex.line_terminator Ascii.eqb take_while];
      [now right |].
    destruct (Ascii.eqb " " sp);
      cbn -[between runs Regex.line_terminator Ascii.eqb take_while];
      [| now right].
    rewrite !app_nil_r, !map_map, hd_error_map, runs_head.
    pose proof (take_while_split word_dot rest) as Hsplit.
    destruct (take_while word_dot rest) as [| d path] eqn:Et;
      cbn [option_map]; [now right |].
    exists [c1; c2], (d :: path).
    split; [reflexivity |]. split; [reflexivity |].
    cbn [groups after fst snd]. split.
    + f_equal; [| f_equal].
      * f_equal. rewrite Hsplit at 1. apply between_forward.
      * f_equal. apply (between_forward _ _ [c1; c2]).
    + cbn [List.length]. rewrite Hsplit at 2. rewrite length_app.
      cbn [List.length]. lia.
Qed.


Lemma scan_skip (p : pattern) (skip : nat) (b : list ascii) (c : ascii)
  (r : list ascii) :
  scan p (S skip) b (c :: r) = scan p skip (c :: b) r.
Proof. cbn [scan Nat.sub]. now rewrite Nat.sub_0_r. Qed.

Lemma scan_miss (p : pattern) (b : list ascii) (c : ascii) (r : list ascii) :
  hd_error (ways true p {| before := b; after := c :: r; groups := [] |}) = None ->
  scan p 0 b (c :: r) = scan p 0 (c :: b) r.
Proof. intros H. cbn [scan]. now rewrite H. Qed.

Lemma scan_hit (p : pattern) (b : list ascii) (c : ascii) (r : list ascii)
  (st' : pos) :
  hd_error (ways true p {| before := b; after := c :: r; groups := [] |})
    = Some st' ->
  scan p 0 b (c :: r) =
    (firstn (List.length (c :: r) - List.length (after st')) (c :: r), groups st')
    :: scan p (List.length
                 (firstn (List.length (c :: r) - List.length (after st')) (c :: r))
               - 1) (c :: b) r.
Proof. intros H. cbn [scan]. now rewrite H. Qed.

Lemma line_match_short (a : list ascii) :
  List.length a < 4 -> line_match a = None.
Proof.
  destruct a as [| c1 [| c2 [| sp [| d r]]]]; cbn [List.length]; try lia;
    try reflexivity.
  intros _. cbn. now destruct (_ && _ && _).
Qed.

Lemma take_while_app_stop (ok : ascii -> bool) (l rest : list ascii) :
  match rest with c :: _ => ok c = false | [] => True end ->
  take_while ok (l ++ rest) = take_while ok l.
Proof.
  intros H. induction l as [| c r IH]; cbn [app take_while].
  - destruct rest as [| d t]; [reflexivity |]. cbn [take_while]. now rewrite H.
  - now rewrite IH.
Qed.

(** A match of [entriesPattern] stays within its line. *)
Lemma line_match_app (l rest : list ascii) :
  match rest with c :: _ => c = "010"%char | [] => True end ->
  line_match (l ++ rest) = line_match l.
Proof.
  intros H.
  assert (Hr : forall r' : list ascii, rest = "010"%char :: r' ->
                 line_match rest = None).
  { intros r' ->. destruct r' as [| c2 [| sp r'']]; reflexivity. }
  destruct l as [| c1 [| c2 [| sp l']]]; cbn [app].
  - destruct rest as [| c r']; [reflexivity |]. subst c. now apply (Hr r').
  - destruct rest as [| c r']; [reflexivity |]. subst c.
    destruct r' as [| sp r'']; [reflexivity |]. cbn [line_match].
    now rewrite andb_false_r.
  - destruct rest as [| c r']; [reflexivity |]. subst c. cbn [line_match].
    now rewrite andb_false_r.
  - cbn [line_match]. rewrite take_while_app_stop; [reflexivity |].
    destruct rest as [| c r']; [exact I |]. now subst c.
Qed.

Lemma line_match_length (l code path : list ascii) :
  line_match l = Some (code, path) ->
  List.length code = 2 /\ path <> [] /\ forallb word_dot path = true /\
  3 + List.length path <= List.length l.
Proof.
  destruct l as [| c1 [| c2 [| sp rest]]]; try discriminate. cbn [line_match].
  destruct (_ && _ && _); [| discriminate].
  pose proof (take_while_split word_dot rest) as Hs.
  pose proof (take_while_all word_dot rest) as Ha.
  destruct (take_while word_dot rest) as [| d t]; [discriminate |].
  intros E. inversion E; subst. split; [reflexivity |].
  split; [discriminate |]. split; [exact Ha |].
  apply (f_equal (@List.length ascii)) in Hs. rewrite length_app in Hs.
  cbn [List.length] in *. lia.
Qed.

(** Inside a line, past its first position, nothing matches. *)
Lemma scan_inside (l rest : list ascii) :
  forallb (fun c => negb (Ascii.eqb "010" c)) l = true ->
  forall (skip : nat) (b : list ascii),
    skip <= List.length l ->
    match b with c :: _ => Ascii.eqb "010" c | [] => false end = false ->
    scan entriesPattern skip b (l ++ rest)
      = scan entriesPattern 0 (rev l ++ b) rest.
Proof.
  induction l as [| c l' IH]; intros Hl skip b Hs Hb.
  - cbn [List.length] in Hs. now replace skip with 0 by lia.
  - cbn [forallb] in Hl. apply andb_true_iff in Hl as [Hc Hl].
    apply negb_true_iff in Hc. cbn [List.length] in Hs.
    cbn [app rev]. rewrite <- app_assoc. cbn [app].
    destruct skip as [| k].
    + rewrite scan_miss.
      * apply (IH Hl 0 (c :: b)); [lia | exact Hc].
      * pose proof (entry_here b (c :: l' ++ rest)) as H.
        destruct (hd_error _) as [st' |]; [| reflexivity].
        destruct H as [code [path [H _]]]. congruence.
    + rewrite scan_skip. apply (IH Hl k (c :: b)); [lia | exact Hc].
Qed.

(** The matches of [entriesPattern], line by line. *)
Lemma scan_lines (lines : list (list ascii)) :
  forallb (forallb (fun c => negb (Ascii.eqb "010" c))) lines = true ->
  forall b : list ascii,
    map snd (scan entriesPattern 0 b (flat_map (cons "010"%char) lines))
    = flat_map (fun l => match line_match l with
                         | Some cp => [[(2, snd cp); (1, fst cp)]]
                         | None => []
                         end) lines.
Proof.
  induction lines as [| l ls IH]; intros Hall b.
  - cbn [flat_map scan].
    pose proof (entry_here b []) as H.
    destruct (hd_error _) as [st' |]; [| reflexivity].
    destruct H as [code [path [_ [H _]]]]. discriminate.
  - cbn [forallb] in Hall. apply andb_true_iff in Hall as [Hl Hls].
    cbn [flat_map]. set (T := flat_map (cons "010"%char) ls).
    assert (HT : match T with c :: _ => c = "010"%char | [] => True end).
    { subst T. destruct ls; [exact I | reflexivity]. }
    cbn [app].
    rewrite scan_miss.
    2: { pose proof (entry_here b ("010"%char :: l ++ T)) as H.
         destruct (hd_error _) as [st' |]; [| reflexivity].
         destruct H as [code [path [_ [H _]]]].
         destruct (l ++ T) as [| c2 [| sp r]]; discriminate. }
    destruct l as [| c l'].
    + cbn [app line_match]. apply (IH Hls).
    + pose proof (entry_here ("010"%char :: b) ((c :: l') ++ T)) as H.
      rewrite (line_match_app (c :: l') T HT) in H.
      cbn [forallb] in Hl. apply andb_true_iff in Hl as [Hc Hl'].
      apply negb_true_iff in Hc.
      cbn [app] in *.
      destruct (hd_error _) as [st' |] eqn:Hhd.
      * destruct H as [code [path [_ [Hm [Hg Hlen]]]]].
        rewrite (scan_hit _ _ _ _ _ Hhd). rewrite Hm. cbn [map snd app fst].
        rewrite Hg. f_equal.
        destruct (line_match_length _ _ _ Hm) as [_ [_ [_ Hfit]]].
        cbn [List.length] in Hfit, Hlen. rewrite length_app in Hlen.
        rewrite length_firstn.
        rewrite (scan_inside l' T Hl').
        -- apply (IH Hls).
        -- cbn [List.length]. rewrite length_app. lia.
        -- exact Hc.
      * destruct H as [H | H]; [discriminate |].
        rewrite H. rewrite (scan_miss _ _ _ _ Hhd).
        rewrite (scan_inside l' T Hl' 0 (c :: "010"%char :: b)); [| lia | exact Hc].
        apply (IH Hls).
Qed.


Lemma list_ascii_of_string_app (s1 s2 : string) :
  list_ascii_of_string (s1 ++ s2)
  = list_ascii_of_string s1 ++ list_ascii_of_string s2.
Proof. induction s1 as [| c s1 IH]; cbn; [reflexivity | now rewrite IH]. Qed.

(** The output, one line after the other. *)
Lemma list_ascii_of_lines (lines : list string) (first : string) :
  list_ascii_of_string (String.concat Worktree.nl (first :: lines))
  = list_ascii_of_string first
    ++ flat_map (cons "010"%char) (map list_ascii_of_string lines).
Proof.
  revert first. induction lines as [| l ls IH]; intros first.
  - cbn. now rewrite app_nil_r.
  - change (String.concat Worktree.nl (first :: l :: ls))
      with (first ++ Worktree.nl ++ String.concat Worktree.nl (l :: ls))%string.
    rewrite !list_ascii_of_string_app, IH. cbn [map flat_map app].
    reflexivity.
Qed.

(** What [entriesPattern] finds in an output is what it takes from each line
    after the first. *)
Lemma entries_of_lines (first : string) (lines : list string) (stderr : string) :
  no_line_feed first = true ->
  forallb no_line_feed lines = true ->
  run_entries (status_run (String.concat Worktree.nl (first :: lines)) stderr)
  = OldGitMore.defined (map line_entry lines).
Proof.
  intros Hf Hl. unfold status_run, matchAll. cbn [run_entries].
  rewrite list_ascii_of_lines.
  rewrite (scan_inside _ _ Hf 0 []); [| lia | reflexivity].
  rewrite <- (map_map snd (fun gs => (group 1 gs, group 2 gs))).
  rewrite scan_lines.
  - clear. induction lines as [| l ls IH]; [reflexivity |].
    cbn [map flat_map OldGitMore.defined]. unfold OldGitMore.defined in IH.
    rewrite map_app, IH. f_equal. unfold line_entry.
    now destruct (line_match (list_ascii_of_string l)) as [[code path] |].
  - clear - Hl. induction lines as [| l ls IH]; [reflexivity |].
    cbn [forallb map] in *. apply andb_true_iff in Hl as [H1 H2].
    unfold no_line_feed in H1. now rewrite H1, IH.
Qed.

(** [branchesPattern] matches only where a line begins with [#]. *)
Lemma branch_here (b a : list ascii) :
  match b with c :: _ => Regex.line_terminator c | [] => true end &&
  match a with d :: _ => Ascii.eqb "#" d | [] => false end = false ->
  ways true branchesPattern {| before := b; after := a; groups := [] |} = [].
Proof.
  intros H. unfold branchesPattern.
  assert (Hstep : forall st : pos,
    before st = b -> after st = a ->
    line_start st = true ->
    ways true (Lit "#") st = []).
  { intros st Hb Ha Hl. unfold line_start in Hl. rewrite Hb in Hl.
    rewrite Hl in H. cbn [andb] in H. cbn [ways step]. rewrite Ha.
    destruct a as [| d r]; [reflexivity |]. now rewrite H. }
  set (st := {| before := b; after := a; groups := [] |}) in *.
  change (ways true (Cat Bol ?q) st)
    with (flat_map (ways true q) (if line_start st then [st] else [])).
  destruct (line_start st) eqn:Hl; [| reflexivity].
  cbn [flat_map]. rewrite app_nil_r.
  change (ways true (Cat (Lit "#") ?q) st)
    with (flat_map (ways true q) (ways true (Lit "#") st)).
  now rewrite (Hstep st eq_refl eq_refl Hl).
Qed.

Lemma scan_branch_none (a : list ascii) :
  forall (skip : nat) (c : ascii) (b : list ascii),
    hash_after_break (c :: a) = false ->
    scan branchesPattern skip (c :: b) a = [].
Proof.
  induction a as [| d r IH]; intros skip c b H.
  - cbn [scan]. destruct skip; [| reflexivity].
    rewrite branch_here; [reflexivity |]. now rewrite andb_false_r.
  - cbn [hash_after_break] in H. apply orb_false_iff in H as [H1 H2].
    destruct skip as [| k].
    + rewrite scan_miss; [now apply IH |]. now rewrite branch_here.
    + rewrite scan_skip. now apply IH.
Qed.

(** With no [#] after a line terminator, [branchesPattern] matches once at
    most, and the second match that worktreeStatus asks for is missing. *)
Lemma ref_of_output (stdout stderr : string) :
  hash_after_break (list_ascii_of_string stdout) = false ->
  run_ref (status_run stdout stderr) = None.
Proof.
  intros H. unfold status_run, match_g, matchAll. cbn [run_ref].
  destruct (list_ascii_of_string stdout) as [| c r]; cbn [scan].
  - now destruct (hd_error _).
  - destruct (hd_error _); cbn [map nth_error];
      now rewrite (scan_branch_none r _ c [] H).
Qed.


Lemma defined_nil_iff {A B : Type} (f : A -> option B) (l : list A) :
  OldGitMore.defined (map f l) = [] <-> forall x, In x l -> f x = None.
Proof.
  induction l as [| a r IH]; cbn [map OldGitMore.defined flat_map].
  - split; [intros _ x [] | reflexivity].
  - fold (OldGitMore.defined (map f r)). split.
    + intros H. apply app_eq_nil in H as [Ha Hr].
      intros x [<- | Hin]; [now destruct (f a) | now apply IH].
    + intros H. rewrite (H a (or_introl eq_refl)). cbn [app].
      apply IH. intros x Hin. apply H. now right.
Qed.

Lemma defined_length {A B : Type} (f : A -> option B) (l : list A) :
  List.length (OldGitMore.defined (map f l)) <= List.length l.
Proof.
  induction l as [| a r IH]; cbn [map OldGitMore.defined flat_map List.length];
    [lia |].
  fold (OldGitMore.defined (map f r)). rewrite length_app.
  destruct (f a); cbn [List.length]; lia.
Qed.

Lemma line_entry_path (l code path : string) :
  line_entry l = Some (code, path) ->
  path <> "" /\ forallb word_dot (list_ascii_of_string path) = true.
Proof.
  unfold line_entry.
  destruct (line_match (list_ascii_of_string l)) as [[c p] |] eqn:E;
    [| discriminate].
  destruct (line_match_length _ _ _ E) as [_ [Hne [Hall _]]].
  cbn [option_map fst snd]. intros H. inversion H; subst. split.
  - destruct p; [congruence | discriminate].
  - now rewrite list_ascii_of_string_of_list_ascii.
Qed.

(** X5. Inside a repository, for an output within ASCII read as its lines,
    none of which gives a path of dots alone: the branch status of worktreeStatus is [clean] exactly when no line
    after the first gives an entry to [entriesPattern], that is, begins with
    two characters, a space and a letter, digit, underscore or dot; it is
    [unmerged] exactly when some such line has an unmerged code and the part
    of its path that was captured is not matched by the ignore rules. And
    when no line terminator is followed by [#], as in what git prints, the
    [ref] that is reported is empty and the branch counts as bare, whatever
    branch the first line names. *)
Theorem worktreeStatus_branch_status
  (w : World) (dir root : string) (pathspec : option string) (flag : bool)
  (first : string) (lines : list string) (stderr : string) :
  getRoot w dir = Some root ->
  git_status w dir pathspec flag
    = status_run (String.concat Worktree.nl (first :: lines)) stderr ->
  ascii_only (String.concat Worktree.nl (first :: lines)) = true ->
  no_line_feed first = true ->
  forallb no_line_feed lines = true ->
  testable lines = true ->
  exists bs log,
    worktreeStatus w dir pathspec flag = (Some bs, log) /\
    (so_status bs = clean <->
     forall l, In l lines -> line_entry l = None) /\
    (so_status bs = bs_unmerged <->
     exists l code path,
       In l lines /\ line_entry l = Some (code, path) /\
       ignores w root path = false /\
       fst (processStatusCode (Some code)) = unmerged) /\
    (hash_after_break
       (list_ascii_of_string (String.concat Worktree.nl (first :: lines)))
     = false ->
     so_ref bs = "" /\ so_bare bs = true).
Proof.
  intros Hr Hg _ Hf Hl _.
  destruct (worktreeStatus_status_of_run w dir root pathspec flag Hr)
    as [bs [log [Hw [Hc Hu]]]].
  destruct (worktreeStatus_entries_of_run w dir root pathspec flag Hr)
    as [bs' [log' [Hw' [_ [_ [_ [_ [Hb Hbr]]]]]]]].
  rewrite Hw in Hw'. inversion Hw'; subst bs' log'; clear Hw'.
  rewrite Hg in Hc, Hu, Hb. rewrite (entries_of_lines first lines stderr Hf Hl) in Hc, Hu.
  exists bs, log. split; [exact Hw |]. split; [| split].
  - rewrite Hc. apply defined_nil_iff.
  - rewrite Hu. split.
    + intros [[code path] [Hin [Hi Hst]]].
      apply in_defined in Hin. apply in_map_iff in Hin as [l [El Hin]].
      exists l, code, path. now repeat split.
    + intros [l [code [path [Hin [El [Hi Hst]]]]]].
      exists (code, path). split; [| now split].
      apply in_defined. apply in_map_iff. now exists l.
  - intros Hh. rewrite (ref_of_output _ stderr Hh) in Hb.
    assert (Hbare : so_bare bs = true) by (apply Hb; now left).
    split; [now apply Hbr | exact Hbare].
Qed.

Lemma worktreeStatus_branch_status_witness :
  exists bs log,
    worktreeStatus (Samples2.printing Samples2.linked_machine Samples2.printed)
      "repo" None false = (Some bs, log) /\
    so_status bs = bs_unmerged /\ so_ref bs = "" /\ so_bare bs = true.
Proof.
  destruct (worktreeStatus_branch_status
              (Samples2.printing Samples2.linked_machine Samples2.printed)
              "repo" "repo" None false "## feature...origin/feature"
              Samples2.printed_lines "" eq_refl eq_refl eq_refl eq_refl eq_refl
              eq_refl)
    as [bs [log [Hw [_ [Hu Href]]]]].
  exists bs, log. split; [exact Hw |]. split; [| exact (Href eq_refl)].
  apply Hu. exists "UU merge.txt", "UU", "merge.txt".
  split; [simpl; tauto |]. repeat split.
Defined.

(** X6. Inside a repository, for an output within ASCII read as its lines,
    none of which gives a path of dots alone: the first line gives no entry, and every later line gives one entry when
    it begins with two characters other than line terminators, a space, and
    a letter, digit, underscore or dot, and none otherwise. The path of the
    entry is the longest run of letters, digits, underscores and dots after
    the space, so it is never empty and never holds a separator or any other
    character, and it is this part of the path that is tested against the
    ignore rules; the entries keep the order of the lines. *)
Theorem worktreeStatus_entries
  (w : World) (dir root : string) (pathspec : option string) (flag : bool)
  (first : string) (lines : list string) (stderr : string) :
  getRoot w dir = Some root ->
  git_status w dir pathspec flag
    = status_run (String.concat Worktree.nl (first :: lines)) stderr ->
  ascii_only (String.concat Worktree.nl (first :: lines)) = true ->
  no_line_feed first = true ->
  forallb no_line_feed lines = true ->
  testable lines = true ->
  exists bs log,
    worktreeStatus w dir pathspec flag = (Some bs, log) /\
    so_entries bs
      = map (fun e => (snd e, if ignores w root (snd e) then ignored
                              else fst (processStatusCode (Some (fst e)))))
          (OldGitMore.defined (map line_entry lines)) /\
    map fst (so_entries bs)
      = map snd (OldGitMore.defined (map line_entry lines)) /\
    (forall p st, In (p, st) (so_entries bs) ->
       p <> "" /\ forallb word_dot (list_ascii_of_string p) = true) /\
    List.length (so_entries bs) <= List.length lines.
Proof.
  intros Hr Hg _ Hf Hl _.
  destruct (worktreeStatus_in_repository w dir root pathspec flag Hr)
    as [bs [log [Hw [_ He]]]].
  rewrite Hg, (entries_of_lines first lines stderr Hf Hl) in He.
  assert (He' : so_entries bs
      = map (fun e => (snd e, if ignores w root (snd e) then ignored
                              else fst (processStatusCode (Some (fst e)))))
          (OldGitMore.defined (map line_entry lines))).
  { rewrite He. apply map_ext. intros e. apply entry_of_spec. }
  exists bs, log. split; [exact Hw |]. split; [exact He' |].
  split; [| split].
  - rewrite He', map_map. now apply map_ext.
  - intros p st Hin. rewrite He' in Hin.
    apply in_map_iff in Hin as [[code path] [E Hin]].
    cbn [fst snd] in E. inversion E; subst p; clear E.
    apply in_defined in Hin. apply in_map_iff in Hin as [l [El _]].
    exact (line_entry_path l code path El).
  - rewrite He', length_map. apply defined_length.
Qed.

Lemma worktreeStatus_entries_witness :
  exists bs log,
    worktreeStatus (Samples2.printing Samples2.linked_machine Samples2.printed)
      "repo" None false = (Some bs, log) /\
    so_entries bs = [("src", star_modified); ("merge.txt", unmerged);
                     ("notes.md", absent); ("build", ignored)].
Proof.
  destruct (worktreeStatus_entries
              (Samples2.printing Samples2.linked_machine Samples2.printed)
              "repo" "repo" None false "## feature...origin/feature"
              Samples2.printed_lines "" eq_refl eq_refl eq_refl eq_refl eq_refl
              eq_refl)
    as [bs [log [Hw [He _]]]].
  exists bs, log. split; [exact Hw | exact He].
Defined.

End StatusOutput.
